(** * xivpf_monitor: the polling and monitoring engine

    A shallow embedding of [api_client.py], [monitor.py], [models.py],
    [job_mappings.py] and [time_utils.py], and the properties of the
    paginated fetch, the detail filter, the result ordering, the
    notification state, the target registry and the order-based expiration
    check.

    Conventions.
    - [datetime] values are integers: microseconds since a fixed epoch that
      lies on a minute boundary (naive local time, as the models store it).
    - [time_left] (a float in the source) is an integer count of a fixed
      sub-second unit; the engine only compares and negates it.
    - A float that is the quotient of two integers ([total_seconds()],
      [expire_threshold / 60]) is the binary64 number nearest to the exact
      quotient, kept as significand and exponent; see [true_divide].
    - [time_without_update] holds the microseconds of the [timedelta]
      whose [total_seconds()] the source stores; the comparison with
      [expire_threshold] is made on that float.
    - An [async] method is a state transformer: the remote service is only
      observed through the replies it gives, in the order the calls are
      made. *)

From Stdlib Require Import ZArith String Ascii List Bool Lia Permutation Sorted.
From stdpp Require Import base tactics option list gmap strings sorting.

Local Open Scope string_scope.
Local Open Scope list_scope.
Local Open Scope Z_scope.

(* ===================================================================== *)
(** * Exceptions and the state-and-error monad *)
(* ===================================================================== *)

(** The exception classes the engine tells apart.  [ValueError] is what
    [get_listing_detail] raises on status 404 (and what a JSON or validation
    failure is an instance of); [ClientError] is [aiohttp.ClientError];
    [RuntimeError] is the missing session; [TypeError] is what comparing
    [None] with a [str] raises. *)
Inductive exn : Type :=
  | ValueError
  | RuntimeError
  | ClientError
  | TypeError
  | OtherError.

#[global] Instance exn_eq_dec : EqDecision exn.
Proof. solve_decision. Defined.

Inductive result (A : Type) : Type :=
  | Ok (a : A)
  | Raise (e : exn).
Arguments Ok {A} a.
Arguments Raise {A} e.

(** A computation over a state [S]: [None] is a run that has used up its
    fuel (only the [while True] loop of [get_all_listings] can);
    otherwise the outcome and the state it leaves, also when it raises. *)
Definition M (S A : Type) : Type := S -> option (result A * S).

Definition ret {S A} (a : A) : M S A := fun s => Some (Ok a, s).
Definition raise {S A} (e : exn) : M S A := fun s => Some (Raise e, s).
Definition bind {S A B} (m : M S A) (k : A -> M S B) : M S B :=
  fun s =>
    match m s with
    | None => None
    | Some (Ok a, s') => k a s'
    | Some (Raise e, s') => Some (Raise e, s')
    end.
(** [try: m except Exception as e: h e] *)
Definition try_except {S A} (m : M S A) (h : exn -> M S A) : M S A :=
  fun s =>
    match m s with
    | None => None
    | Some (Ok a, s') => Some (Ok a, s')
    | Some (Raise e, s') => h e s'
    end.
Definition get {S} : M S S := fun s => Some (Ok s, s).
Definition modify {S} (f : S -> S) : M S unit := fun s => Some (Ok tt, f s).
Definition out_of_fuel {S A} : M S A := fun _ => None.

Declare Scope py_scope.
Delimit Scope py_scope with py.
Notation "x <- m ;; k" := (bind m (fun x => k))
  (at level 100, m at next level, right associativity) : py_scope.
Notation "m ;;; k" := (bind m (fun _ => k))
  (at level 100, right associativity) : py_scope.
Local Open Scope py_scope.

(** [for x in xs: body x] *)
Fixpoint for_each {S A} (xs : list A) (body : A -> M S unit) : M S unit :=
  match xs with
  | [] => ret tt
  | x :: xs' => body x ;;; for_each xs' body
  end.

(* ===================================================================== *)
(** * models.py *)
(* ===================================================================== *)

Record SlotInfo : Type := mkSlotInfo {
  filled : bool;
  role : option string;
  job : string
}.

Record Listing : Type := mkListing {
  id : Z;
  name : string;
  description : string;
  created_world : string;
  home_world : string;
  category : string;
  duty : string;
  min_item_level : Z;
  slots_filled : Z;
  slots_available : Z;
  time_left : Z;
  updated_at : Z;
  is_cross_world : bool;
  datacenter : string;
  (* additional fields from the detail endpoint *)
  beginners_welcome : option bool;
  duty_type : option string;
  objective : option string;
  conditions : option string;
  loot_rules : option string;
  slots : option (list SlotInfo)
}.

Record Pagination : Type := mkPagination {
  total : Z;
  page : Z;
  per_page : Z;
  total_pages : Z
}.

Record ListingsResponse : Type := mkListingsResponse {
  data : list Listing;
  pagination : Pagination
}.

Record FilterCondition : Type := mkFilterCondition {
  (* query-level fields, sent to /listings *)
  fc_category : option string;
  fc_world : option string;
  fc_datacenter : option string;
  fc_search : option string;
  fc_jobs : option (list Z);
  fc_duty : option (list Z);
  (* detail-level fields, need /listing/{id} *)
  exclude_jobs : option (list Z);
  min_slots_available : option Z;
  max_slots_filled : option Z;
  fc_beginners_welcome : option bool;
  content_keywords : option string
}.

Record MonitorTarget : Type := mkMonitorTarget {
  listing_id : Z;
  last_update : Z;
  time_without_update : Z
}.

(** ** Python truthiness of the optional fields *)

Definition truthy_str (o : option string) : bool :=
  match o with
  | Some s => negb (String.eqb s "")
  | None => false
  end.

Definition truthy_list {A} (o : option (list A)) : bool :=
  match o with
  | Some (_ :: _) => true
  | _ => false
  end.

Definition truthy_int (o : option Z) : bool :=
  match o with
  | Some n => negb (n =? 0)
  | None => false
  end.

Definition is_not_none {A} (o : option A) : bool :=
  match o with
  | Some _ => true
  | None => false
  end.

(** The [params] dictionary of a [GET /listings] request.  The keys
    [page] and [per_page] are always present; a filter key is present only
    when [get_listings] put it there.  [jobs] and [duty] hold the ids that
    the source joins with commas. *)
Record Params : Type := mkParams {
  param_page : Z;
  param_per_page : Z;
  param_category : option string;
  param_world : option string;
  param_datacenter : option string;
  param_search : option string;
  param_jobs : option (list Z);
  param_duty : option (list Z)
}.

(** What [GET /listing/{id}] can come back with: status 404, a listing, or
    a failure of the transport, of [raise_for_status], of [json()] or of
    the model's validation. *)
Inductive detail_reply : Type :=
  | Reply404
  | ReplyListing (l : Listing)
  | ReplyError (e : exn).

(** One request and the reply it got, as the client saw them. *)
Inductive exchange : Type :=
  | ListingsCall (p : Params) (r : result ListingsResponse)
  | DetailCall (listing_id : Z) (r : detail_reply).

Definition keep_str (o : option string) : option string :=
  if truthy_str o then o else None.

Definition keep_list {A} (o : option (list A)) : option (list A) :=
  if truthy_list o then o else None.

(** The [params] that [get_listings] builds (api_client.py, lines 35-52). *)
Definition build_params (page per_page : Z) (filter_condition : option FilterCondition)
  : Params :=
  let per := Z.min per_page 100 in
  match filter_condition with
  | Some fc =>
      mkParams page per
        (keep_str (fc_category fc)) (keep_str (fc_world fc))
        (keep_str (fc_datacenter fc)) (keep_str (fc_search fc))
        (keep_list (fc_jobs fc)) (keep_list (fc_duty fc))
  | None => mkParams page per None None None None None None
  end.

(* ===================================================================== *)
(** * What the engine runs against *)
(* ===================================================================== *)

(** The remote service with the wall clock, and the library functions the
    source calls.  A request returns a reply and the service's next state;
    nothing is assumed about either. *)
Class Env : Type := {
  World : Type;
  http_get_listings : Params -> World -> result ListingsResponse * World;
  http_get_listing : Z -> World -> detail_reply * World;
  (** [datetime.now()] *)
  clock : World -> Z;
  (** [asyncio.sleep(seconds)] *)
  sleep : Z -> World -> World;
  (** Python's [str.strip], [str.upper], [str.lower] *)
  str_strip : string -> string;
  str_upper : string -> string;
  str_lower : string -> string;
  (** [s.split()]: the whitespace-separated words of [s] *)
  str_split : string -> list string;
  (** [str_contains needle hay] is [needle in hay] *)
  str_contains : string -> string -> bool;
  (** the module-level table of job_mappings.py, loaded from
      [data/ClassJob.csv] when the module is imported *)
  JOB_CODE_TO_ID : gmap string Z
}.

(* ===================================================================== *)
(** * job_mappings.py *)
(* ===================================================================== *)

Definition nonempty (s : string) : bool := negb (String.eqb s "").

Fixpoint get_job_ids_from_codes `{E : Env} (job_codes : list string) : list Z :=
  match job_codes with
  | [] => []
  | code :: rest =>
      let code := str_upper (str_strip code) in
      match JOB_CODE_TO_ID !! code with
      | Some job_id => job_id :: get_job_ids_from_codes rest
      | None => get_job_ids_from_codes rest
      end
  end.

Definition get_job_codes_from_string `{E : Env} (job_string : string) : list string :=
  if nonempty job_string
  then map (fun code => str_upper (str_strip code))
           (filter (fun code => nonempty (str_strip code) = true) (str_split job_string))
  else [].

(** [_get_fallback_mappings]: the built-in table used when the data file
    cannot be read. *)
Definition fallback_mapping : gmap string Z :=
  list_to_map
    [("GLA", 1); ("PLD", 19); ("MRD", 3); ("WAR", 21); ("DRK", 32); ("GNB", 37);
     ("PGL", 2); ("MNK", 20); ("LNC", 4); ("DRG", 22); ("ROG", 29); ("NIN", 30);
     ("SAM", 34); ("RPR", 39); ("VPR", 41); ("ARC", 5); ("BRD", 23); ("MCH", 31);
     ("DNC", 38); ("THM", 7); ("BLM", 25); ("ACN", 26); ("SMN", 27); ("RDM", 35);
     ("BLU", 36); ("PCT", 42); ("CNJ", 6); ("WHM", 24); ("SCH", 28); ("AST", 33);
     ("SGE", 40)].

(* ===================================================================== *)
(** * api_client.py *)
(* ===================================================================== *)

(** [session] is whether [__aenter__] has run; [exchanges] is a record of
    the requests made so far with their replies, oldest first, kept only to
    state what was requested. *)
Record XIVPFApiClient `{E : Env} : Type := mkApi {
  session : bool;
  world : World;
  exchanges : list exchange
}.

(** The handler of [aiohttp.ClientError] in [get_listings] and
    [get_listing_detail] logs and re-raises: the exception reaches the
    caller as it is, and the log line is not kept. *)
Definition get_listings `{E : Env} (page per_page : Z)
    (filter_condition : option FilterCondition) : M XIVPFApiClient ListingsResponse :=
  fun api =>
    if negb (session api) then Some (Raise RuntimeError, api)
    else
      let params := build_params page per_page filter_condition in
      let '(r, w) := http_get_listings params (world api) in
      Some (r, mkApi _ (session api) w (exchanges api ++ [ListingsCall params r])).

Definition get_listing_detail `{E : Env} (listing_id : Z) : M XIVPFApiClient Listing :=
  fun api =>
    if negb (session api) then Some (Raise RuntimeError, api)
    else
      let '(r, w) := http_get_listing listing_id (world api) in
      let api' := mkApi _ (session api) w (exchanges api ++ [DetailCall listing_id r]) in
      match r with
      | Reply404 => Some (Raise ValueError, api')
      | ReplyListing l => Some (Ok l, api')
      | ReplyError e => Some (Raise e, api')
      end.

(** [if max_pages and page >= max_pages] *)
Definition max_pages_hit (max_pages : option Z) (page : Z) : bool :=
  match max_pages with
  | Some m => negb (m =? 0) && (m <=? page)
  | None => false
  end.

(** The [while True] loop of [get_all_listings]; one unit of fuel per
    iteration. *)
Fixpoint get_all_listings_loop `{E : Env} (fuel : nat)
    (filter_condition : option FilterCondition)
    (max_pages : option Z) (page : Z) (all_listings : list Listing)
  : M XIVPFApiClient (list Listing) :=
  match fuel with
  | O => out_of_fuel
  | S fuel' =>
      response <- get_listings page 100 filter_condition ;;
      let all_listings := all_listings ++ data response in
      if total_pages (pagination response) <=? page then ret all_listings
      else if max_pages_hit max_pages page then ret all_listings
      else get_all_listings_loop fuel' filter_condition max_pages (page + 1) all_listings
  end.

Definition get_all_listings `{E : Env} (fuel : nat)
    (filter_condition : option FilterCondition)
    (max_pages : option Z) : M XIVPFApiClient (list Listing) :=
  get_all_listings_loop fuel filter_condition max_pages 1 [].

(** The guard of [check_advanced_filters]: [any([...])] over the five
    detail-level fields, by truthiness except for [beginners_welcome]. *)
Definition any_advanced_filter (fc : FilterCondition) : bool :=
  truthy_list (exclude_jobs fc)
  || truthy_int (min_slots_available fc)
  || truthy_int (max_slots_filled fc)
  || is_not_none (fc_beginners_welcome fc)
  || truthy_str (content_keywords fc).

(** The body of the slot loop: true when it reaches [return False]. *)
Definition slot_has_excluded_job `{E : Env} (excluded : list Z) (slot : SlotInfo) : bool :=
  filled slot && nonempty (job slot) &&
  (let existing_job_ids := get_job_ids_from_codes (get_job_codes_from_string (job slot)) in
   existsb (fun exclude_job_id => bool_decide (exclude_job_id ∈ existing_job_ids)) excluded).

Definition excluded_job_present `{E : Env} (fc : FilterCondition) (detailed : Listing) : bool :=
  match exclude_jobs fc, slots detailed with
  | Some ((_ :: _) as excluded), Some ((_ :: _) as sl) =>
      existsb (slot_has_excluded_job excluded) sl
  | _, _ => false
  end.

Definition too_few_slots_available (fc : FilterCondition) (detailed : Listing) : bool :=
  match min_slots_available fc with
  | Some m => slots_available detailed <? m
  | None => false
  end.

Definition too_many_slots_filled (fc : FilterCondition) (detailed : Listing) : bool :=
  match max_slots_filled fc with
  | Some m => m <? slots_filled detailed
  | None => false
  end.

Definition beginners_welcome_differs (fc : FilterCondition) (detailed : Listing) : bool :=
  match fc_beginners_welcome fc with
  | Some b => negb (bool_decide (beginners_welcome detailed = Some b))
  | None => false
  end.

Definition keywords_of `{E : Env} (content_keywords : string) : list string :=
  map (fun kw => str_lower (str_strip kw))
      (filter (fun kw => nonempty (str_strip kw) = true) (str_split content_keywords)).

(** True when the keyword block reaches [return False]. *)
Definition no_keyword_found `{E : Env} (fc : FilterCondition) (detailed : Listing) : bool :=
  match content_keywords fc with
  | Some kws =>
      if nonempty kws then
        match keywords_of kws with
        | [] => false
        | (_ :: _) as keywords =>
            let content_lower := str_lower (description detailed) in
            negb (existsb (fun keyword => str_contains keyword content_lower) keywords)
        end
      else false
  | None => false
  end.

(** The part of [check_advanced_filters] after the detail record is there
    (lines 130-170): each block returns [False] as soon as it fails. *)
Definition check_detail `{E : Env} (fc : FilterCondition) (detailed_listing : Listing) : bool :=
  if excluded_job_present fc detailed_listing then false
  else if too_few_slots_available fc detailed_listing then false
  else if too_many_slots_filled fc detailed_listing then false
  else if beginners_welcome_differs fc detailed_listing then false
  else if no_keyword_found fc detailed_listing then false
  else true.

Definition check_advanced_filters `{E : Env} (listing : Listing)
    (filter_condition : FilterCondition) : M XIVPFApiClient bool :=
  if negb (any_advanced_filter filter_condition) then ret true
  else
    fetched <- try_except
                 (detailed_listing <- get_listing_detail (id listing) ;;
                  ret (Some detailed_listing))
                 (fun e => if decide (e = ValueError) then ret None else raise e) ;;
    match fetched with
    | None => ret false
    | Some detailed_listing => ret (check_detail filter_condition detailed_listing)
    end.

(* ===================================================================== *)
(** * Floats *)
(* ===================================================================== *)

(** A binary64 number, [(m, e)] standing for [m * 2 ^ e]. *)
Definition pyfloat : Type := (Z * Z)%type.

(** The integer nearest to [n / d], the even one of two that are equally
    near, for [0 <= n] and [0 < d]. *)
Definition round_half_even (n d : Z) : Z :=
  let q := n / d in
  let r := n mod d in
  if 2 * r <? d then q
  else if d <? 2 * r then q + 1
  else if Z.even q then q else q + 1.

(** [n / d] on two [int]s, for [0 < d]: the float nearest to the exact
    quotient, ties to even.  The significand of a quotient other than 0 is
    rounded to 53 bits: [high - scale] is the position of the leading bit
    of the quotient.  (The quotients of this program are far from the ends
    of the exponent range, which is left out.) *)
Definition true_divide (n d : Z) : pyfloat :=
  if n =? 0 then (0, 0)
  else
    let a := Z.abs n in
    let scale := Z.log2_up d in
    let high := Z.log2 (a * 2 ^ scale / d) in
    let m := round_half_even (a * 2 ^ (scale + 52)) (d * 2 ^ high) in
    (Z.sgn n * m, high - scale - 52).

(** [x < n] and [n < x] for a float and an [int], which Python compares
    by their exact values. *)
Definition float_lt_int (x : pyfloat) (n : Z) : bool :=
  let '(m, e) := x in
  if 0 <=? e then m * 2 ^ e <? n else m <? n * 2 ^ (- e).

Definition int_lt_float (n : Z) (x : pyfloat) : bool :=
  let '(m, e) := x in
  if 0 <=? e then n <? m * 2 ^ e else n * 2 ^ (- e) <? m.

(** [int(x)]: the fraction is dropped. *)
Definition int_of_float (x : pyfloat) : Z :=
  let '(m, e) := x in
  if 0 <=? e then m * 2 ^ e else Z.quot m (2 ^ (- e)).

(** [timedelta.total_seconds()] of a difference of [microseconds]. *)
Definition total_seconds (microseconds : Z) : pyfloat := true_divide microseconds 1000000.

(* ===================================================================== *)
(** * time_utils.py *)
(* ===================================================================== *)

(** The text [get_time_ago_str] renders, by its unit; [UnknownTime] is the
    text for a missing time. *)
Inductive time_ago : Type :=
  | UnknownTime
  | SecondsAgo (n : Z)
  | MinutesAgo (n : Z)
  | HoursAgo (n : Z)
  | DaysAgo (n : Z).

(** [now] is the [datetime.now()] the function reads. *)
Definition get_time_ago_str (now : Z) (dt : option Z) : time_ago :=
  match dt with
  | None => UnknownTime
  | Some dt =>
      let total_seconds := int_of_float (total_seconds (now - dt)) in
      if total_seconds <? 60 then SecondsAgo total_seconds
      else if total_seconds <? 3600 then MinutesAgo (total_seconds / 60)
      else if total_seconds <? 86400 then HoursAgo (total_seconds / 3600)
      else DaysAgo (total_seconds / 86400)
  end.

(** [is_recent_update(dt, threshold_minutes)] *)
Definition is_recent_update (now : Z) (dt : option Z) (threshold_minutes : Z) : bool :=
  match dt with
  | None => false
  | Some dt => float_lt_int (total_seconds (now - dt)) (threshold_minutes * 60)
  end.

(* ===================================================================== *)
(** * What the notifier and the logger are asked to do *)
(* ===================================================================== *)

(** The [reason] text of [notify_expired]. *)
Inductive expire_reason : Type :=
  | ReasonGoneFromList                (* the listing has disappeared from the list *)
  | ReasonNoUpdate (minutes : Z).     (* more than [minutes] minutes without update *)

(** The messages of [show_status], by what they say. *)
Inductive status : Type :=
  | StartedMonitoring (listing_id : Z) (listing_name : string)
  | AddTargetFailed (listing_id : Z)
  | StoppedMonitoring (listing_id : Z)
  | TargetsHeader (count : nat)
  | TargetLine (listing_id : Z) (listing_name : string) (slots_filled slots_available : Z)
               (time_display : time_ago)
  | TargetLineFailed (listing_id : Z)
  | ListingEnded (listing_id : Z)
  | MonitoringStarted
  | PressQToStop
  | CheckDone (found : nat) (targets : nat)
  | ErrorStatus (e : exn)
  | LoopEnded
  | NotifiedCleared
  | DisplayedCleared
  | Stopping.

Inductive log_site : Type :=
  | InSearchListings
  | InAddMonitorTarget
  | InCheckMonitorTarget (listing_id : Z)
  | InContinuousSearch.

(** One call on the notifier, or one [logger.error]. *)
Inductive event : Type :=
  | NotifyFound (listings : list Listing) (filter_name : string)
                (enable_system_notification : bool)
  | NotifyExpired (listing : Listing) (reason : expire_reason)
  | NotifyUpdated (listing : Listing)
  | StatusShown (message : status)
  | ListingsTableShown (listings : list Listing) (max_count : Z)
  | ErrorLogged (site : log_site) (e : exn).

(* ===================================================================== *)
(** * Python containers *)
(* ===================================================================== *)

(** A [dict] with integer keys, in insertion order. *)
Definition dict (V : Type) : Type := list (Z * V).

Definition dict_keys {V} (d : dict V) : list Z := fmap fst d.

Fixpoint dict_get {V} (k : Z) (d : dict V) : option V :=
  match d with
  | [] => None
  | (k', v) :: d' => if k' =? k then Some v else dict_get k d'
  end.

Definition dict_contains {V} (k : Z) (d : dict V) : bool := is_not_none (dict_get k d).

(** [del d[k]] *)
Fixpoint dict_del {V} (k : Z) (d : dict V) : dict V :=
  match d with
  | [] => []
  | (k', v) :: d' => if k' =? k then dict_del k d' else (k', v) :: dict_del k d'
  end.

(** Assignment to a field of the object that [d[k]] holds: the entry, where
    there is one, now shows [v]. *)
Fixpoint dict_replace {V} (k : Z) (v : V) (d : dict V) : dict V :=
  match d with
  | [] => []
  | (k', v') :: d' => if k' =? k then (k', v) :: d' else (k', v') :: dict_replace k v d'
  end.

(** [d[k] = v] *)
Definition dict_setitem {V} (k : Z) (v : V) (d : dict V) : dict V :=
  if dict_contains k d then dict_replace k v d else d ++ [(k, v)].

(** [{l.id for l in listings}] *)
Definition id_set (listings : list Listing) : gset Z := list_to_set (fmap id listings).

(** [xs[:stop]] *)
Definition slice_to {A} (stop : Z) (xs : list A) : list A :=
  if 0 <=? stop then take (Z.to_nat stop) xs
  else take (Z.to_nat (Z.of_nat (length xs) + stop)) xs.

(* ===================================================================== *)
(** * monitor.py *)
(* ===================================================================== *)

(** [notifier] is the list of calls made on the notifier and the logger,
    oldest first. *)
Record XIVPFMonitor `{E : Env} : Type := mkMonitor {
  api_client : XIVPFApiClient;
  notifier : list event;
  check_interval : Z;
  expire_threshold : Z;
  notified_listings : gset Z;
  monitor_targets : dict MonitorTarget;
  last_listings : list Listing;
  last_displayed_ids : gset Z;
  running : bool
}.

Definition set_api_client `{E : Env} (a : XIVPFApiClient) (self : XIVPFMonitor) : XIVPFMonitor :=
  mkMonitor _ a (notifier self) (check_interval self) (expire_threshold self)
    (notified_listings self) (monitor_targets self) (last_listings self)
    (last_displayed_ids self) (running self).

Definition emit `{E : Env} (e : event) (self : XIVPFMonitor) : XIVPFMonitor :=
  mkMonitor _ (api_client self) (notifier self ++ [e]) (check_interval self)
    (expire_threshold self) (notified_listings self) (monitor_targets self)
    (last_listings self) (last_displayed_ids self) (running self).

Definition set_notified_listings `{E : Env} (s : gset Z) (self : XIVPFMonitor) : XIVPFMonitor :=
  mkMonitor _ (api_client self) (notifier self) (check_interval self)
    (expire_threshold self) s (monitor_targets self) (last_listings self)
    (last_displayed_ids self) (running self).

Definition set_monitor_targets `{E : Env} (d : dict MonitorTarget) (self : XIVPFMonitor)
  : XIVPFMonitor :=
  mkMonitor _ (api_client self) (notifier self) (check_interval self)
    (expire_threshold self) (notified_listings self) d (last_listings self)
    (last_displayed_ids self) (running self).

Definition set_last_listings `{E : Env} (l : list Listing) (self : XIVPFMonitor) : XIVPFMonitor :=
  mkMonitor _ (api_client self) (notifier self) (check_interval self)
    (expire_threshold self) (notified_listings self) (monitor_targets self) l
    (last_displayed_ids self) (running self).

Definition set_last_displayed_ids `{E : Env} (s : gset Z) (self : XIVPFMonitor) : XIVPFMonitor :=
  mkMonitor _ (api_client self) (notifier self) (check_interval self)
    (expire_threshold self) (notified_listings self) (monitor_targets self)
    (last_listings self) s (running self).

Definition set_running `{E : Env} (b : bool) (self : XIVPFMonitor) : XIVPFMonitor :=
  mkMonitor _ (api_client self) (notifier self) (check_interval self)
    (expire_threshold self) (notified_listings self) (monitor_targets self)
    (last_listings self) (last_displayed_ids self) b.

(** A call on [self.api_client]. *)
Definition on_api `{E : Env} {A} (m : M XIVPFApiClient A) : M XIVPFMonitor A :=
  fun self =>
    match m (api_client self) with
    | None => None
    | Some (r, a) => Some (r, set_api_client a self)
    end.

(** [datetime.now()] *)
Definition now `{E : Env} (self : XIVPFMonitor) : Z := clock (world (api_client self)).

(** [await asyncio.sleep(self.check_interval)] *)
Definition sleep_interval `{E : Env} (self : XIVPFMonitor) : XIVPFMonitor :=
  let a := api_client self in
  set_api_client (mkApi _ (session a) (sleep (check_interval self) (world a)) (exchanges a))
    self.

(** The loop of [search_listings] that keeps the listings passing
    [check_advanced_filters]. *)
Fixpoint apply_advanced_filters `{E : Env} (listings : list Listing)
    (filter_condition : FilterCondition) (filtered_listings : list Listing)
  : M XIVPFApiClient (list Listing) :=
  match listings with
  | [] => ret filtered_listings
  | listing :: rest =>
      keep <- check_advanced_filters listing filter_condition ;;
      apply_advanced_filters rest filter_condition
        (if keep then filtered_listings ++ [listing] else filtered_listings)
  end.

(** [[l for l in filtered_listings if l.id not in self.notified_listings]] *)
Definition new_listings_of (notified : gset Z) (filtered_listings : list Listing)
  : list Listing :=
  filter (fun l => id l ∉ notified) filtered_listings.

(** The [if notify and new_listings:] block. *)
Definition notify_new `{E : Env} (notify : bool) (filter_name : string)
    (new_listings : list Listing) (self : XIVPFMonitor) : XIVPFMonitor :=
  match notify, new_listings with
  | true, _ :: _ =>
      let has_monitor_targets := 0 <? Z.of_nat (length (monitor_targets self)) in
      let self := emit (NotifyFound new_listings filter_name (negb has_monitor_targets)) self in
      set_notified_listings (notified_listings self ∪ id_set new_listings) self
  | _, _ => self
  end.

(** The [try] block of [search_listings]. *)
Definition search_listings_try `{E : Env} (fuel : nat) (filter_condition : FilterCondition)
    (filter_name : string) (notify : bool) : M XIVPFMonitor (list Listing) :=
  listings <- on_api (get_all_listings fuel (Some filter_condition) None) ;;
  filtered_listings <- on_api (apply_advanced_filters listings filter_condition []) ;;
  self <- get ;;
  let new_listings := new_listings_of (notified_listings self) filtered_listings in
  modify (notify_new notify filter_name new_listings) ;;;
  ret filtered_listings.

Definition search_listings `{E : Env} (fuel : nat) (filter_condition : FilterCondition)
    (filter_name : string) (notify : bool) : M XIVPFMonitor (list Listing) :=
  try_except (search_listings_try fuel filter_condition filter_name notify)
    (fun e => modify (emit (ErrorLogged InSearchListings e)) ;;; ret []).

Definition add_monitor_target `{E : Env} (listing_id : Z) : M XIVPFMonitor unit :=
  try_except
    (listing <- on_api (get_listing_detail listing_id) ;;
     modify (fun self =>
       set_monitor_targets
         (dict_setitem listing_id (mkMonitorTarget listing_id (updated_at listing) 0)
            (monitor_targets self)) self) ;;;
     modify (emit (StatusShown (StartedMonitoring listing_id (name listing)))))
    (fun e =>
       modify (emit (ErrorLogged InAddMonitorTarget e)) ;;;
       modify (emit (StatusShown (AddTargetFailed listing_id)))).

Definition remove_monitor_target `{E : Env} (listing_id : Z) (self : XIVPFMonitor)
  : XIVPFMonitor :=
  if dict_contains listing_id (monitor_targets self) then
    emit (StatusShown (StoppedMonitoring listing_id))
      (set_monitor_targets (dict_del listing_id (monitor_targets self)) self)
  else self.

(** One target of the loop of [show_monitor_targets]. *)
Definition show_monitor_target `{E : Env} (entry : Z * MonitorTarget) : M XIVPFMonitor unit :=
  let '(listing_id, target) := entry in
  try_except
    (listing <- on_api (get_listing_detail listing_id) ;;
     self <- get ;;
     let time_display := get_time_ago_str (now self) (Some (last_update target)) in
     modify (emit (StatusShown
       (TargetLine listing_id (name listing) (slots_filled listing)
          (slots_available listing) time_display))))
    (fun e => modify (emit (StatusShown (TargetLineFailed listing_id)))).

Definition show_monitor_targets `{E : Env} : M XIVPFMonitor unit :=
  self <- get ;;
  match monitor_targets self with
  | [] => ret tt
  | _ :: _ =>
      modify (emit (StatusShown (TargetsHeader (length (monitor_targets self))))) ;;;
      for_each (monitor_targets self) show_monitor_target
  end.

(** [target] with new values in [last_update] and [time_without_update]. *)
Definition with_times (target : MonitorTarget) (last_update time_without_update : Z)
  : MonitorTarget :=
  mkMonitorTarget (listing_id target) last_update time_without_update.

(** Assignments to the fields of [target], the object the registry holds
    under [listing_id]. *)
Definition update_target `{E : Env} (listing_id : Z) (target : MonitorTarget)
    (self : XIVPFMonitor) : XIVPFMonitor :=
  set_monitor_targets (dict_replace listing_id target (monitor_targets self)) self.

(** One target of the loop of [check_monitor_targets]: the [try] block
    with its two handlers. *)
Definition check_monitor_target `{E : Env} (entry : Z * MonitorTarget) : M XIVPFMonitor unit :=
  let '(listing_id, target) := entry in
  try_except
    (listing <- on_api (get_listing_detail listing_id) ;;
     if last_update target <? updated_at listing then
       modify (emit (NotifyUpdated listing)) ;;;
       modify (update_target listing_id (with_times target (updated_at listing) 0))
     else
       self <- get ;;
       let time_without_update := now self - last_update target in
       modify (update_target listing_id
                 (with_times target (last_update target) time_without_update)) ;;;
       if int_lt_float (expire_threshold self) (total_seconds time_without_update) then
         modify (emit (NotifyExpired listing
                         (ReasonNoUpdate
                            (int_of_float (true_divide (expire_threshold self) 60))))) ;;;
         modify (remove_monitor_target listing_id)
       else ret tt)
    (fun e =>
       if decide (e = ValueError) then
         modify (emit (StatusShown (ListingEnded listing_id))) ;;;
         modify (remove_monitor_target listing_id)
       else
         modify (emit (ErrorLogged (InCheckMonitorTarget listing_id) e))).

(** The loop runs over [list(self.monitor_targets.items())], the entries
    as they are when it starts. *)
Definition check_monitor_targets `{E : Env} : M XIVPFMonitor unit :=
  self <- get ;;
  for_each (monitor_targets self) check_monitor_target.

(** The search for the last "new" listing in [check_expired_by_order]:
    [first_drop i prev rest] is [Some (j - 1)] for the first index [j >= i]
    of the list at which [time_left] is below its predecessor's, [prev]
    being entry [i - 1] and [rest] the entries from [i] on. *)
Fixpoint first_drop (i : Z) (prev : Listing) (rest : list Listing) : option Z :=
  match rest with
  | [] => None
  | cur :: rest' =>
      if time_left cur <? time_left prev then Some (i - 1)
      else first_drop (i + 1) cur rest'
  end.

Definition last_new_index (listings : list Listing) : Z :=
  match listings with
  | [] => Z.of_nat (length listings) - 1
  | first :: rest => default (Z.of_nat (length listings) - 1) (first_drop 1 first rest)
  end.

(** The loop over [self.last_listings] that reports and removes. *)
Fixpoint expire_targets `{E : Env} (previous : list Listing) (expired_monitor_targets : gset Z)
    (self : XIVPFMonitor) : XIVPFMonitor :=
  match previous with
  | [] => self
  | listing :: rest =>
      if bool_decide (id listing ∈ expired_monitor_targets) then
        expire_targets rest expired_monitor_targets
          (remove_monitor_target (id listing)
             (emit (NotifyExpired listing ReasonGoneFromList) self))
      else expire_targets rest expired_monitor_targets self
  end.

Definition check_expired_by_order `{E : Env} (listings : list Listing) (self : XIVPFMonitor)
  : XIVPFMonitor :=
  if (Z.of_nat (length listings) <? 2) || bool_decide (monitor_targets self = []) then self
  else
    let last_new_index := last_new_index listings in
    let self :=
      match last_listings self with
      | [] => self
      | _ :: _ =>
          let previous_ids := id_set (slice_to (last_new_index + 1) (last_listings self)) in
          let current_ids := id_set listings in
          let expired_ids := previous_ids ∖ current_ids in
          let monitor_target_ids : gset Z :=
            list_to_set (dict_keys (monitor_targets self)) in
          let expired_monitor_targets := expired_ids ∩ monitor_target_ids in
          expire_targets (last_listings self) expired_monitor_targets self
      end in
    set_last_listings listings self.

(** ** The ordering of the merged results *)

(** [dt.replace(second=0, microsecond=0)] *)
Definition minute_of (dt : Z) : Z := dt - dt mod 60000000.

(** The sort key of [continuous_search]:
    [(updated_at truncated to the minute, duty_type, -time_left)]. *)
Definition sort_key : Type := Z * option string * Z.

Definition key_of (l : Listing) : sort_key :=
  (minute_of (updated_at l), duty_type l, - time_left l).

(** [a < b] on two keys, as Python compares tuples: the first position
    where the items are not [==] decides, by [<] on those two items; [None]
    and a [str] are not [==], and [<] on them raises. *)
Definition key_lt (a b : sort_key) : result bool :=
  let '(m1, d1, t1) := a in
  let '(m2, d2, t2) := b in
  if negb (m1 =? m2) then Ok (m1 <? m2)
  else
    match d1, d2 with
    | None, None => Ok (t1 <? t2)
    | Some s1, Some s2 =>
        if String.eqb s1 s2 then Ok (t1 <? t2) else Ok (String.ltb s1 s2)
    | _, _ => Raise TypeError
    end.

(** Puts [x] in front of the first entry that is not below it. *)
Fixpoint insert_sorted (x : Listing) (sorted : list Listing) : result (list Listing) :=
  match sorted with
  | [] => Ok [x]
  | y :: rest =>
      match key_lt (key_of y) (key_of x) with
      | Raise e => Raise e
      | Ok false => Ok (x :: y :: rest)
      | Ok true =>
          match insert_sorted x rest with
          | Raise e => Raise e
          | Ok rest' => Ok (y :: rest')
          end
      end
  end.

(** A stable sort into ascending key order that uses only [<] on keys. *)
Fixpoint sort_ascending (l : list Listing) : result (list Listing) :=
  match l with
  | [] => Ok []
  | x :: rest =>
      match sort_ascending rest with
      | Raise e => Raise e
      | Ok sorted => insert_sorted x sorted
      end
  end.

(** [all_listings.sort(key=..., reverse=True)]: the list is reversed,
    sorted stably into ascending key order, and reversed again.  Where [<]
    orders the keys without raising, every stable sort yields the same
    list; where it raises for some pair, whether [list.sort] meets that
    pair depends on its merge strategy, and this insertion sort stands for
    it only in the cases the theorems below cover. *)
Definition sort_listings (all_listings : list Listing) : result (list Listing) :=
  match sort_ascending (reverse all_listings) with
  | Raise e => Raise e
  | Ok sorted => Ok (reverse sorted)
  end.

Definition lift_result {S A} (r : result A) : M S A := fun s => Some (r, s).

(** ** The poll loop *)

(** The loop over [filter_conditions] that fills [all_listings]. *)
Fixpoint search_all `{E : Env} (fuel : nat) (filter_conditions : list (FilterCondition * string))
    (all_listings : list Listing) : M XIVPFMonitor (list Listing) :=
  match filter_conditions with
  | [] => ret all_listings
  | (condition, name) :: rest =>
      listings <- search_listings fuel condition name true ;;
      search_all fuel rest (all_listings ++ listings)
  end.

(** The branch of [continuous_search] taken without monitor targets
    (lines 255-270). *)
Definition display_new_listings `{E : Env} (all_listings : list Listing) (self : XIVPFMonitor)
  : XIVPFMonitor :=
  match all_listings with
  | [] => self
  | _ :: _ =>
      let current_ids := id_set all_listings in
      let new_ids := current_ids ∖ last_displayed_ids self in
      if bool_decide (new_ids = ∅) then self
      else set_last_displayed_ids current_ids
             (emit (ListingsTableShown all_listings 20) self)
  end.

(** The branch taken with monitor targets (lines 245-253). *)
Definition check_targets_round `{E : Env} (enable_expire_check : bool)
    (all_listings : list Listing) : M XIVPFMonitor unit :=
  show_monitor_targets ;;;
  (match enable_expire_check, all_listings with
   | true, _ :: _ => modify (check_expired_by_order all_listings)
   | _, _ => ret tt
   end) ;;;
  check_monitor_targets.

(** The [try] block of one iteration of the [while self.running] loop. *)
Definition continuous_search_try `{E : Env} (fuel : nat)
    (filter_conditions : list (FilterCondition * string)) (enable_expire_check : bool)
  : M XIVPFMonitor unit :=
  all_listings <- search_all fuel filter_conditions [] ;;
  all_listings <- lift_result (sort_listings all_listings) ;;
  self <- get ;;
  (match monitor_targets self with
   | _ :: _ => check_targets_round enable_expire_check all_listings
   | [] => modify (display_new_listings all_listings)
   end) ;;;
  self <- get ;;
  modify (emit (StatusShown (CheckDone (length all_listings)
                               (length (monitor_targets self))))) ;;;
  modify sleep_interval.

(** One iteration of the loop; the value is [false] when the handler
    leaves the loop by [break]. *)
Definition continuous_search_iteration `{E : Env} (fuel : nat)
    (filter_conditions : list (FilterCondition * string)) (enable_expire_check : bool)
  : M XIVPFMonitor bool :=
  try_except
    (continuous_search_try fuel filter_conditions enable_expire_check ;;; ret true)
    (fun e =>
       self <- get ;;
       if running self then
         modify (emit (ErrorLogged InContinuousSearch e)) ;;;
         modify (emit (StatusShown (ErrorStatus e))) ;;;
         modify sleep_interval ;;;
         ret true
       else ret false).

Definition clear_notified_listings `{E : Env} (self : XIVPFMonitor) : XIVPFMonitor :=
  emit (StatusShown NotifiedCleared) (set_notified_listings ∅ self).

Definition clear_displayed_listings `{E : Env} (self : XIVPFMonitor) : XIVPFMonitor :=
  emit (StatusShown DisplayedCleared) (set_last_displayed_ids ∅ self).

Definition stop_monitoring `{E : Env} (self : XIVPFMonitor) : XIVPFMonitor :=
  emit (StatusShown Stopping) (set_running false self).

(** The [while self.running] loop of [continuous_search] on its own, with
    no other task in between; [rounds] bounds the iterations. *)
Fixpoint continuous_search_loop `{E : Env} (rounds fuel : nat)
    (filter_conditions : list (FilterCondition * string)) (enable_expire_check : bool)
  : M XIVPFMonitor unit :=
  match rounds with
  | O => out_of_fuel
  | S rounds =>
      self <- get ;;
      if running self then
        go <- continuous_search_iteration fuel filter_conditions enable_expire_check ;;
        if go then continuous_search_loop rounds fuel filter_conditions enable_expire_check
        else ret tt
      else ret tt
  end.

Definition continuous_search `{E : Env} (rounds fuel : nat)
    (filter_conditions : list (FilterCondition * string)) (enable_expire_check : bool)
  : M XIVPFMonitor unit :=
  modify (emit (StatusShown MonitoringStarted)) ;;;
  modify (emit (StatusShown PressQToStop)) ;;;
  modify (set_running true) ;;;
  continuous_search_loop rounds fuel filter_conditions enable_expire_check ;;;
  modify (emit (StatusShown LoopEnded)).

(** The [while self.running] loop repeats [continuous_search_iteration];
    the operator's commands arrive from another task and take effect
    between iterations.  [monitor_step] is what can happen to a monitor
    between two observations while the notified record is not cleared: an
    iteration of the poll loop, a search from the menu, or one of the other
    methods; the service may change state in between. *)
Inductive monitor_step `{E : Env} : XIVPFMonitor -> XIVPFMonitor -> Prop :=
  | step_iteration fuel filter_conditions enable go self self' :
      continuous_search_iteration fuel filter_conditions enable self = Some (Ok go, self') ->
      monitor_step self self'
  | step_search fuel condition name notify found self self' :
      search_listings fuel condition name notify self = Some (Ok found, self') ->
      monitor_step self self'
  | step_add listing_id self self' :
      add_monitor_target listing_id self = Some (Ok tt, self') ->
      monitor_step self self'
  | step_remove listing_id self :
      monitor_step self (remove_monitor_target listing_id self)
  | step_clear_displayed self :
      monitor_step self (clear_displayed_listings self)
  | step_stop self :
      monitor_step self (stop_monitoring self)
  | step_world a self :
      monitor_step self (set_api_client a self).

Inductive monitor_steps `{E : Env} : XIVPFMonitor -> XIVPFMonitor -> Prop :=
  | steps_refl self : monitor_steps self self
  | steps_cons self self' self'' :
      monitor_step self self' -> monitor_steps self' self'' -> monitor_steps self self''.

(* ===================================================================== *)
(** * A fixed service, to run the engine on examples *)
(* ===================================================================== *)

(** The [str] functions on ASCII text; other bytes are left alone and are
    not white space. *)
Definition ascii_lower (c : ascii) : ascii :=
  let n := nat_of_ascii c in
  if (65 <=? n)%nat && (n <=? 90)%nat then ascii_of_nat (n + 32) else c.

Definition ascii_upper (c : ascii) : ascii :=
  let n := nat_of_ascii c in
  if (97 <=? n)%nat && (n <=? 122)%nat then ascii_of_nat (n - 32) else c.

Definition ascii_is_space (c : ascii) : bool :=
  let n := nat_of_ascii c in
  (n =? 32)%nat || ((9 <=? n)%nat && (n <=? 13)%nat) || ((28 <=? n)%nat && (n <=? 31)%nat).

Fixpoint string_map (f : ascii -> ascii) (s : string) : string :=
  match s with
  | EmptyString => EmptyString
  | String c s' => String (f c) (string_map f s')
  end.

Fixpoint drop_spaces (cs : list ascii) : list ascii :=
  match cs with
  | c :: cs' => if ascii_is_space c then drop_spaces cs' else cs
  | [] => []
  end.

Definition ascii_strip (s : string) : string :=
  string_of_list_ascii
    (rev (drop_spaces (rev (drop_spaces (list_ascii_of_string s))))).

(** [word] is the word being read, reversed. *)
Fixpoint split_words (cs : list ascii) (word : list ascii) : list string :=
  match cs with
  | [] =>
      match word with
      | [] => []
      | _ :: _ => [string_of_list_ascii (rev word)]
      end
  | c :: cs' =>
      if ascii_is_space c then
        match word with
        | [] => split_words cs' []
        | _ :: _ => string_of_list_ascii (rev word) :: split_words cs' []
        end
      else split_words cs' (c :: word)
  end.

Definition ascii_split (s : string) : list string :=
  split_words (list_ascii_of_string s) [].

Fixpoint ascii_contains (needle hay : string) : bool :=
  if String.prefix needle hay then true
  else
    match hay with
    | EmptyString => false
    | String _ hay' => ascii_contains needle hay'
    end.

(** A service that answers every call from the same tables: page [p] of
    the listings is the [p]-th entry of [service_pages], every page reports
    [service_total_pages], a detail request for an id of [service_failing]
    fails in the transport, for another id it finds the listing in
    [service_details] or answers 404.  The state of the world is the clock. *)
Record Service : Type := mkService {
  service_pages : list (list Listing);
  service_total_pages : Z;
  service_details : list Listing;
  service_failing : list Z
}.

Definition service_page (sv : Service) (p : Params) : ListingsResponse :=
  let listings := nth (Z.to_nat (param_page p - 1)) (service_pages sv) [] in
  mkListingsResponse listings
    (mkPagination (Z.of_nat (length (concat (service_pages sv))))
       (param_page p) (param_per_page p) (service_total_pages sv)).

Definition service_detail (sv : Service) (listing_id : Z) : detail_reply :=
  if bool_decide (listing_id ∈ service_failing sv) then ReplyError ClientError
  else
    match find (fun l => id l =? listing_id) (service_details sv) with
    | Some l => ReplyListing l
    | None => Reply404
    end.

Definition service_env (sv : Service) : Env := {|
  World := Z;
  http_get_listings p w := (Ok (service_page sv p), w);
  http_get_listing i w := (service_detail sv i, w);
  clock w := w;
  sleep seconds w := w + seconds * 1000000;
  str_strip := ascii_strip;
  str_upper := string_map ascii_upper;
  str_lower := string_map ascii_lower;
  str_split := ascii_split;
  str_contains := ascii_contains;
  JOB_CODE_TO_ID := fallback_mapping
|}.

(** A listing that has only the fields the engine reads. *)
Definition listing_of (id time_left updated_at : Z) : Listing :=
  mkListing id "" "" "" "" "" "" 0 1 7 time_left updated_at false ""
    None None None None None None.

Definition no_filter : FilterCondition :=
  mkFilterCondition None None None None None None None None None None None.

(** A monitor as [__init__] leaves it (inside [async with], at clock
    [clock0]), then given a registry, a snapshot and a last-shown set. *)
Definition monitor_of (sv : Service) (clock0 : Z) (targets : dict MonitorTarget)
    (snapshot : list Listing) (shown : gset Z) : @XIVPFMonitor (service_env sv) :=
  @mkMonitor (service_env sv) (@mkApi (service_env sv) true clock0 [])
    [] 30 300 ∅ targets snapshot shown false.

(* ===================================================================== *)
(** * Definitions used to state the properties *)
(* ===================================================================== *)

(** The exchanges of fetching pages [first], [first + 1], ... of a
    condition at page size 100, with the replies they got. *)
Fixpoint page_calls (filter_condition : option FilterCondition) (first : Z)
    (replies : list ListingsResponse) : list exchange :=
  match replies with
  | [] => []
  | r :: rest =>
      ListingsCall (build_params first 100 filter_condition) (Ok r)
      :: page_calls filter_condition (first + 1) rest
  end.

(** The page at which [get_all_listings] stops when every reply reports
    [T] pages: a cap of 0 is no cap, and page 1 is always fetched. *)
Definition last_page (max_pages : option Z) (T : Z) : Z :=
  Z.max 1 (match max_pages with
           | Some m => if m =? 0 then T else Z.min m T
           | None => T
           end).

(** The number of fetches the specification gives for [get_all_listings]:
    [total_pages] without a cap, [min(maxPages, total_pages)] with one. *)
Definition stated_fetches (max_pages : option Z) (T : Z) : Z :=
  match max_pages with
  | Some m => Z.min m T
  | None => T
  end.

(** Every reply of the service to a listings request is a page that
    reports [T] as its [total_pages]. *)
Definition reports_total_pages `{E : Env} (T : Z) : Prop :=
  forall p w, exists resp,
    (http_get_listings p w).1 = Ok resp /\ total_pages (pagination resp) = T.


(** Fixtures: a service with three pages, and one that reports no page. *)
Definition three_pages : Service :=
  mkService [[listing_of 1 10 0; listing_of 2 20 0]; [listing_of 3 30 0]; [listing_of 4 40 0]]
    3 [] [].

Definition no_pages : Service := mkService [] 0 [] [].

Definition client_of (sv : Service) : @XIVPFApiClient (service_env sv) :=
  @mkApi (service_env sv) true 0 [].

(** ** The detail stage as the specification words it *)

(** The ids a slot's job text decodes to. *)
Definition job_ids_of_slot `{E : Env} (slot : SlotInfo) : list Z :=
  get_job_ids_from_codes (get_job_codes_from_string (job slot)).

(** No filled slot decodes to an excluded id. *)
Definition excluded_job_ok `{E : Env} (fc : FilterCondition) (detailed : Listing) : bool :=
  negb (existsb
          (fun slot =>
             filled slot &&
             existsb (fun excluded => bool_decide (excluded ∈ job_ids_of_slot slot))
               (default [] (exclude_jobs fc)))
          (default [] (slots detailed))).

Definition min_slots_ok (fc : FilterCondition) (detailed : Listing) : bool :=
  match min_slots_available fc with
  | Some m => m <=? slots_available detailed
  | None => true
  end.

Definition max_slots_ok (fc : FilterCondition) (detailed : Listing) : bool :=
  match max_slots_filled fc with
  | Some m => slots_filled detailed <=? m
  | None => true
  end.

Definition beginners_ok (fc : FilterCondition) (detailed : Listing) : bool :=
  match fc_beginners_welcome fc with
  | Some b => bool_decide (beginners_welcome detailed = Some b)
  | None => true
  end.

(** Some keyword occurs in the lower-cased description; a keyword text
    that is empty or holds no word asks for nothing. *)
Definition keywords_ok `{E : Env} (fc : FilterCondition) (detailed : Listing) : bool :=
  match content_keywords fc with
  | Some kws =>
      if nonempty kws then
        match keywords_of kws with
        | [] => true
        | (_ :: _) as keywords =>
            existsb (fun keyword => str_contains keyword (str_lower (description detailed)))
              keywords
        end
      else true
  | None => true
  end.

(** The five predicates, AND-combined in the order of the specification. *)
Definition detail_predicates `{E : Env} (fc : FilterCondition) (detailed : Listing) : bool :=
  excluded_job_ok fc detailed && min_slots_ok fc detailed && max_slots_ok fc detailed
  && beginners_ok fc detailed && keywords_ok fc detailed.

(** "Some detail-level field is set": the field has been given a value. *)
Definition any_detail_field_set (fc : FilterCondition) : bool :=
  is_not_none (exclude_jobs fc) || is_not_none (min_slots_available fc)
  || is_not_none (max_slots_filled fc) || is_not_none (fc_beginners_welcome fc)
  || is_not_none (content_keywords fc).

(** What a stage does once it has decided to look at the detail record:
    fetch it, answer false if the listing is gone, else evaluate the
    predicates. *)
Definition fetch_and_evaluate `{E : Env} (listing : Listing) (fc : FilterCondition)
  : M XIVPFApiClient bool :=
  fun api =>
    match get_listing_detail (id listing) api with
    | Some (Ok detailed, api') => Some (Ok (detail_predicates fc detailed), api')
    | Some (Raise e, api') =>
        if decide (e = ValueError) then Some (Ok false, api') else Some (Raise e, api')
    | None => None
    end.

(** [detailStage] read to the letter: true without a fetch when no
    detail-level field is set, the fetch and the predicates otherwise. *)
Definition detailStage `{E : Env} (listing : Listing) (fc : FilterCondition)
  : M XIVPFApiClient bool :=
  if any_detail_field_set fc then fetch_and_evaluate listing fc else ret true.

(** Fixtures: a condition whose only detail-level field is
    [max_slots_filled = 0], one with both numeric fields at 0, and a
    service that knows listing 7 with three slots filled. *)
Definition max_filled_zero : FilterCondition :=
  mkFilterCondition None None None None None None None None (Some 0) None None.

Definition both_zero : FilterCondition :=
  mkFilterCondition None None None None None None None (Some 0) (Some 0) None None.

Definition listing7 : Listing :=
  mkListing 7 "" "" "" "" "" "" 0 3 5 100 0 false "" None None None None None None.

Definition knows7 : Service := mkService [[listing7]] 1 [listing7] [].

(** ** Stating the order of the merged list *)

(** A comparison that is a total order. *)
Class Comparator {A} (c : A -> A -> comparison) : Prop := {
  cmp_eq : forall x y, c x y = Eq -> x = y;
  cmp_refl : forall x, c x x = Eq;
  cmp_antisym : forall x y, c x y = CompOpp (c y x);
  cmp_trans : forall x y z, c x y = Lt -> c y z = Lt -> c x z = Lt
}.

(** Lexicographic comparison of pairs. *)
Definition lex_cmp {A B} (ca : A -> A -> comparison) (cb : B -> B -> comparison)
    (x y : A * B) : comparison :=
  match ca x.1 y.1 with
  | Eq => cb x.2 y.2
  | c => c
  end.

(** Duty types compared as strings, with [None] put below every string so
    that the comparison is total. *)
Definition duty_cmp (d1 d2 : option string) : comparison :=
  match d1, d2 with
  | None, None => Eq
  | None, Some _ => Lt
  | Some _, None => Gt
  | Some s1, Some s2 => String.compare s1 s2
  end.

(** The total comparison of keys that [key_lt] computes where it does not
    raise. *)
Definition key_cmp : sort_key -> sort_key -> comparison :=
  lex_cmp (lex_cmp Z.compare duty_cmp) Z.compare.

Definition is_lt (c : comparison) : bool :=
  match c with
  | Lt => true
  | _ => false
  end.

Definition listing_ltb (a b : Listing) : bool := is_lt (key_cmp (key_of a) (key_of b)).

(** Insertion sort over a total boolean [ltb], of the same shape as
    [insert_sorted] and [sort_ascending]. *)
Fixpoint insert_by {A} (ltb : A -> A -> bool) (x : A) (sorted : list A) : list A :=
  match sorted with
  | [] => [x]
  | y :: rest => if ltb y x then y :: insert_by ltb x rest else x :: y :: rest
  end.

Fixpoint sort_by {A} (ltb : A -> A -> bool) (l : list A) : list A :=
  match l with
  | [] => []
  | x :: rest => insert_by ltb x (sort_by ltb rest)
  end.

(** [a] is not above [b]. *)
Definition not_above {A} (ltb : A -> A -> bool) (a b : A) : Prop := ltb b a = false.

(** [<] on the keys of [a] and [b] does not raise. *)
Definition pair_comparable (a b : Listing) : bool :=
  match key_lt (key_of a) (key_of b) with
  | Ok _ => true
  | Raise _ => false
  end.

(** No two listings of [l] have keys on which [<] raises: none has a
    [duty_type] where another of the same minute has [None]. *)
Definition keys_comparable (l : list Listing) : bool :=
  forallb (fun a => forallb (pair_comparable a) l) l.

(** [d1] is a string below the string [d2]. *)
Definition duty_below (d1 d2 : option string) : Prop :=
  match d1, d2 with
  | Some s1, Some s2 => String.ltb s1 s2 = true
  | _, _ => False
  end.

(** The order [continuous_search] puts the merged list in: [a] may stand
    before [b] when [a]'s minute is the later one; or the minutes are equal
    and [a]'s duty type is the greater one; or those are equal too and
    [a]'s remaining time is not the longer one. *)
Definition code_order (a b : Listing) : Prop :=
  minute_of (updated_at b) < minute_of (updated_at a)
  \/ (minute_of (updated_at a) = minute_of (updated_at b)
      /\ (duty_below (duty_type b) (duty_type a)
          \/ (duty_type a = duty_type b /\ time_left a <= time_left b))).

(** The order the specification states: latest minute first, then duty
    type ascending, then remaining time descending. *)
Definition stated_order (a b : Listing) : Prop :=
  minute_of (updated_at b) < minute_of (updated_at a)
  \/ (minute_of (updated_at a) = minute_of (updated_at b)
      /\ (duty_below (duty_type a) (duty_type b)
          \/ (duty_type a = duty_type b /\ time_left b <= time_left a))).

(** Fixtures: two listings of the same minute without duty type, with 20
    and 10 left; four listings of two minutes. *)
Definition left20 : Listing := listing_of 1 20 0.
Definition left10 : Listing := listing_of 2 10 0.

Definition four_listings : list Listing :=
  [listing_of 1 20 0; listing_of 2 10 0; listing_of 3 10 60000000; listing_of 4 10 0].

(** ** Stating the expiration check *)

(** The confirmed-current prefix of a sequence taken by itself: its
    entries up to the last one of its longest leading run of
    non-decreasing [time_left]. *)
Definition own_prefix (listings : list Listing) : list Listing :=
  slice_to (last_new_index listings + 1) listings.

(** What [remove_monitor_target] tells the notifier. *)
Definition removal_events `{E : Env} (k : Z) (self : XIVPFMonitor) : list event :=
  if dict_contains k (monitor_targets self) then [StatusShown (StoppedMonitoring k)] else [].

(** The notifications of the loop of [check_expired_by_order]. *)
Fixpoint expire_events `{E : Env} (previous : list Listing) (expired : gset Z)
    (targets : dict MonitorTarget) : list event :=
  match previous with
  | [] => []
  | listing :: rest =>
      if bool_decide (id listing ∈ expired) then
        NotifyExpired listing ReasonGoneFromList
        :: (if dict_contains (id listing) targets
            then [StatusShown (StoppedMonitoring (id listing))] else [])
           ++ expire_events rest expired (dict_del (id listing) targets)
      else expire_events rest expired targets
  end.

(** Fixtures: a snapshot whose [time_left] never drops, a current sequence
    that drops at once, a registry that tracks listing 3, a target. *)
Definition snapshot3 : list Listing :=
  [listing_of 1 10 0; listing_of 2 20 0; listing_of 3 30 0].

Definition current_drop : list Listing := [listing_of 4 50 0; listing_of 5 40 0].

Definition current_rise : list Listing := [listing_of 4 40 0; listing_of 5 50 0].

Definition target3 : MonitorTarget := mkMonitorTarget 3 0 0.

Definition target1 : MonitorTarget := mkMonitorTarget 1 0 0.

Definition idle : Service := mkService [] 0 [] [].

(** A monitor that tracks listing 3, and one that tracks listing 1, both
    holding [snapshot3]. *)
Definition tracks3 : @XIVPFMonitor (service_env idle) :=
  monitor_of idle 0 [(3, target3)] snapshot3 ∅.

Definition tracks1 : @XIVPFMonitor (service_env idle) :=
  monitor_of idle 0 [(1, target1)] snapshot3 ∅.

Definition lone_listing : list Listing := [listing_of 9 5 0].

(** ** Stating what a computation leaves alone *)

(** Every run of [m] takes a state to one related to it by [R], whatever
    the outcome. *)
Definition keeps {S A} (R : relation S) (m : M S A) : Prop :=
  forall s r s', m s = Some (r, s') -> R s s'.

(** A field of the monitor has the same value in both states. *)
Definition same `{E : Env} {B} (field : XIVPFMonitor -> B) : relation XIVPFMonitor :=
  fun s s' => field s' = field s.

Definition is_found (e : event) : bool :=
  match e with
  | NotifyFound _ _ _ => true
  | _ => false
  end.

(** The relation between the states at the ends of a run in which the
    notified record is not cleared: the record has only grown, and every
    listing of a "found" notification issued in between was not in the
    record at the start and is in it at the end. *)
Definition dedup `{E : Env} : relation XIVPFMonitor :=
  fun s s' =>
    notified_listings s ⊆ notified_listings s' /\
    exists new,
      notifier s' = notifier s ++ new /\
      forall ls filter_name sys l,
        NotifyFound ls filter_name sys ∈ new -> l ∈ ls ->
        (id l ∉ notified_listings s) /\ id l ∈ notified_listings s'.

(** Fixtures for the staleness check: listing 7 was last updated at time
    0, is tracked since then, and the clock shows 301 seconds; the
    threshold is the default 300 seconds. *)
Definition target7 : MonitorTarget := mkMonitorTarget 7 0 0.

Definition stale7 : @XIVPFMonitor (service_env knows7) :=
  monitor_of knows7 301000000 [(7, target7)] [] ∅.

(** Fixtures for failure isolation: the detail request for listing 8
    fails in the transport, listing 7 is known; both are tracked, 8 first.
    A condition with a detail-level filter makes the search fetch details. *)
Definition listing8 : Listing :=
  mkListing 8 "" "" "" "" "" "" 0 2 6 100 0 false "" None None None None None None.

Definition breaks8 : Service := mkService [[listing8]; [listing7]] 2 [listing7] [8].

Definition target8 : MonitorTarget := mkMonitorTarget 8 0 0.

Definition tracks8and7 : @XIVPFMonitor (service_env breaks8) :=
  monitor_of breaks8 1000000 [(8, target8); (7, target7)] [] ∅.

Definition wants_free_slot : FilterCondition :=
  mkFilterCondition None None None None None None None (Some 1) None None None.

(** The same with a cap of 0 on the filled slots beside it. *)
Definition free_slot_none_filled : FilterCondition :=
  mkFilterCondition None None None None None None None (Some 1) (Some 0) None None.

(** Fixtures for the display: a service with one page holding listing 1,
    and a monitor without targets that has last shown listings 1 and 2. *)
Definition one_listing : Service := mkService [[listing_of 1 10 0]] 1 [] [].

Definition shown12 : @XIVPFMonitor (service_env one_listing) :=
  monitor_of one_listing 0 [] [] {[1; 2]}.

(** Fixtures for the notified record: a monitor as [__init__] leaves it,
    facing the service with three pages, and the state one poll iteration
    takes it to. *)
Definition fresh : @XIVPFMonitor (service_env three_pages) :=
  monitor_of three_pages 0 [] [] ∅.

Definition after_one_iteration : @XIVPFMonitor (service_env three_pages) :=
  match continuous_search_iteration 5 [(no_filter, "all")] true fresh with
  | Some (_, s) => s
  | None => fresh
  end.

Definition is_search_error (e : event) : bool :=
  match e with
  | ErrorLogged InSearchListings _ => true
  | _ => false
  end.

Definition is_table (e : event) : bool :=
  match e with
  | ListingsTableShown _ _ => true
  | _ => false
  end.

(* ===================================================================== *)
(** * Further definitions: the client *)
(* ===================================================================== *)

(** The listing a detail request asks for. *)
Definition detail_call_id (x : exchange) : option Z :=
  match x with
  | DetailCall listing_id _ => Some listing_id
  | ListingsCall _ _ => None
  end.

(** The query-level fields of two conditions agree. *)
Definition same_query_fields (fc fc' : FilterCondition) : Prop :=
  fc_category fc = fc_category fc' /\ fc_world fc = fc_world fc' /\
  fc_datacenter fc = fc_datacenter fc' /\ fc_search fc = fc_search fc' /\
  fc_jobs fc = fc_jobs fc' /\ fc_duty fc = fc_duty fc'.

(** Every page the service returns reports more pages than the one asked
    for. *)
Definition always_more_pages `{E : Env} : Prop :=
  forall p w, exists resp,
    (http_get_listings p w).1 = Ok resp /\ param_page p < total_pages (pagination resp).

(** A service whose every page is empty and reports one page more than
    the page asked for. *)
Definition endless_env : Env := {|
  World := unit;
  http_get_listings p w :=
    (Ok (mkListingsResponse []
           (mkPagination 0 (param_page p) (param_per_page p) (param_page p + 1))), w);
  http_get_listing i w := (Reply404, w);
  clock w := 0;
  sleep seconds w := w;
  str_strip := ascii_strip;
  str_upper := string_map ascii_upper;
  str_lower := string_map ascii_lower;
  str_split := ascii_split;
  str_contains := ascii_contains;
  JOB_CODE_TO_ID := ∅
|}.

(** A client before [__aenter__]. *)
Definition closed_client (sv : Service) : @XIVPFApiClient (service_env sv) :=
  @mkApi (service_env sv) false 0 [].

(* ===================================================================== *)
(** * Further definitions: the registry *)
(* ===================================================================== *)

(** The keys of the registry after are keys of the registry before, in
    the same order: nothing was added. *)
Definition shrinks `{E : Env} : relation XIVPFMonitor :=
  fun s s' => dict_keys (monitor_targets s') `sublist_of` dict_keys (monitor_targets s).

(** Distinct keys stay distinct. *)
Definition keeps_keys_distinct `{E : Env} : relation XIVPFMonitor :=
  fun s s' => NoDup (dict_keys (monitor_targets s)) -> NoDup (dict_keys (monitor_targets s')).

(* ===================================================================== *)
(** * Further definitions: notifier.py, time_utils.py, config.py *)
(* ===================================================================== *)

(** Whether a call on the notifier asks the desktop for a notification,
    [enabled] being the notifier's own [enable_system_notification]:
    [notify_found] does for a non-empty list when both the notifier and
    the caller allow it, [notify_expired] does when the notifier allows
    it, [notify_updated] and the console-only calls never do. *)
Definition system_notification (enabled : bool) (e : event) : bool :=
  match e with
  | NotifyFound listings _ allow =>
      match listings with
      | [] => false
      | _ :: _ => enabled && allow
      end
  | NotifyExpired _ _ => enabled
  | _ => false
  end.

(** config.py: a named filter with its switch. *)
Record FilterConfig : Type := mkFilterConfig {
  cfg_name : string;
  cfg_condition : FilterCondition;
  cfg_enabled : bool
}.

(** [Config.add_filter] *)
Definition add_filter (name : string) (condition : FilterCondition)
    (filters : list FilterConfig) : list FilterConfig :=
  filters ++ [mkFilterConfig name condition true].

(** [Config.remove_filter] *)
Definition remove_filter (name : string) (filters : list FilterConfig) : list FilterConfig :=
  filter (fun f => cfg_name f <> name) filters.

(** [Config.get_enabled_filters] *)
Definition get_enabled_filters (filters : list FilterConfig) : list FilterConfig :=
  filter (fun f => cfg_enabled f = true) filters.

(** [Config.toggle_filter]: the loop stops at the first filter of the
    name. *)
Fixpoint toggle_filter (name : string) (filters : list FilterConfig) : list FilterConfig :=
  match filters with
  | [] => []
  | f :: rest =>
      if String.eqb (cfg_name f) name
      then mkFilterConfig (cfg_name f) (cfg_condition f) (negb (cfg_enabled f)) :: rest
      else f :: toggle_filter name rest
  end.

(** [list.remove(x)] on a list that holds [x]: the first occurrence goes. *)
Fixpoint list_remove_first (x : Z) (l : list Z) : list Z :=
  match l with
  | [] => []
  | y :: rest => if y =? x then rest else y :: list_remove_first x rest
  end.

(** [Config.add_monitor_target] *)
Definition config_add_monitor_target (listing_id : Z) (targets : list Z) : list Z :=
  if bool_decide (listing_id ∈ targets) then targets else targets ++ [listing_id].

(** [Config.remove_monitor_target] *)
Definition config_remove_monitor_target (listing_id : Z) (targets : list Z) : list Z :=
  if bool_decide (listing_id ∈ targets) then list_remove_first listing_id targets
  else targets.

(** The loop of [initialize] in main.py that restores the configured
    targets. *)
Definition restore_targets `{E : Env} (configured : list Z) : M XIVPFMonitor unit :=
  for_each configured add_monitor_target.

(** Fixtures: a listing with a duty type, of the minute of [left20]; a
    detail record whose second slot is filled by a warrior; a condition
    that excludes paladins and warriors. *)
Definition with_duty_type : Listing :=
  mkListing 5 "" "" "" "" "" "" 0 1 7 20 0 false "" None (Some "Raid") None None None None.

Definition warrior_party : Listing :=
  mkListing 6 "" "" "" "" "" "" 0 2 6 100 0 false "" None None None None None
    (Some [mkSlotInfo false None "PLD"; mkSlotInfo true (Some "tank") "war"]).

Definition no_tanks : FilterCondition :=
  mkFilterCondition None None None None None None (Some [19; 21]) None None None None.

(** ** Stating what a search reports *)

(** The listings of [found] whose id is not in [notified], in the order
    of [found]. *)
Definition not_yet_notified (notified : gset Z) (found : list Listing) : list Listing :=
  filter (fun l => id l ∉ notified) found.

(** ** Stating what reaches the desktop *)

(** [A] holds up to some state and [B] from there on. *)
Definition then_rel {S} (A B : relation S) : relation S :=
  fun s s' => exists s1, A s s1 /\ B s1 s'.

(** The registry is the same at both ends, and whatever was sent to the
    notifier in between and may reach the desktop is a found-notification
    sent while the registry was empty. *)
Definition found_by_registry `{E : Env} : relation XIVPFMonitor :=
  fun s s' =>
    monitor_targets s' = monitor_targets s /\
    exists new,
      notifier s' = notifier s ++ new /\
      forall e, e ∈ new -> system_notification true e = true ->
                is_found e = true /\ monitor_targets s = [].

(** No found-notification was sent in between. *)
Definition no_found `{E : Env} : relation XIVPFMonitor :=
  fun s s' =>
    exists new, notifier s' = notifier s ++ new /\ forall e, e ∈ new -> is_found e = false.

(** A service that knows the detail of [warrior_party]. *)
Definition knows_warriors : Service := mkService [] 0 [warrior_party] [].

(** A service whose only page holds a listing without a duty type and
    one with a duty type, both updated in the same minute. *)
Definition mixed_duty_types : Service := mkService [[left20; with_duty_type]] 1 [] [].

(** ** Reading off the outcome of a run *)

(** The state a run ends in ([d] when it has run out of fuel), and the
    value or exception it ends with. *)
Definition state_of {S A} (d : S) (o : option (result A * S)) : S :=
  match o with
  | Some (_, s) => s
  | None => d
  end.

Definition value_of {S A} (o : option (result A * S)) : option (result A) :=
  match o with
  | Some (r, _) => Some r
  | None => None
  end.

(** The monitor [fresh] after a search from the menu; a running monitor
    that tracks listing 3 and faces the service with the mixed pair, the
    state its searches leave it in; the state a poll iteration takes
    [tracks8and7] to. *)
Definition after_search : @XIVPFMonitor (service_env three_pages) :=
  state_of fresh (search_listings 5 no_filter "all" true fresh).

Definition going_mixed : @XIVPFMonitor (service_env mixed_duty_types) :=
  set_running true (monitor_of mixed_duty_types 0 [(3, target3)] snapshot3 ∅).

Definition searched_mixed : @XIVPFMonitor (service_env mixed_duty_types) :=
  state_of going_mixed (search_all 5 [(no_filter, "all")] [] going_mixed).

Definition after_tracking_iteration : @XIVPFMonitor (service_env breaks8) :=
  state_of tracks8and7 (continuous_search_iteration 5 [(no_filter, "all")] true tracks8and7).

Definition tracks3_one_listing : @XIVPFMonitor (service_env one_listing) :=
  monitor_of one_listing 0 [(3, target3)] snapshot3 ∅.

(** Settles a closed decidable proposition by evaluation. *)
Ltac decide_prop :=
  match goal with
  | |- ?P => refine (@bool_decide_eq_true_1 P _ _); vm_compute; reflexivity
  end.

(* ===================================================================== *)
(** * Floats: where the float quotient agrees with the exact one *)
(* ===================================================================== *)

Lemma round_half_even_cases n d :
  0 < d ->
  round_half_even n d = n / d \/
  (round_half_even n d = n / d + 1 /\ d <= 2 * (n mod d)).
Proof.
  intros Hd. unfold round_half_even.
  destruct (Z.ltb_spec (2 * (n mod d)) d); [left; reflexivity|].
  destruct (Z.ltb_spec d (2 * (n mod d))); [right; split; [reflexivity|lia]|].
  destruct (Z.even (n / d)); [left; reflexivity|right; split; [reflexivity|lia]].
Qed.

Lemma round_half_even_near n d :
  0 < d ->
  2 * (round_half_even n d * d) <= 2 * n + d /\ 2 * n <= 2 * (round_half_even n d * d) + d.
Proof.
  intros Hd. pose proof (Z.div_mod n d ltac:(lia)) as Hdm.
  pose proof (Z.mod_pos_bound n d Hd) as Hr.
  unfold round_half_even.
  destruct (Z.ltb_spec (2 * (n mod d)) d); [nia|].
  destruct (Z.ltb_spec d (2 * (n mod d))); [nia|].
  destruct (Z.even (n / d)); nia.
Qed.

Lemma round_half_even_lower n d N : 0 < d -> N * d <= n -> N <= round_half_even n d.
Proof.
  intros Hd Hn. assert (N <= n / d) by (apply Z.div_le_lower_bound; lia).
  destruct (round_half_even_cases n d Hd) as [->|[-> _]]; lia.
Qed.

Lemma round_half_even_upper n d N : 0 < d -> n <= N * d -> round_half_even n d <= N.
Proof.
  intros Hd Hn. pose proof (Z.div_mod n d ltac:(lia)) as Hdm.
  pose proof (Z.mod_pos_bound n d Hd) as Hr.
  destruct (round_half_even_cases n d Hd) as [->|[-> Hhalf]]; nia.
Qed.

(** The exponent chosen for a positive quotient. *)
Lemma true_divide_exponent a d :
  0 < a -> 0 < d ->
  let scale := Z.log2_up d in
  let high := Z.log2 (a * 2 ^ scale / d) in
  0 <= scale /\ 0 <= high /\
  d * 2 ^ high <= a * 2 ^ scale /\ a * 2 ^ scale < d * 2 ^ (high + 1).
Proof.
  intros Ha Hd scale high.
  assert (Hs : 0 <= scale) by apply Z.log2_up_nonneg.
  assert (Hds : d <= 2 ^ scale) by (apply Z.log2_up_le_pow2; [lia|reflexivity]).
  assert (Hy : 0 < a * 2 ^ scale / d).
  { apply Z.div_str_pos. nia. }
  pose proof (Z.log2_spec _ Hy) as [Hlo Hhi]. fold high in Hlo, Hhi.
  assert (Hh : 0 <= high) by apply Z.log2_nonneg.
  pose proof (Z.mul_div_le (a * 2 ^ scale) d Hd) as Hle.
  pose proof (Z.mul_succ_div_gt (a * 2 ^ scale) d Hd) as Hgt.
  replace (Z.succ high) with (high + 1) in Hhi by lia.
  repeat split; try assumption; nia.
Qed.

Lemma true_divide_small a d :
  0 < a -> 0 < d -> a < 2 ^ 34 * d ->
  exists m k,
    true_divide a d = (m, - k) /\ 19 <= k /\ 0 <= m /\
    2 * (m * d) <= 2 * (a * 2 ^ k) + d /\
    2 * (a * 2 ^ k) <= 2 * (m * d) + d /\
    (forall N, N * d <= a -> N * 2 ^ k <= m) /\
    (forall N, a <= N * d -> m <= N * 2 ^ k).
Proof.
  intros Ha Hd Hsmall.
  destruct (true_divide_exponent a d Ha Hd) as (Hs & Hh & Hlo & Hhi).
  set (scale := Z.log2_up d) in *. set (high := Z.log2 (a * 2 ^ scale / d)) in *.
  assert (Hps : 0 < 2 ^ scale) by (apply Z.pow_pos_nonneg; lia).
  assert (Hph : 0 < 2 ^ high) by (apply Z.pow_pos_nonneg; lia).
  assert (Hlt : high < 34 + scale).
  { apply (Z.pow_lt_mono_r_iff 2); [lia|lia|]. rewrite Z.pow_add_r by lia. nia. }
  set (k := scale + 52 - high).
  assert (Hk : 19 <= k) by (unfold k; lia).
  assert (Hpk : 2 ^ 19 <= 2 ^ k) by (apply Z.pow_le_mono_r; lia).
  assert (Hsplit : 2 ^ (scale + 52) = 2 ^ k * 2 ^ high).
  { rewrite <- Z.pow_add_r by lia. f_equal. unfold k. lia. }
  set (m := round_half_even (a * 2 ^ (scale + 52)) (d * 2 ^ high)).
  assert (Hdh : 0 < d * 2 ^ high) by nia.
  exists m, k. split.
  { unfold true_divide. destruct (Z.eqb_spec a 0); [lia|].
    rewrite Z.abs_eq by lia. rewrite Z.sgn_pos by lia. fold scale high m.
    f_equal; [lia|unfold k; lia]. }
  split; [exact Hk|].
  pose proof (round_half_even_near (a * 2 ^ (scale + 52)) (d * 2 ^ high) Hdh) as [Hn1 Hn2].
  fold m in Hn1, Hn2. rewrite Hsplit in Hn1, Hn2.
  split.
  { apply (round_half_even_lower _ _ 0 Hdh). rewrite Hsplit. nia. }
  split.
  { apply (Z.mul_le_mono_pos_r _ _ (2 ^ high) Hph). nia. }
  split.
  { apply (Z.mul_le_mono_pos_r _ _ (2 ^ high) Hph). nia. }
  split.
  - intros N HN. apply (round_half_even_lower _ _ _ Hdh). rewrite Hsplit.
    assert (N * d * (2 ^ k * 2 ^ high) <= a * (2 ^ k * 2 ^ high))
      by (apply Z.mul_le_mono_nonneg_r; nia).
    nia.
  - intros N HN. apply (round_half_even_upper _ _ _ Hdh). rewrite Hsplit.
    assert (a * (2 ^ k * 2 ^ high) <= N * d * (2 ^ k * 2 ^ high))
      by (apply Z.mul_le_mono_nonneg_r; nia).
    nia.
Qed.

Lemma true_divide_large a d :
  0 < a -> 0 < d -> 2 ^ 34 * d <= a ->
  exists m e, true_divide a d = (m, e) /\ - 18 <= e /\ 2 ^ 52 <= m.
Proof.
  intros Ha Hd Hlarge.
  destruct (true_divide_exponent a d Ha Hd) as (Hs & Hh & Hlo & Hhi).
  set (scale := Z.log2_up d) in *. set (high := Z.log2 (a * 2 ^ scale / d)) in *.
  assert (Hps : 0 < 2 ^ scale) by (apply Z.pow_pos_nonneg; lia).
  assert (Hph : 0 < 2 ^ high) by (apply Z.pow_pos_nonneg; lia).
  assert (Hlt : 34 + scale < high + 1).
  { apply (Z.pow_lt_mono_r_iff 2); [lia|lia|]. rewrite Z.pow_add_r by lia. nia. }
  assert (Hdh : 0 < d * 2 ^ high) by nia.
  eexists _, _. split.
  { unfold true_divide. destruct (Z.eqb_spec a 0); [lia|].
    rewrite Z.abs_eq by lia. rewrite Z.sgn_pos by lia. fold scale high.
    rewrite Z.mul_1_l. reflexivity. }
  split; [lia|].
  apply (round_half_even_lower _ _ _ Hdh). rewrite Z.pow_add_r by lia. nia.
Qed.

Lemma true_divide_opp n d : true_divide (- n) d = (- fst (true_divide n d), snd (true_divide n d)).
Proof.
  unfold true_divide. destruct (Z.eqb_spec n 0) as [->|Hn]; [reflexivity|].
  destruct (Z.eqb_spec (- n) 0); [lia|].
  rewrite Z.abs_opp, Z.sgn_opp. cbn [fst snd]. f_equal. lia.
Qed.

Lemma int_of_float_opp m e : int_of_float (- m, e) = - int_of_float (m, e).
Proof.
  unfold int_of_float. destruct (Z.leb_spec 0 e); [lia|].
  apply Z.quot_opp_l. apply Z.pow_nonzero; lia.
Qed.

(** Within 2^34 times the divisor, truncating the float quotient gives the
    integer quotient. *)
Lemma int_of_true_divide n d :
  0 < d < 2 ^ 20 -> Z.abs n < 2 ^ 34 * d ->
  int_of_float (true_divide n d) = Z.quot n d.
Proof.
  intros Hd Hn.
  assert (Hpos : forall a, 0 < a -> a < 2 ^ 34 * d ->
                           int_of_float (true_divide a d) = Z.quot a d).
  { intros a Ha Hsmall.
    destruct (true_divide_small a d Ha ltac:(lia) Hsmall)
      as (m & k & -> & Hk & Hm & Hn1 & Hn2 & Hlow & _).
    assert (Hpk : 2 ^ 19 <= 2 ^ k) by (apply Z.pow_le_mono_r; lia).
    unfold int_of_float. destruct (Z.leb_spec 0 (- k)); [lia|].
    rewrite Z.opp_involutive. rewrite !Z.quot_div_nonneg by lia.
    pose proof (Z.div_mod a d ltac:(lia)) as Hdm.
    pose proof (Z.mod_pos_bound a d ltac:(lia)) as Hr.
    pose proof (Hlow (a / d) ltac:(lia)) as Hge.
    assert (Hlt : m < (a / d + 1) * 2 ^ k) by nia.
    symmetry. apply (Z.div_unique _ _ _ (m - a / d * 2 ^ k)); [left; nia|nia]. }
  destruct (Z.lt_trichotomy n 0) as [Hneg|[->|Hp]].
  - assert (Hn' : n = - (- n)) by lia. rewrite Hn' at 1. rewrite true_divide_opp.
    specialize (Hpos (- n) ltac:(lia) ltac:(lia)).
    destruct (true_divide (- n) d) as [m e]. cbn [fst snd].
    rewrite int_of_float_opp, Hpos. rewrite Z.quot_opp_l by lia. lia.
  - reflexivity.
  - apply Hpos; lia.
Qed.

(** For a threshold below 2^34, the float quotient exceeds the threshold
    exactly when the exact quotient does. *)
Lemma int_lt_true_divide T n d :
  0 < d < 2 ^ 20 -> 0 <= T < 2 ^ 34 ->
  int_lt_float T (true_divide n d) = (T * d <? n).
Proof.
  intros Hd HT.
  destruct (Z.lt_trichotomy n 0) as [Hneg|[->|Hp]].
  - assert (Hn' : n = - (- n)) by lia. rewrite Hn' at 1. rewrite true_divide_opp.
    assert (Hm : 0 <= fst (true_divide (- n) d)).
    { destruct (Z_lt_le_dec (- n) (2 ^ 34 * d)) as [Hs|Hl].
      - destruct (true_divide_small (- n) d ltac:(lia) ltac:(lia) Hs)
          as (m & k & -> & _ & Hm & _). exact Hm.
      - destruct (true_divide_large (- n) d ltac:(lia) ltac:(lia) Hl)
          as (m & e & -> & _ & Hm). cbn [fst]. lia. }
    destruct (true_divide (- n) d) as [m e]. cbn [fst snd] in *.
    unfold int_lt_float.
    destruct (Z.ltb_spec (T * d) n); [nia|].
    destruct (Z.leb_spec 0 e).
    + assert (0 <= 2 ^ e) by (apply Z.pow_nonneg; lia).
      destruct (Z.ltb_spec T (- m * 2 ^ e)); [nia|reflexivity].
    + assert (0 <= 2 ^ (- e)) by (apply Z.pow_nonneg; lia).
      destruct (Z.ltb_spec (T * 2 ^ (- e)) (- m)); [nia|reflexivity].
  - cbn. destruct (Z.ltb_spec T 0), (Z.ltb_spec (T * d) 0); try reflexivity; nia.
  - destruct (Z_lt_le_dec n (2 ^ 34 * d)) as [Hs|Hl].
    + destruct (true_divide_small n d Hp ltac:(lia) Hs)
        as (m & k & -> & Hk & Hm & Hn1 & Hn2 & Hlow & Hup).
      assert (Hpk : 2 ^ 19 <= 2 ^ k) by (apply Z.pow_le_mono_r; lia).
      unfold int_lt_float. destruct (Z.leb_spec 0 (- k)); [lia|].
      rewrite Z.opp_involutive.
      destruct (Z.ltb_spec (T * d) n) as [Hlt|Hge].
      * apply Z.ltb_lt. nia.
      * apply Z.ltb_ge. apply Hup. lia.
    + destruct (true_divide_large n d Hp ltac:(lia) Hl) as (m & e & -> & He & Hm).
      unfold int_lt_float.
      destruct (Z.ltb_spec (T * d) n) as [Hlt|Hge]; [|nia].
      destruct (Z.leb_spec 0 e).
      * assert (1 <= 2 ^ e) by (apply Z.pow_le_mono_r with (b := 0); lia).
        apply Z.ltb_lt. nia.
      * assert (2 ^ (- e) <= 2 ^ 18) by (apply Z.pow_le_mono_r; lia).
        assert (0 < 2 ^ (- e)) by (apply Z.pow_pos_nonneg; lia).
        apply Z.ltb_lt. nia.
Qed.

(** A float below an integer has its integer part below it too, when that
    part is positive. *)
Lemma float_lt_int_trunc x N :
  float_lt_int x N = true -> 0 < int_of_float x -> int_of_float x < N.
Proof.
  destruct x as [m e]. unfold float_lt_int, int_of_float.
  destruct (Z.leb_spec 0 e) as [He|He].
  - intros Hlt _. apply Z.ltb_lt in Hlt. exact Hlt.
  - intros Hlt Hi. apply Z.ltb_lt in Hlt.
    assert (Hk : 0 < 2 ^ (- e)) by (apply Z.pow_pos_nonneg; lia).
    assert (Hm : 0 <= m).
    { destruct (Z_lt_le_dec m 0) as [Hneg|]; [|assumption].
      pose proof (Z.quot_opp_l (- m) (2 ^ (- e)) ltac:(lia)) as Hq.
      rewrite Z.opp_involutive in Hq.
      pose proof (Z.quot_pos (- m) (2 ^ (- e)) ltac:(lia) Hk). lia. }
    rewrite Z.quot_div_nonneg by lia. apply Z.div_lt_upper_bound; lia.
Qed.

(* ===================================================================== *)
(** * Pagination *)
(* ===================================================================== *)

Lemma run_value {S A} (d : S) (o : option (result A * S)) (r : result A) :
  value_of o = Some r -> o = Some (r, state_of d o).
Proof. destruct o as [[r' s]|]; simpl; [intros [= ->]; reflexivity|discriminate]. Qed.

Lemma build_params_page page per_page fc :
  param_page (build_params page per_page fc) = page.
Proof. destruct fc; reflexivity. Qed.

Lemma build_params_per_page page per_page fc :
  param_per_page (build_params page per_page fc) = Z.min per_page 100.
Proof. destruct fc; reflexivity. Qed.

Lemma page_calls_lookup fc first replies (i : nat) x :
  page_calls fc first replies !! i = Some x ->
  exists r, replies !! i = Some r /\
            x = ListingsCall (build_params (first + Z.of_nat i) 100 fc) (Ok r).
Proof.
  revert first i. induction replies as [|r rest IH]; intros first i Hx; simpl in Hx.
  - destruct i; discriminate.
  - destruct i as [|i]; simpl in *.
    + inversion Hx; subst. exists r. split; [reflexivity|]. f_equal. f_equal. lia.
    + destruct (IH _ _ Hx) as (r' & Hr & ->). exists r'. split; [exact Hr|].
      f_equal. f_equal. lia.
Qed.

Lemma get_listings_ok `{E : Env} page per_page fc api resp :
  session api = true ->
  (http_get_listings (build_params page per_page fc) (world api)).1 = Ok resp ->
  exists w,
    get_listings page per_page fc api =
      Some (Ok resp, mkApi _ true w
                       (exchanges api ++ [ListingsCall (build_params page per_page fc) (Ok resp)])).
Proof.
  intros Hs Hr. unfold get_listings. rewrite Hs. simpl.
  destruct (http_get_listings _ _) as [r w]. simpl in Hr. subst r. eauto.
Qed.

(** The loop, started at [page], makes [k + 1] fetches when the stopping
    page lies [k] pages ahead. *)
Lemma get_all_listings_loop_pages `{E : Env} fc cap T :
  reports_total_pages T ->
  forall (k : nat) fuel page acc api,
    session api = true ->
    let stop := match cap with
                | Some m => if m =? 0 then T else Z.min m T
                | None => T
                end in
    Z.to_nat (stop - page) = k ->
    (k < fuel)%nat ->
    exists replies api',
      get_all_listings_loop fuel fc cap page acc api
        = Some (Ok (acc ++ concat (map data replies)), api') /\
      session api' = true /\
      exchanges api' = exchanges api ++ page_calls fc page replies /\
      length replies = S k.
Proof.
  intros Hsrv k. induction k as [|k IH]; intros fuel page acc api Hs stop Hk Hfuel.
  - destruct fuel as [|fuel]; [lia|]. simpl.
    destruct (Hsrv (build_params page 100 fc) (world api)) as (resp & Hr & HT).
    destruct (get_listings_ok page 100 fc api resp Hs Hr) as (w & Hget).
    unfold bind. rewrite Hget. rewrite HT.
    assert (Hstop : stop <= page) by lia.
    exists [resp]. eexists. simpl. rewrite app_nil_r.
    destruct (T <=? page) eqn:HTp.
    + unfold ret. repeat split; reflexivity.
    + apply Z.leb_gt in HTp.
      assert (Hhit : max_pages_hit cap page = true).
      { unfold max_pages_hit. subst stop. destruct cap as [m|]; [|lia].
        destruct (m =? 0) eqn:Hm0; [lia|]. simpl. apply Z.leb_le. lia. }
      rewrite Hhit. unfold ret. repeat split; reflexivity.
  - destruct fuel as [|fuel]; [lia|]. simpl.
    destruct (Hsrv (build_params page 100 fc) (world api)) as (resp & Hr & HT).
    destruct (get_listings_ok page 100 fc api resp Hs Hr) as (w & Hget).
    unfold bind. rewrite Hget. rewrite HT.
    assert (Hstop : page < stop) by lia.
    assert (HTp : (T <=? page) = false).
    { apply Z.leb_gt. subst stop. destruct cap as [m|]; [|lia].
      destruct (m =? 0); lia. }
    rewrite HTp.
    assert (Hhit : max_pages_hit cap page = false).
    { unfold max_pages_hit. subst stop. destruct cap as [m|]; [|reflexivity].
      destruct (m =? 0) eqn:Hm0; [reflexivity|]. simpl. apply Z.leb_gt. lia. }
    rewrite Hhit.
    edestruct (IH fuel (page + 1) (acc ++ data resp)
                 (mkApi _ true w
                    (exchanges api ++ [ListingsCall (build_params page 100 fc) (Ok resp)])))
      as (replies & api' & Hrun & Hs' & Hex & Hlen); [reflexivity| |lia|].
    { fold stop. lia. }
    exists (resp :: replies), api'. rewrite Hrun. simpl in *.
    rewrite <- app_assoc. repeat split; try assumption.
    + rewrite Hex. rewrite <- app_assoc. reflexivity.
    + lia.
Qed.

(** C7 (amended).  Against a source whose replies all report
    [total_pages = T], [get_all_listings] returns once it has the fuel for
    [last_page max_pages T] iterations; it has then made exactly that many
    requests: [T] of them without a cap (a cap of 0 counts as none),
    [min(max_pages, T)] with one, and one request when that number is below
    one.  The requests are for pages 1, 2, ... in this order, each with
    [per_page = 100], and the value returned is the concatenation of the
    replies' [data] in page order.  [get_listings] sends
    [min(per_page, 100)] whatever page size it is called with. *)
Theorem get_all_listings_fetches `{E : Env} fc max_pages T api fuel :
  session api = true ->
  reports_total_pages T ->
  (Z.to_nat (last_page max_pages T) <= fuel)%nat ->
  exists replies api',
    get_all_listings fuel fc max_pages api
      = Some (Ok (concat (map data replies)), api') /\
    exchanges api' = exchanges api ++ page_calls fc 1 replies /\
    Z.of_nat (length replies) = last_page max_pages T /\
    (forall (i : nat) x,
        page_calls fc 1 replies !! i = Some x ->
        exists p r, x = ListingsCall p (Ok r) /\ replies !! i = Some r /\
                    param_page p = 1 + Z.of_nat i /\ param_per_page p = 100) /\
    (forall page per_page,
        param_per_page (build_params page per_page fc) = Z.min per_page 100).
Proof.
  intros Hs Hsrv Hfuel. unfold last_page in *.
  set (stop := match max_pages with
               | Some m => if m =? 0 then T else Z.min m T
               | None => T
               end) in *.
  destruct (get_all_listings_loop_pages fc max_pages T Hsrv
              (Z.to_nat (stop - 1)) fuel 1 [] api Hs eq_refl)
    as (replies & api' & Hrun & _ & Hex & Hlen); [lia|].
  exists replies, api'. unfold get_all_listings. rewrite Hrun. simpl.
  repeat split; try assumption.
  - lia.
  - intros i x Hx. destruct (page_calls_lookup _ _ _ _ _ Hx) as (r & Hr & ->).
    eexists _, r. repeat split; try assumption.
    + apply build_params_page.
    + rewrite build_params_per_page. reflexivity.
  - intros. apply build_params_per_page.
Qed.

Lemma get_all_listings_fetches_witness :
  exists replies api',
    get_all_listings (E := service_env three_pages) 3 None None (client_of three_pages)
      = Some (Ok (concat (map data replies)), api') /\
    exchanges api' = exchanges (client_of three_pages) ++ page_calls None 1 replies /\
    Z.of_nat (length replies) = 3.
Proof.
  destruct (get_all_listings_fetches (E := service_env three_pages)
              None None 3 (client_of three_pages) 3)
    as (replies & api' & H1 & H2 & H3 & _).
  - reflexivity.
  - intros p w. eexists. split; reflexivity.
  - vm_compute. lia.
  - exists replies, api'. repeat split; assumption.
Defined.

(** C7 as stated fails where the source reports no page: the loop has
    fetched page 1 before it reads [total_pages], so one request is made
    where the stated number is zero. *)
Lemma get_all_listings_fetches_counterexample :
  exists api',
    get_all_listings (E := service_env no_pages) 5 None None (client_of no_pages)
      = Some (Ok [], api') /\
    length (exchanges api') = 1%nat /\
    stated_fetches None (service_total_pages no_pages) = 0.
Proof.
  exists (state_of (client_of no_pages)
            (get_all_listings (E := service_env no_pages) 5 None None (client_of no_pages))).
  split; [apply run_value; vm_compute; reflexivity|].
  split; [vm_compute; reflexivity|reflexivity].
Qed.

(* ===================================================================== *)
(** * The detail stage *)
(* ===================================================================== *)

Lemma existsb_in_nil (l : list Z) :
  existsb (fun x => bool_decide (x ∈ @nil Z)) l = false.
Proof.
  induction l as [|x xs IH]; cbn [existsb]; [reflexivity|].
  rewrite IH, orb_false_r. apply bool_decide_eq_false_2, not_elem_of_nil.
Qed.

Lemma job_ids_of_empty_job `{E : Env} slot :
  nonempty (job slot) = false -> job_ids_of_slot slot = [].
Proof.
  intros Hj. unfold job_ids_of_slot, get_job_codes_from_string. rewrite Hj. reflexivity.
Qed.

Lemma slot_has_excluded_job_spec `{E : Env} excluded slot :
  slot_has_excluded_job excluded slot
  = filled slot && existsb (fun ex => bool_decide (ex ∈ job_ids_of_slot slot)) excluded.
Proof.
  unfold slot_has_excluded_job. fold (job_ids_of_slot slot).
  destruct (filled slot); simpl; [|reflexivity].
  destruct (nonempty (job slot)) eqn:Hj; simpl; [reflexivity|].
  rewrite (job_ids_of_empty_job _ Hj). symmetry. apply existsb_in_nil.
Qed.

Lemma existsb_ext_eq {A} (f g : A -> bool) l :
  (forall x, f x = g x) -> existsb f l = existsb g l.
Proof. intros Hfg. induction l; simpl; [reflexivity|]. rewrite Hfg, IHl. reflexivity. Qed.

Lemma existsb_and_false {A} (f : A -> bool) l :
  existsb (fun x => f x && false) l = false.
Proof. induction l; simpl; [reflexivity|]. rewrite IHl, andb_false_r. reflexivity. Qed.

Lemma excluded_job_present_spec `{E : Env} fc d :
  excluded_job_present fc d = negb (excluded_job_ok fc d).
Proof.
  unfold excluded_job_present, excluded_job_ok. rewrite negb_involutive.
  destruct (exclude_jobs fc) as [[|x xs]|]; destruct (slots d) as [[|s sl]|];
    try reflexivity.
  - symmetry. apply (existsb_and_false filled).
  - apply existsb_ext_eq. intros slot. apply slot_has_excluded_job_spec.
  - symmetry. apply (existsb_and_false filled).
Qed.

(** The early returns of [check_advanced_filters] compute the conjunction
    of the five predicates. *)
Lemma check_detail_spec `{E : Env} fc d : check_detail fc d = detail_predicates fc d.
Proof.
  unfold check_detail, detail_predicates. rewrite excluded_job_present_spec.
  destruct (excluded_job_ok fc d); simpl; [|reflexivity].
  unfold too_few_slots_available, min_slots_ok.
  assert (Hmin : match min_slots_available fc with
                 | Some m => slots_available d <? m
                 | None => false
                 end = negb match min_slots_available fc with
                            | Some m => m <=? slots_available d
                            | None => true
                            end).
  { destruct (min_slots_available fc) as [m|]; [|reflexivity].
    destruct (Z.ltb_spec (slots_available d) m), (Z.leb_spec m (slots_available d));
      simpl; try reflexivity; lia. }
  rewrite Hmin. clear Hmin.
  destruct (match min_slots_available fc with Some m => _ | None => true end);
    simpl; [|reflexivity].
  unfold too_many_slots_filled, max_slots_ok.
  assert (Hmax : match max_slots_filled fc with
                 | Some m => m <? slots_filled d
                 | None => false
                 end = negb match max_slots_filled fc with
                            | Some m => slots_filled d <=? m
                            | None => true
                            end).
  { destruct (max_slots_filled fc) as [m|]; [|reflexivity].
    destruct (Z.ltb_spec m (slots_filled d)), (Z.leb_spec (slots_filled d) m);
      simpl; try reflexivity; lia. }
  rewrite Hmax. clear Hmax.
  destruct (match max_slots_filled fc with Some m => _ | None => true end);
    simpl; [|reflexivity].
  unfold beginners_welcome_differs, beginners_ok.
  destruct (fc_beginners_welcome fc) as [b|]; simpl.
  - destruct (bool_decide (beginners_welcome d = Some b)); simpl; [|reflexivity].
    unfold no_keyword_found, keywords_ok.
    destruct (content_keywords fc) as [kws|]; [|reflexivity].
    destruct (nonempty kws); [|reflexivity].
    destruct (keywords_of kws); [reflexivity|].
    destruct (existsb _ _); reflexivity.
  - unfold no_keyword_found, keywords_ok.
    destruct (content_keywords fc) as [kws|]; [|reflexivity].
    destruct (nonempty kws); [|reflexivity].
    destruct (keywords_of kws); [reflexivity|].
    destruct (existsb _ _); reflexivity.
Qed.

(** [check_advanced_filters] is its guard followed by the fetch and the
    conjunction of the five predicates: a listing that is gone gives
    false, a transport failure is raised to the caller. *)
Lemma check_advanced_filters_unfolds `{E : Env} listing fc api :
  check_advanced_filters listing fc api
  = (if any_advanced_filter fc then fetch_and_evaluate listing fc api
     else Some (Ok true, api)).
Proof.
  unfold check_advanced_filters, fetch_and_evaluate.
  destruct (any_advanced_filter fc); simpl; [|reflexivity].
  unfold bind, try_except, ret, raise.
  destruct (get_listing_detail (id listing) api) as [[[d|e] api']|]; simpl.
  - rewrite check_detail_spec. reflexivity.
  - destruct (decide (e = ValueError)); reflexivity.
  - reflexivity.
Qed.

(** C4.  The failing input: the condition whose only detail-level field
    is [max_slots_filled = 0], and listing 7, whose detail record has
    three filled slots.  The field is set, so the stage of the claim
    fetches the detail of listing 7 and rejects it; [check_advanced_filters]
    returns true and asks nothing, because its guard tests the field by
    truthiness.  Past the guard the function tests the same field with
    [is not None] and does apply a cap of 0: with [min_slots_available = 1]
    beside it the listing is fetched and rejected, while
    [min_slots_available = 1] alone accepts it, so that the cap is what
    rejects. *)
Theorem check_advanced_filters_zero_cap :
  max_slots_filled max_filled_zero = Some 0 /\
  exclude_jobs max_filled_zero = None /\
  min_slots_available max_filled_zero = None /\
  fc_beginners_welcome max_filled_zero = None /\
  content_keywords max_filled_zero = None /\
  service_detail knows7 7 = ReplyListing listing7 /\
  slots_filled listing7 = 3 /\
  check_advanced_filters (E := service_env knows7) listing7 max_filled_zero (client_of knows7)
  = Some (Ok true, client_of knows7) /\
  (exists api',
      detailStage (E := service_env knows7) listing7 max_filled_zero (client_of knows7)
      = Some (Ok false, api') /\
      exchanges api' = [DetailCall 7 (ReplyListing listing7)]) /\
  (exists api',
      check_advanced_filters (E := service_env knows7) listing7 free_slot_none_filled
        (client_of knows7)
      = Some (Ok false, api') /\
      exchanges api' = [DetailCall 7 (ReplyListing listing7)]) /\
  (exists api',
      check_advanced_filters (E := service_env knows7) listing7 wants_free_slot
        (client_of knows7)
      = Some (Ok true, api') /\
      exchanges api' = [DetailCall 7 (ReplyListing listing7)]).
Proof.
  repeat (split; [reflexivity|]).
  split; [|split].
  - exists (state_of (client_of knows7)
              (detailStage (E := service_env knows7) listing7 max_filled_zero
                 (client_of knows7))).
    split; [apply run_value; vm_compute; reflexivity|]. vm_compute. reflexivity.
  - exists (state_of (client_of knows7)
              (check_advanced_filters (E := service_env knows7) listing7
                 free_slot_none_filled (client_of knows7))).
    split; [apply run_value; vm_compute; reflexivity|]. vm_compute. reflexivity.
  - exists (state_of (client_of knows7)
              (check_advanced_filters (E := service_env knows7) listing7 wants_free_slot
                 (client_of knows7))).
    split; [apply run_value; vm_compute; reflexivity|]. vm_compute. reflexivity.
Qed.

(** C10.  When [exclude_jobs], [beginners_welcome] and [content_keywords]
    are unset and each of [min_slots_available] and [max_slots_filled] is
    unset or 0, [check_advanced_filters] returns true for every listing and
    makes no request: the client is left as it was. *)
Theorem check_advanced_filters_zero_unset `{E : Env} listing fc api :
  exclude_jobs fc = None ->
  fc_beginners_welcome fc = None ->
  content_keywords fc = None ->
  min_slots_available fc = None \/ min_slots_available fc = Some 0 ->
  max_slots_filled fc = None \/ max_slots_filled fc = Some 0 ->
  check_advanced_filters listing fc api = Some (Ok true, api).
Proof.
  intros Hex Hb Hk Hmin Hmax. unfold check_advanced_filters, any_advanced_filter.
  rewrite Hex, Hb, Hk. destruct Hmin as [-> | ->], Hmax as [-> | ->]; reflexivity.
Qed.

Lemma check_advanced_filters_zero_unset_witness :
  slots_filled listing7 = 3 /\
  check_advanced_filters (E := service_env knows7) listing7 both_zero (client_of knows7)
    = Some (Ok true, client_of knows7).
Proof.
  split; [reflexivity|].
  apply (check_advanced_filters_zero_unset (E := service_env knows7));
    first [reflexivity | right; reflexivity].
Defined.

(* ===================================================================== *)
(** * Comparisons that are total orders *)
(* ===================================================================== *)

#[export] Instance Z_comparator : Comparator Z.compare.
Proof.
  split.
  - intros x y. apply Z.compare_eq.
  - apply Z.compare_refl.
  - intros x y. apply Z.compare_antisym.
  - intros x y z H1 H2. rewrite Z.compare_lt_iff in *. lia.
Qed.

#[export] Instance ascii_comparator : Comparator Ascii.compare.
Proof.
  split.
  - intros x y. apply Ascii.compare_eq_iff.
  - intros x. unfold Ascii.compare. apply N.compare_refl.
  - intros x y. apply Ascii.compare_antisym.
  - intros x y z. unfold Ascii.compare. rewrite !N.compare_lt_iff. lia.
Qed.

#[export] Instance string_comparator : Comparator String.compare.
Proof.
  split.
  - apply String.compare_eq_iff.
  - intros x. induction x as [|c s IH]; simpl; [reflexivity|].
    rewrite (cmp_refl (c := Ascii.compare)). exact IH.
  - apply String.compare_antisym.
  - intros x. induction x as [|a s IH]; intros [|b t] [|c u]; simpl; try congruence.
    destruct (Ascii.compare a b) eqn:Hab; try discriminate.
    + apply (cmp_eq (c := Ascii.compare)) in Hab. subst b.
      destruct (Ascii.compare a c); try congruence. apply IH.
    + intros _. destruct (Ascii.compare b c) eqn:Hbc; try discriminate.
      * apply (cmp_eq (c := Ascii.compare)) in Hbc. subst c. rewrite Hab. reflexivity.
      * intros _. rewrite (cmp_trans (c := Ascii.compare) _ _ _ Hab Hbc). reflexivity.
Qed.

#[export] Instance duty_comparator : Comparator duty_cmp.
Proof.
  split.
  - intros [s1|] [s2|]; simpl; try discriminate; [|reflexivity].
    intros H. f_equal. apply (cmp_eq (c := String.compare)). exact H.
  - intros [s|]; simpl; [apply (cmp_refl (c := String.compare))|reflexivity].
  - intros [s1|] [s2|]; simpl; try reflexivity. apply String.compare_antisym.
  - intros [s1|] [s2|] [s3|]; simpl; try congruence.
    apply (cmp_trans (c := String.compare)).
Qed.

#[export] Instance lex_comparator {A B} (ca : A -> A -> comparison)
    (cb : B -> B -> comparison) `{!Comparator ca, !Comparator cb} :
  Comparator (lex_cmp ca cb).
Proof.
  split.
  - intros [a b] [a' b']. unfold lex_cmp. simpl.
    destruct (ca a a') eqn:Ha; try discriminate.
    intros Hb. apply cmp_eq in Ha. apply cmp_eq in Hb. congruence.
  - intros [a b]. unfold lex_cmp. simpl. rewrite (cmp_refl (c := ca)). apply cmp_refl.
  - intros [a b] [a' b']. unfold lex_cmp. simpl.
    rewrite (cmp_antisym (c := ca) a a').
    destruct (ca a' a); simpl; try reflexivity. apply cmp_antisym.
  - intros [a b] [a' b'] [a'' b'']. unfold lex_cmp. simpl.
    destruct (ca a a') eqn:H1; try discriminate.
    + apply cmp_eq in H1. subst a'. destruct (ca a a''); try congruence. apply cmp_trans.
    + intros _. destruct (ca a' a'') eqn:H2; try discriminate.
      * apply cmp_eq in H2. subst a''. rewrite H1. reflexivity.
      * intros _. rewrite (cmp_trans _ _ _ H1 H2). reflexivity.
Qed.

Lemma key_comparator : Comparator key_cmp.
Proof. unfold key_cmp. apply _. Qed.

Lemma listing_ltb_asym a b : listing_ltb a b = true -> listing_ltb b a = false.
Proof.
  unfold listing_ltb. rewrite (cmp_antisym (Comparator := key_comparator) (key_of b)).
  destruct (key_cmp (key_of a) (key_of b)); simpl; congruence.
Qed.

Lemma listing_ltb_key_neq a b : listing_ltb a b = true -> key_of a <> key_of b.
Proof.
  unfold listing_ltb. intros H Heq. rewrite Heq in H.
  rewrite (cmp_refl (Comparator := key_comparator)) in H. discriminate.
Qed.

(** "Not below" is transitive. *)
Lemma listing_ltb_neg_trans a b c :
  listing_ltb b a = false -> listing_ltb c b = false -> listing_ltb c a = false.
Proof.
  unfold listing_ltb. intros Hba Hcb.
  destruct (key_cmp (key_of c) (key_of a)) eqn:Hca; try reflexivity. exfalso.
  destruct (key_cmp (key_of b) (key_of a)) eqn:Hba'; try discriminate.
  - apply (cmp_eq (Comparator := key_comparator)) in Hba'. rewrite Hba' in Hcb.
    rewrite Hca in Hcb. discriminate.
  - assert (Hab : key_cmp (key_of a) (key_of b) = Lt).
    { rewrite (cmp_antisym (Comparator := key_comparator)), Hba'. reflexivity. }
    rewrite (cmp_trans (Comparator := key_comparator) _ _ _ Hca Hab) in Hcb. discriminate.
Qed.

(* ===================================================================== *)
(** * Insertion sort over a total order *)
(* ===================================================================== *)

Section InsertionSort.
Context {A K : Type} `{EqDecision K} (key : A -> K) (ltb : A -> A -> bool).
Hypothesis ltb_asym : forall a b, ltb a b = true -> ltb b a = false.
Hypothesis ltb_neg_trans :
  forall a b c, ltb b a = false -> ltb c b = false -> ltb c a = false.
Hypothesis ltb_key_neq : forall a b, ltb a b = true -> key a <> key b.

Lemma insert_by_perm x s : insert_by ltb x s ≡ₚ x :: s.
Proof.
  induction s as [|y s IH]; simpl; [reflexivity|].
  destruct (ltb y x); [|reflexivity].
  rewrite IH. apply Permutation_swap.
Qed.

Lemma sort_by_perm l : sort_by ltb l ≡ₚ l.
Proof.
  induction l as [|x l IH]; simpl; [reflexivity|].
  rewrite insert_by_perm, IH. reflexivity.
Qed.

Lemma insert_by_sorted x s :
  StronglySorted (not_above ltb) s -> StronglySorted (not_above ltb) (insert_by ltb x s).
Proof.
  induction s as [|y s IH]; intros Hs; simpl.
  - constructor; constructor.
  - apply StronglySorted_cons in Hs as [Hy Hs].
    destruct (ltb y x) eqn:Hyx.
    + apply StronglySorted_cons. split; [|auto].
      rewrite Forall_forall in *. intros z Hz.
      apply (elem_of_Permutation_proper _ _ _ (insert_by_perm x s)) in Hz.
      apply elem_of_cons in Hz as [->|Hz]; [|auto].
      unfold not_above. apply ltb_asym. exact Hyx.
    + apply StronglySorted_cons. split.
      * constructor; [exact Hyx|].
        rewrite Forall_forall in *. intros z Hz. unfold not_above in *.
        apply (ltb_neg_trans x y z); auto.
      * apply StronglySorted_cons. split; assumption.
Qed.

Lemma sort_by_sorted l : StronglySorted (not_above ltb) (sort_by ltb l).
Proof.
  induction l as [|x l IH]; simpl; [constructor|]. apply insert_by_sorted, IH.
Qed.

Lemma insert_by_stable k x s :
  filter (fun a => key a = k) (insert_by ltb x s) = filter (fun a => key a = k) (x :: s).
Proof.
  induction s as [|y s IH]; simpl; [reflexivity|].
  destruct (ltb y x) eqn:Hyx; [|reflexivity].
  rewrite (filter_cons _ y), IH, !filter_cons.
  destruct (decide (key y = k)) as [Hy|Hy], (decide (key x = k)) as [Hx|Hx];
    try reflexivity.
  exfalso. apply (ltb_key_neq _ _ Hyx). congruence.
Qed.

Lemma sort_by_stable k l :
  filter (fun a => key a = k) (sort_by ltb l) = filter (fun a => key a = k) l.
Proof.
  induction l as [|x l IH]; simpl; [reflexivity|].
  rewrite insert_by_stable, !filter_cons, IH. reflexivity.
Qed.
End InsertionSort.

Lemma StronglySorted_reverse {A} (R : relation A) l :
  StronglySorted R l -> StronglySorted (flip R) (reverse l).
Proof.
  induction l as [|x l IH]; intros Hs.
  - rewrite reverse_nil. constructor.
  - apply StronglySorted_cons in Hs as [Hx Hs]. rewrite reverse_cons.
    apply StronglySorted_app_2.
    + intros a b Ha Hb. apply list_elem_of_singleton in Hb. subst b.
      rewrite elem_of_reverse in Ha. rewrite Forall_forall in Hx. apply Hx, Ha.
    + auto.
    + constructor; constructor.
Qed.

Lemma StronglySorted_weaken {A} (R1 R2 : relation A) l :
  (forall a b, a ∈ l -> b ∈ l -> R1 a b -> R2 a b) ->
  StronglySorted R1 l -> StronglySorted R2 l.
Proof.
  induction l as [|x l IH]; intros HR Hs; [constructor|].
  apply StronglySorted_cons in Hs as [Hx Hs]. apply StronglySorted_cons. split.
  - rewrite Forall_forall in *. intros y Hy. apply HR; [left|right; exact Hy|auto].
  - apply IH; [|exact Hs]. intros a b Ha Hb. apply HR; right; assumption.
Qed.

(* ===================================================================== *)
(** * The order of the merged list *)
(* ===================================================================== *)

Lemma string_ltb_cmp s1 s2 : String.ltb s1 s2 = is_lt (String.compare s1 s2).
Proof. unfold String.ltb. destruct (String.compare s1 s2); reflexivity. Qed.

Lemma Z_ltb_cmp x y : (x <? y) = is_lt (x ?= y).
Proof. unfold Z.ltb. destruct (x ?= y); reflexivity. Qed.

(** Where [key_lt] does not raise, it is the total comparison. *)
Lemma key_lt_total a b r : key_lt a b = Ok r -> r = is_lt (key_cmp a b).
Proof.
  destruct a as [[m1 d1] t1], b as [[m2 d2] t2].
  unfold key_lt, key_cmp, lex_cmp. simpl.
  destruct (Z.eqb_spec m1 m2) as [->|Hm]; simpl.
  - rewrite Z.compare_refl.
    destruct d1 as [s1|], d2 as [s2|]; simpl; try discriminate.
    + destruct (String.eqb_spec s1 s2) as [->|Hs].
      * rewrite (cmp_refl (c := String.compare)). intros [= <-]. apply Z_ltb_cmp.
      * intros [= <-]. rewrite string_ltb_cmp.
        destruct (String.compare s1 s2) eqn:Hc; try reflexivity.
        apply String.compare_eq_iff in Hc. contradiction.
    + intros [= <-]. apply Z_ltb_cmp.
  - intros [= <-]. rewrite Z_ltb_cmp.
    destruct (m1 ?= m2) eqn:Hc; try reflexivity.
    apply Z.compare_eq in Hc. contradiction.
Qed.

Lemma pair_comparable_ltb a b :
  pair_comparable a b = true -> key_lt (key_of a) (key_of b) = Ok (listing_ltb a b).
Proof.
  unfold pair_comparable, listing_ltb.
  destruct (key_lt (key_of a) (key_of b)) as [r|e] eqn:Hk; [|discriminate].
  intros _. f_equal. apply key_lt_total, Hk.
Qed.

Lemma keys_comparable_pairs l :
  keys_comparable l = true <-> forall a b, a ∈ l -> b ∈ l -> pair_comparable a b = true.
Proof.
  unfold keys_comparable. rewrite forallb_forall. split.
  - intros H a b Ha Hb. apply list_elem_of_In in Ha, Hb.
    specialize (H a Ha). rewrite forallb_forall in H. auto.
  - intros H a Ha. apply forallb_forall. intros b Hb.
    apply H; apply list_elem_of_In; assumption.
Qed.

Lemma insert_sorted_pure x s :
  (forall y, y ∈ s -> pair_comparable y x = true) ->
  insert_sorted x s = Ok (insert_by listing_ltb x s).
Proof.
  induction s as [|y s IH]; intros Hc; cbn [insert_sorted insert_by]; [reflexivity|].
  rewrite (pair_comparable_ltb y x) by (apply Hc; left).
  destruct (listing_ltb y x); [|reflexivity].
  rewrite IH; [reflexivity|]. intros z Hz. apply Hc. right. exact Hz.
Qed.

Lemma sort_ascending_pure l :
  (forall a b, a ∈ l -> b ∈ l -> pair_comparable a b = true) ->
  sort_ascending l = Ok (sort_by listing_ltb l).
Proof.
  induction l as [|x l IH]; intros Hc; cbn [sort_ascending sort_by]; [reflexivity|].
  rewrite IH by (intros a b Ha Hb; apply Hc; right; assumption).
  apply insert_sorted_pure. intros y Hy.
  apply (elem_of_Permutation_proper _ _ _ (sort_by_perm listing_ltb l)) in Hy.
  apply Hc; [right; exact Hy|left].
Qed.

(** A listing that is not below another may stand before it. *)
Lemma not_below_code_order a b :
  pair_comparable a b = true -> listing_ltb a b = false -> code_order a b.
Proof.
  unfold pair_comparable, listing_ltb, code_order, key_lt, key_cmp, lex_cmp, key_of.
  simpl.
  destruct (Z.eqb_spec (minute_of (updated_at a)) (minute_of (updated_at b))) as [Hm|Hm];
    simpl.
  - rewrite Hm, Z.compare_refl.
    destruct (duty_type a) as [s1|], (duty_type b) as [s2|]; simpl; try discriminate.
    + intros _. destruct (String.compare s1 s2) eqn:Hc.
      * apply String.compare_eq_iff in Hc. subst s2. intros Ht. right. split; [reflexivity|].
        right. split; [reflexivity|].
        destruct (- time_left a ?= - time_left b) eqn:Hcmp; try discriminate.
        -- apply Z.compare_eq in Hcmp. lia.
        -- apply Z.compare_gt_iff in Hcmp. lia.
      * discriminate.
      * intros _. right. split; [reflexivity|]. left.
        rewrite string_ltb_cmp, String.compare_antisym, Hc. reflexivity.
    + intros _ Ht. right. split; [reflexivity|]. right. split; [reflexivity|].
      destruct (- time_left a ?= - time_left b) eqn:Hcmp; try discriminate.
      * apply Z.compare_eq in Hcmp. lia.
      * apply Z.compare_gt_iff in Hcmp. lia.
  - intros _.
    destruct (minute_of (updated_at a) ?= minute_of (updated_at b)) eqn:Hc.
    + apply Z.compare_eq in Hc. contradiction.
    + discriminate.
    + intros _. left. apply Z.compare_gt_iff in Hc. lia.
Qed.

(** C5 (amended).  Where no two merged listings have keys on which [<]
    raises, the sort of [continuous_search] succeeds; the result is a
    permutation of the merged list, ordered so that of any two entries the
    earlier one has the later minute of update or, the minutes being equal,
    the greater duty type or, those being equal too, a remaining time that
    is not the longer one (shortest remaining time first); and entries with
    the same key (minute, duty type and remaining time) keep the relative
    order they had in the merged list. *)
Theorem sort_listings_order l :
  keys_comparable l = true ->
  exists out,
    sort_listings l = Ok out /\
    out ≡ₚ l /\
    StronglySorted code_order out /\
    (forall k, filter (fun a => key_of a = k) out = filter (fun a => key_of a = k) l).
Proof.
  intros Hc. rewrite keys_comparable_pairs in Hc.
  exists (reverse (sort_by listing_ltb (reverse l))).
  assert (Hperm : reverse (sort_by listing_ltb (reverse l)) ≡ₚ l).
  { rewrite reverse_Permutation, sort_by_perm, reverse_Permutation. reflexivity. }
  split; [|split; [exact Hperm|split]].
  - unfold sort_listings. rewrite sort_ascending_pure; [reflexivity|].
    intros a b Ha Hb. apply Hc; apply elem_of_reverse; assumption.
  - apply (StronglySorted_weaken (flip (not_above listing_ltb))).
    + intros a b Ha Hb Hab. unfold flip, not_above in Hab.
      apply not_below_code_order; [|exact Hab].
      apply Hc; rewrite <- Hperm; assumption.
    + apply StronglySorted_reverse, sort_by_sorted.
      * apply listing_ltb_asym.
      * apply listing_ltb_neg_trans.
  - intros k. rewrite filter_reverse.
    rewrite (sort_by_stable key_of listing_ltb listing_ltb_key_neq).
    rewrite filter_reverse, reverse_involutive. reflexivity.
Qed.

Lemma sort_listings_order_witness :
  keys_comparable four_listings = true /\
  exists out,
    sort_listings four_listings = Ok out /\
    out ≡ₚ four_listings /\
    StronglySorted code_order out /\
    (forall k, filter (fun a => key_of a = k) out
               = filter (fun a => key_of a = k) four_listings).
Proof.
  split; [reflexivity|]. apply (sort_listings_order four_listings). reflexivity.
Defined.

(** C5 as stated fails on two listings of the same minute and duty type
    with 20 and 10 left: the sort puts the one with 10 left first, where
    the stated order (longest remaining time first) wants the other. *)
Lemma sort_listings_order_counterexample :
  sort_listings [left20; left10] = Ok [left10; left20] /\
  ~ stated_order left10 left20 /\
  stated_order left20 left10.
Proof.
  split; [reflexivity|]. split.
  - unfold stated_order, left10, left20, listing_of, minute_of. simpl.
    intros [H|[_ [H|[_ H]]]]; [lia|exact H|lia].
  - unfold stated_order, left10, left20, listing_of, minute_of. simpl.
    right. split; [reflexivity|]. right. split; [reflexivity|lia].
Qed.

(* ===================================================================== *)
(** * The registry *)
(* ===================================================================== *)

Lemma dict_get_del_same {V} k (d : dict V) : dict_get k (dict_del k d) = None.
Proof.
  induction d as [|[k' v] d IH]; simpl; [reflexivity|].
  destruct (k' =? k) eqn:Hk; [exact IH|]. simpl. rewrite Hk. exact IH.
Qed.

Lemma dict_get_del_other {V} k k' (d : dict V) :
  k <> k' -> dict_get k' (dict_del k d) = dict_get k' d.
Proof.
  intros Hne. induction d as [|[k0 v] d IH]; simpl; [reflexivity|].
  destruct (Z.eqb_spec k0 k) as [->|Hk0].
  - rewrite IH. destruct (Z.eqb_spec k k'); [contradiction|reflexivity].
  - simpl. rewrite IH. reflexivity.
Qed.

Lemma dict_get_replace_other {V} k k' v (d : dict V) :
  k <> k' -> dict_get k' (dict_replace k v d) = dict_get k' d.
Proof.
  intros Hne. induction d as [|[k0 v0] d IH]; simpl; [reflexivity|].
  destruct (Z.eqb_spec k0 k) as [->|Hk0]; simpl.
  - destruct (Z.eqb_spec k k'); [contradiction|reflexivity].
  - rewrite IH. reflexivity.
Qed.

Lemma dict_get_replace_same {V} k v (d : dict V) :
  dict_get k (dict_replace k v d) = if dict_contains k d then Some v else None.
Proof.
  unfold dict_contains. induction d as [|[k0 v0] d IH]; simpl; [reflexivity|].
  destruct (Z.eqb_spec k0 k) as [->|Hk0]; simpl.
  - rewrite Z.eqb_refl. reflexivity.
  - destruct (Z.eqb_spec k0 k); [contradiction|]. exact IH.
Qed.

Lemma dict_contains_keys {V} k (d : dict V) :
  dict_contains k d = true <-> k ∈ dict_keys d.
Proof.
  unfold dict_contains, dict_keys. induction d as [|[k0 v0] d IH]; simpl.
  - split; [discriminate|]. intros H. apply elem_of_nil in H. contradiction.
  - rewrite elem_of_cons. destruct (Z.eqb_spec k0 k) as [->|Hk0]; simpl.
    + split; auto.
    + rewrite IH. split; [auto|]. intros [Heq|H]; [congruence|exact H].
Qed.

Lemma remove_monitor_target_get_same `{E : Env} k (self : XIVPFMonitor) :
  dict_get k (monitor_targets (remove_monitor_target k self)) = None.
Proof.
  unfold remove_monitor_target, dict_contains.
  destruct (dict_get k (monitor_targets self)) eqn:Hg; simpl.
  - apply dict_get_del_same.
  - exact Hg.
Qed.

Lemma remove_monitor_target_get_other `{E : Env} k k' (self : XIVPFMonitor) :
  k <> k' ->
  dict_get k' (monitor_targets (remove_monitor_target k self))
  = dict_get k' (monitor_targets self).
Proof.
  intros Hne. unfold remove_monitor_target.
  destruct (dict_contains k (monitor_targets self)); simpl; [|reflexivity].
  apply dict_get_del_other, Hne.
Qed.

Lemma remove_monitor_target_notifier `{E : Env} k (self : XIVPFMonitor) :
  notifier (remove_monitor_target k self) = notifier self ++ removal_events k self.
Proof.
  unfold remove_monitor_target, removal_events.
  destruct (dict_contains k (monitor_targets self)); simpl;
    [reflexivity|rewrite app_nil_r; reflexivity].
Qed.

Lemma remove_monitor_target_last_listings `{E : Env} k (self : XIVPFMonitor) :
  last_listings (remove_monitor_target k self) = last_listings self.
Proof.
  unfold remove_monitor_target. destruct (dict_contains k (monitor_targets self)); reflexivity.
Qed.

(* ===================================================================== *)
(** * The order-based expiration check *)
(* ===================================================================== *)

Lemma first_drop_spec i prev rest :
  match first_drop i prev rest with
  | Some k =>
      i - 1 <= k < i - 1 + Z.of_nat (length rest) /\
      (forall j a b, (prev :: rest) !! j = Some a -> (prev :: rest) !! S j = Some b ->
                     Z.of_nat j < k - (i - 1) -> time_left a <= time_left b) /\
      (exists a b, (prev :: rest) !! Z.to_nat (k - (i - 1)) = Some a /\
                   (prev :: rest) !! S (Z.to_nat (k - (i - 1))) = Some b /\
                   time_left b < time_left a)
  | None =>
      forall j a b, (prev :: rest) !! j = Some a -> (prev :: rest) !! S j = Some b ->
                    time_left a <= time_left b
  end.
Proof.
  revert i prev. induction rest as [|cur rest IH]; intros i prev; simpl.
  - intros j a b _ Hb. destruct j; discriminate.
  - destruct (Z.ltb_spec (time_left cur) (time_left prev)) as [Hlt|Hge].
    + split; [lia|]. split.
      * intros j a b _ _ Hj. lia.
      * exists prev, cur. replace (i - 1 - (i - 1)) with 0 by lia. simpl. auto.
    + specialize (IH (i + 1) cur). destruct (first_drop (i + 1) cur rest) as [k|].
      * destruct IH as (Hk & Hmono & a & b & Ha & Hb & Hab).
        replace (i + 1 - 1) with i in * by lia.
        split; [lia|]. split.
        -- intros [|j] x y Hx Hy Hj; simpl in *.
           ++ inversion Hx; inversion Hy; subst. exact Hge.
           ++ apply (Hmono j x y Hx Hy). lia.
        -- exists a, b.
           replace (Z.to_nat (k - (i - 1))) with (S (Z.to_nat (k - i))) by lia.
           simpl. auto.
      * intros [|j] x y Hx Hy; simpl in *.
        -- inversion Hx; inversion Hy; subst. exact Hge.
        -- apply (IH j x y Hx Hy).
Qed.

(** [last_new_index] is the index of the last entry of the longest
    leading run along which [time_left] does not drop. *)
Lemma last_new_index_spec listings :
  listings <> [] ->
  0 <= last_new_index listings < Z.of_nat (length listings) /\
  (forall j a b, listings !! j = Some a -> listings !! S j = Some b ->
                 Z.of_nat j < last_new_index listings -> time_left a <= time_left b) /\
  (last_new_index listings = Z.of_nat (length listings) - 1 \/
   exists a b, listings !! Z.to_nat (last_new_index listings) = Some a /\
               listings !! S (Z.to_nat (last_new_index listings)) = Some b /\
               time_left b < time_left a).
Proof.
  destruct listings as [|first rest]; [congruence|]. intros _.
  unfold last_new_index. pose proof (first_drop_spec 1 first rest) as H.
  destruct (first_drop 1 first rest) as [k|]; simpl default.
  - destruct H as (Hk & Hmono & Hdrop). replace (1 - 1) with 0 in * by lia.
    replace (k - 0) with k in * by lia. simpl length.
    split; [lia|]. split; [exact Hmono|]. right. exact Hdrop.
  - simpl length. split; [lia|]. split; [|left; reflexivity].
    intros j a b Ha Hb _. apply (H j a b Ha Hb).
Qed.

Lemma dict_del_absent {V} k (d : dict V) : dict_contains k d = false -> dict_del k d = d.
Proof.
  unfold dict_contains. induction d as [|[k0 v0] d IH]; simpl; [reflexivity|].
  destruct (k0 =? k); simpl; [discriminate|]. intros H. rewrite IH; auto.
Qed.

Lemma expire_targets_spec `{E : Env} previous expired (self : XIVPFMonitor) :
  notifier (expire_targets previous expired self)
  = notifier self ++ expire_events previous expired (monitor_targets self) /\
  last_listings (expire_targets previous expired self) = last_listings self /\
  (forall k, dict_get k (monitor_targets (expire_targets previous expired self))
             = if bool_decide (k ∈ expired ∧ k ∈ fmap id previous) then None
               else dict_get k (monitor_targets self)).
Proof.
  revert self. induction previous as [|listing rest IH]; intros self;
    cbn [expire_targets expire_events].
  - rewrite app_nil_r. repeat split. intros k.
    rewrite bool_decide_eq_false_2; [reflexivity|].
    intros [_ H]. rewrite fmap_nil in H. apply elem_of_nil in H. exact H.
  - destruct (bool_decide (id listing ∈ expired)) eqn:Hin.
    + apply bool_decide_eq_true in Hin.
      destruct (IH (remove_monitor_target (id listing)
                      (emit (NotifyExpired listing ReasonGoneFromList) self)))
        as (Hn & Hl & Hg).
      split; [|split].
      * rewrite Hn, remove_monitor_target_notifier.
        unfold removal_events, remove_monitor_target. cbn [monitor_targets notifier emit].
        destruct (dict_contains (id listing) (monitor_targets self)) eqn:Hc;
          cbn [monitor_targets emit set_monitor_targets].
        -- rewrite <- !app_assoc. reflexivity.
        -- rewrite (dict_del_absent _ _ Hc), app_nil_r, <- !app_assoc. reflexivity.
      * rewrite Hl, remove_monitor_target_last_listings. reflexivity.
      * intros k. rewrite Hg. rewrite fmap_cons.
        destruct (decide (k = id listing)) as [->|Hne].
        -- rewrite remove_monitor_target_get_same.
           transitivity (@None MonitorTarget); [destruct (bool_decide _); reflexivity|].
           symmetry. rewrite bool_decide_eq_true_2; [reflexivity|].
           split; [exact Hin|left].
        -- rewrite remove_monitor_target_get_other by congruence.
           cbn [monitor_targets emit].
           apply (f_equal (fun b : bool => if b then None else _)).
           apply bool_decide_ext. rewrite elem_of_cons. intuition congruence.
    + apply bool_decide_eq_false in Hin. destruct (IH self) as (Hn & Hl & Hg).
      split; [exact Hn|]. split; [exact Hl|].
      intros k. rewrite Hg. rewrite fmap_cons.
      apply (f_equal (fun b : bool => if b then None else _)).
      apply bool_decide_ext. rewrite elem_of_cons. intuition congruence.
Qed.

Lemma expire_events_complete `{E : Env} previous expired targets l :
  l ∈ previous -> id l ∈ expired ->
  NotifyExpired l ReasonGoneFromList ∈ expire_events previous expired targets.
Proof.
  revert targets. induction previous as [|x rest IH]; intros targets Hl Hin.
  - apply elem_of_nil in Hl. contradiction.
  - simpl. apply elem_of_cons in Hl as [<-|Hl].
    + rewrite bool_decide_eq_true_2 by exact Hin. left.
    + destruct (bool_decide (id x ∈ expired)); [|auto].
      right. apply elem_of_app. right. auto.
Qed.

Lemma expire_events_sound `{E : Env} previous expired targets l r :
  NotifyExpired l r ∈ expire_events previous expired targets ->
  l ∈ previous /\ id l ∈ expired /\ r = ReasonGoneFromList.
Proof.
  revert targets. induction previous as [|x rest IH]; intros targets Hin; simpl in Hin.
  - apply elem_of_nil in Hin. contradiction.
  - destruct (bool_decide (id x ∈ expired)) eqn:Hx.
    + apply bool_decide_eq_true in Hx.
      apply elem_of_cons in Hin as [Heq|Hin].
      * inversion Heq; subst. repeat split; [left|exact Hx].
      * apply elem_of_app in Hin as [Hin|Hin].
        -- destruct (dict_contains (id x) targets).
           ++ apply list_elem_of_singleton in Hin. discriminate.
           ++ apply elem_of_nil in Hin. contradiction.
        -- destruct (IH _ Hin) as (H1 & H2 & H3). repeat split; [right|..]; assumption.
    + destruct (IH _ Hin) as (H1 & H2 & H3). repeat split; [right|..]; assumption.
Qed.

Lemma slice_to_subset {A} stop (xs : list A) x : x ∈ slice_to stop xs -> x ∈ xs.
Proof.
  unfold slice_to. destruct (0 <=? stop); intros H; apply elem_of_take in H;
    destruct H as (i & Hi & _); eapply list_elem_of_lookup_2; eauto.
Qed.

Lemma check_expired_by_order_run `{E : Env} listings (self : XIVPFMonitor) :
  (2 <= length listings)%nat ->
  monitor_targets self <> [] ->
  last_listings self <> [] ->
  check_expired_by_order listings self
  = set_last_listings listings
      (expire_targets (last_listings self)
         ((id_set (slice_to (last_new_index listings + 1) (last_listings self))
             ∖ id_set listings)
            ∩ list_to_set (dict_keys (monitor_targets self)))
         self).
Proof.
  intros Hlen Ht Hl. unfold check_expired_by_order.
  destruct (Z.ltb_spec (Z.of_nat (length listings)) 2); [lia|]. simpl.
  rewrite bool_decide_eq_false_2 by exact Ht.
  destruct (last_listings self); [congruence|]. reflexivity.
Qed.

(** C1 (amended).  Let [k] be the index of the last entry of the longest
    leading run of the current sequence along which [time_left] does not
    drop.  When the current sequence has at least 2 listings and there is a
    previous snapshot, every id that is a monitored target, occurs among the
    first [k + 1] entries of the previous snapshot and occurs nowhere in the
    current sequence is removed from the registry, with an "expired, gone
    from the list" notification for a listing of the snapshot that carries
    the id; and an id that occurs anywhere in the current sequence keeps its
    registry entry and has no expiry notified by this check. *)
Theorem check_expired_by_order_expires `{E : Env} listings (self : XIVPFMonitor) :
  (2 <= length listings)%nat ->
  last_listings self <> [] ->
  exists new,
    notifier (check_expired_by_order listings self) = notifier self ++ new /\
    (0 <= last_new_index listings < Z.of_nat (length listings) /\
     (forall j a b, listings !! j = Some a -> listings !! S j = Some b ->
                    Z.of_nat j < last_new_index listings -> time_left a <= time_left b) /\
     (last_new_index listings = Z.of_nat (length listings) - 1 \/
      exists a b, listings !! Z.to_nat (last_new_index listings) = Some a /\
                  listings !! S (Z.to_nat (last_new_index listings)) = Some b /\
                  time_left b < time_left a)) /\
    (forall X,
        dict_contains X (monitor_targets self) = true ->
        X ∈ fmap id (slice_to (last_new_index listings + 1) (last_listings self)) ->
        X ∉ fmap id listings ->
        dict_get X (monitor_targets (check_expired_by_order listings self)) = None /\
        exists l, l ∈ last_listings self /\ id l = X /\
                  NotifyExpired l ReasonGoneFromList ∈ new) /\
    (forall X,
        X ∈ fmap id listings ->
        dict_get X (monitor_targets (check_expired_by_order listings self))
        = dict_get X (monitor_targets self) /\
        forall l r, id l = X -> NotifyExpired l r ∉ new).
Proof.
  intros Hlen Hl.
  assert (Hne : listings <> []) by (destruct listings; simpl in Hlen; [lia|congruence]).
  pose proof (last_new_index_spec listings Hne) as Hk.
  destruct (decide (monitor_targets self = [])) as [Ht|Ht].
  - exists []. unfold check_expired_by_order.
    rewrite (bool_decide_eq_true_2 _ Ht), orb_true_r, app_nil_r.
    split; [reflexivity|]. split; [exact Hk|]. split.
    + intros X Hc. rewrite Ht in Hc. discriminate.
    + intros X _. split; [reflexivity|]. intros l r _ H. apply elem_of_nil in H. exact H.
  - rewrite (check_expired_by_order_run listings self Hlen Ht Hl).
    set (expired := (id_set (slice_to (last_new_index listings + 1) (last_listings self))
                       ∖ id_set listings)
                      ∩ list_to_set (dict_keys (monitor_targets self))).
    destruct (expire_targets_spec (last_listings self) expired self) as (Hn & _ & Hg).
    exists (expire_events (last_listings self) expired (monitor_targets self)).
    simpl. split; [exact Hn|]. split; [exact Hk|]. split.
    + intros X Hc Hprev Hcur.
      assert (HX : X ∈ expired).
      { unfold expired, id_set. rewrite elem_of_intersection, elem_of_difference,
          !elem_of_list_to_set. repeat split; try assumption.
        apply dict_contains_keys, Hc. }
      apply list_elem_of_fmap in Hprev as (l & -> & Hlin).
      apply slice_to_subset in Hlin. split.
      * rewrite Hg. rewrite bool_decide_eq_true_2; [reflexivity|].
        split; [exact HX|]. apply list_elem_of_fmap_2, Hlin.
      * exists l. repeat split; [exact Hlin|]. apply expire_events_complete; assumption.
    + intros X Hcur.
      assert (HX : X ∉ expired).
      { unfold expired, id_set. rewrite elem_of_intersection, elem_of_difference,
          !elem_of_list_to_set. tauto. }
      split.
      * rewrite Hg. rewrite bool_decide_eq_false_2; [reflexivity|]. tauto.
      * intros l r <- Hin. apply expire_events_sound in Hin as (_ & Hin & _). contradiction.
Qed.

Lemma check_expired_by_order_last_listings `{E : Env} listings (self : XIVPFMonitor) :
  last_listings (check_expired_by_order listings self)
  = if (Z.of_nat (length listings) <? 2) || bool_decide (monitor_targets self = [])
    then last_listings self
    else listings.
Proof.
  unfold check_expired_by_order.
  destruct ((Z.of_nat (length listings) <? 2) || bool_decide (monitor_targets self = []));
    reflexivity.
Qed.

(** C2 (amended).  [check_expired_by_order] replaces the stored snapshot
    by the current sequence when the sequence has at least 2 listings and
    the registry is not empty, whether or not there was a prior snapshot;
    with fewer than 2 listings or an empty registry it returns at once and
    the stored snapshot stays what it was. *)
Theorem check_expired_by_order_snapshot `{E : Env} listings (self : XIVPFMonitor) :
  last_listings (check_expired_by_order listings self)
  = if (Z.of_nat (length listings) <? 2) || bool_decide (monitor_targets self = [])
    then last_listings self
    else listings.
Proof.
  unfold check_expired_by_order.
  destruct ((Z.of_nat (length listings) <? 2) || bool_decide (monitor_targets self = []));
    [reflexivity|].
  simpl. reflexivity.
Qed.

Lemma check_expired_by_order_expires_witness :
  dict_get 1 (monitor_targets (check_expired_by_order current_rise tracks1)) = None.
Proof.
  destruct (check_expired_by_order_expires (E := service_env idle) current_rise tracks1)
    as (new & _ & _ & Hgone & _).
  - simpl. lia.
  - discriminate.
  - apply (Hgone 1).
    + reflexivity.
    + decide_prop.
    + decide_prop.
Defined.

(** C1 as stated fails when the prefix is taken in the previous snapshot
    by itself: listing 3 lies in the longest leading non-decreasing run of
    the snapshot (all of it), is a monitored target and is absent from the
    current sequence, yet it stays in the registry and nothing is notified,
    because the current sequence drops after its first entry and only the
    first entry of the snapshot is looked at. *)
Lemma check_expired_by_order_counterexample :
  (3 ∈ id <$> own_prefix snapshot3) /\
  (3 ∉ id <$> current_drop) /\
  dict_contains 3 (monitor_targets tracks3) = true /\
  last_listings tracks3 = snapshot3 /\
  length current_drop = 2%nat /\
  monitor_targets (check_expired_by_order current_drop tracks3) = [(3, target3)] /\
  notifier (check_expired_by_order current_drop tracks3) = [].
Proof.
  split; [decide_prop|]. split; [decide_prop|].
  repeat split; reflexivity.
Qed.

(** C2 as stated fails on a cycle with a single listing: the check
    returns before the assignment and the stored snapshot is still the
    older one. *)
Lemma check_expired_by_order_snapshot_counterexample :
  last_listings (check_expired_by_order lone_listing tracks3) = snapshot3 /\
  snapshot3 <> lone_listing.
Proof. split; [reflexivity|discriminate]. Qed.

(* ===================================================================== *)
(** * What a computation leaves alone *)
(* ===================================================================== *)

Section Keeps.
Context {S : Type} (R : relation S) `{!PreOrder R}.

Lemma keeps_ret {A} (a : A) : keeps R (ret a).
Proof. intros s r s' [= <- <-]. reflexivity. Qed.

Lemma keeps_raise {A} e : keeps R (@raise S A e).
Proof. intros s r s' [= <- <-]. reflexivity. Qed.

Lemma keeps_get : keeps R (@get S).
Proof. intros s r s' [= <- <-]. reflexivity. Qed.

Lemma keeps_lift_result {A} (x : result A) : keeps R (lift_result x).
Proof. intros s r s' [= <- <-]. reflexivity. Qed.

Lemma keeps_out_of_fuel {A} : keeps R (@out_of_fuel S A).
Proof. intros s r s' H. discriminate. Qed.

Lemma keeps_modify f : (forall s, R s (f s)) -> keeps R (modify f).
Proof. intros Hf s r s' [= <- <-]. apply Hf. Qed.

Lemma keeps_bind {A B} (m : M S A) (k : A -> M S B) :
  keeps R m -> (forall a, keeps R (k a)) -> keeps R (bind m k).
Proof.
  intros Hm Hk s r s'. unfold bind.
  destruct (m s) as [[[a|e] s1]|] eqn:Hms; [| |discriminate].
  - intros Hks. transitivity s1; [eapply Hm, Hms|eapply Hk, Hks].
  - intros [= <- <-]. eapply Hm, Hms.
Qed.

Lemma keeps_try_except {A} (m : M S A) (h : exn -> M S A) :
  keeps R m -> (forall e, keeps R (h e)) -> keeps R (try_except m h).
Proof.
  intros Hm Hh s r s'. unfold try_except.
  destruct (m s) as [[[a|e] s1]|] eqn:Hms; [| |discriminate].
  - intros [= <- <-]. eapply Hm, Hms.
  - intros Hhs. transitivity s1; [eapply Hm, Hms|eapply Hh, Hhs].
Qed.

Lemma keeps_for_each {A} (xs : list A) (body : A -> M S unit) :
  (forall x, keeps R (body x)) -> keeps R (for_each xs body).
Proof.
  intros Hb. induction xs as [|x xs IH]; simpl.
  - apply keeps_ret.
  - apply keeps_bind; [apply Hb|intros _; exact IH].
Qed.
End Keeps.

Lemma keeps_on_api `{E : Env} {A} (R : relation XIVPFMonitor) (m : M XIVPFApiClient A) :
  (forall a s, R s (set_api_client a s)) -> keeps R (on_api m).
Proof.
  intros HR s r s'. unfold on_api.
  destruct (m (api_client s)) as [[r' a]|]; [|discriminate].
  intros [= <- <-]. apply HR.
Qed.

#[export] Instance same_preorder `{E : Env} {B} (field : XIVPFMonitor -> B) :
  PreOrder (same field).
Proof.
  split.
  - intros s. reflexivity.
  - intros s1 s2 s3 H1 H2. unfold same in *. congruence.
Qed.

#[export] Instance dedup_preorder `{E : Env} : PreOrder dedup.
Proof.
  split.
  - intros s. split; [reflexivity|]. exists []. rewrite app_nil_r. split; [reflexivity|].
    intros ls fname sys l H. apply elem_of_nil in H. contradiction.
  - intros s1 s2 s3 (Hsub1 & new1 & Hn1 & Hf1) (Hsub2 & new2 & Hn2 & Hf2).
    split; [etransitivity; eassumption|].
    exists (new1 ++ new2). split; [rewrite Hn2, Hn1, app_assoc; reflexivity|].
    intros ls fname sys l Hin Hl. apply elem_of_app in Hin as [Hin|Hin].
    + destruct (Hf1 _ _ _ _ Hin Hl) as [Ha Hb]. split; [exact Ha|]. apply Hsub2, Hb.
    + destruct (Hf2 _ _ _ _ Hin Hl) as [Ha Hb]. split; [|exact Hb].
      intros Hc. apply Ha, Hsub1, Hc.
Qed.

(** A change that leaves the notified record alone and tells the notifier
    nothing about found listings. *)
Lemma dedup_quiet `{E : Env} (s s' : XIVPFMonitor) new :
  notified_listings s' = notified_listings s ->
  notifier s' = notifier s ++ new ->
  forallb (fun e => negb (is_found e)) new = true ->
  dedup s s'.
Proof.
  intros Hn He Hq. split; [rewrite Hn; reflexivity|].
  exists new. split; [exact He|].
  intros ls fname sys l Hin _. exfalso.
  rewrite forallb_forall in Hq. apply list_elem_of_In in Hin.
  specialize (Hq _ Hin). discriminate.
Qed.

Ltac solve_preorder :=
  try match goal with
      | |- PreOrder _ => apply _
      end.

(** One structural step in a proof that a computation keeps a relation. *)
Ltac keeps_step :=
  first
    [ apply keeps_ret; solve_preorder
    | apply keeps_raise; solve_preorder
    | apply keeps_get; solve_preorder
    | apply keeps_lift_result; solve_preorder
    | apply keeps_out_of_fuel
    | (apply keeps_bind; solve_preorder); [|intros ?]
    | (apply keeps_try_except; solve_preorder); [|intros ?]
    | (apply keeps_for_each; solve_preorder); intros ?
    | apply keeps_on_api; intros ? ?
    | apply keeps_modify; intros ?
    | match goal with
      | |- keeps _ (if ?b then _ else _) => destruct b
      | |- keeps _ (match ?x with _ => _ end) => destruct x
      end ].

(** A state change that tells the notifier nothing about found listings
    and leaves the notified record alone. *)
Ltac dedup_quiet_step :=
  match goal with
  | |- dedup ?s _ =>
      first
        [ apply (dedup_quiet s _ []); [reflexivity|simpl; rewrite app_nil_r; reflexivity|reflexivity]
        | eapply dedup_quiet; [reflexivity|simpl; reflexivity|reflexivity] ]
  end.

Lemma same_remove_monitor_target `{E : Env} {B} (field : XIVPFMonitor -> B) k :
  (forall d e s, field (emit e (set_monitor_targets d s)) = field s) ->
  forall s, same field s (remove_monitor_target k s).
Proof.
  intros Hf s. unfold same, remove_monitor_target.
  destruct (dict_contains k (monitor_targets s)); [apply Hf|reflexivity].
Qed.

Lemma dedup_remove_monitor_target `{E : Env} k (s : XIVPFMonitor) :
  dedup s (remove_monitor_target k s).
Proof.
  unfold remove_monitor_target.
  destruct (dict_contains k (monitor_targets s)); dedup_quiet_step.
Qed.

Lemma dedup_expire_targets `{E : Env} previous expired (s : XIVPFMonitor) :
  dedup s (expire_targets previous expired s).
Proof.
  revert s. induction previous as [|l rest IH]; intros s; simpl; [reflexivity|].
  destruct (bool_decide (id l ∈ expired)); [|apply IH].
  etransitivity; [|apply IH].
  etransitivity; [|apply dedup_remove_monitor_target]. dedup_quiet_step.
Qed.

Lemma dedup_check_expired_by_order `{E : Env} listings (s : XIVPFMonitor) :
  dedup s (check_expired_by_order listings s).
Proof.
  unfold check_expired_by_order.
  destruct (_ || _); [reflexivity|].
  destruct (last_listings s).
  - dedup_quiet_step.
  - etransitivity; [apply dedup_expire_targets|]. dedup_quiet_step.
Qed.

Lemma dedup_display_new_listings `{E : Env} all (s : XIVPFMonitor) :
  dedup s (display_new_listings all s).
Proof.
  unfold display_new_listings. destruct all; [reflexivity|].
  destruct (bool_decide _); [reflexivity|]. dedup_quiet_step.
Qed.

(** The found-notification of [search_listings]: what it reports was not
    in the record, and is in it afterwards. *)
Lemma dedup_notify_new `{E : Env} notify filter_name filtered (s : XIVPFMonitor) :
  dedup s (notify_new notify filter_name (new_listings_of (notified_listings s) filtered) s).
Proof.
  unfold notify_new. destruct notify; [|reflexivity].
  destruct (new_listings_of (notified_listings s) filtered) as [|x rest] eqn:Hnew;
    [reflexivity|].
  rewrite <- Hnew. split; simpl.
  - apply union_subseteq_l.
  - eexists. split; [reflexivity|].
    intros ls fname sys l Hin Hl. apply list_elem_of_singleton in Hin.
    inversion Hin; subst ls fname sys. split.
    + unfold new_listings_of in Hl. apply list_elem_of_filter in Hl. tauto.
    + apply elem_of_union. right. unfold id_set. apply elem_of_list_to_set.
      apply list_elem_of_fmap_2, Hl.
Qed.

Lemma dedup_search_listings `{E : Env} fuel condition filter_name notify :
  keeps dedup (search_listings fuel condition filter_name notify).
Proof.
  unfold search_listings, search_listings_try.
  keeps_step.
  - keeps_step; [keeps_step; dedup_quiet_step|].
    keeps_step; [keeps_step; dedup_quiet_step|].
    intros s r s'. unfold bind, get, modify, ret. intros [= <- <-].
    apply dedup_notify_new.
  - repeat keeps_step. dedup_quiet_step.
Qed.

Lemma dedup_search_all `{E : Env} fuel conds acc : keeps dedup (search_all fuel conds acc).
Proof.
  revert acc. induction conds as [|[c n] rest IH]; intros acc; simpl.
  - keeps_step.
  - keeps_step; [apply dedup_search_listings|apply IH].
Qed.

Lemma dedup_show_monitor_target `{E : Env} entry : keeps dedup (show_monitor_target entry).
Proof.
  unfold show_monitor_target. destruct entry as [k t]. repeat keeps_step; dedup_quiet_step.
Qed.

Lemma dedup_show_monitor_targets `{E : Env} : keeps dedup show_monitor_targets.
Proof.
  unfold show_monitor_targets.
  repeat keeps_step; first [dedup_quiet_step | apply dedup_show_monitor_target].
Qed.

Lemma dedup_check_monitor_target `{E : Env} entry : keeps dedup (check_monitor_target entry).
Proof.
  unfold check_monitor_target. destruct entry as [k t].
  repeat keeps_step; first [dedup_quiet_step | apply dedup_remove_monitor_target].
Qed.

Lemma dedup_check_monitor_targets `{E : Env} : keeps dedup check_monitor_targets.
Proof.
  unfold check_monitor_targets. repeat keeps_step. apply dedup_check_monitor_target.
Qed.

Lemma dedup_add_monitor_target `{E : Env} k : keeps dedup (add_monitor_target k).
Proof. unfold add_monitor_target. repeat keeps_step; dedup_quiet_step. Qed.

Lemma dedup_continuous_search_iteration `{E : Env} fuel conds enable :
  keeps dedup (continuous_search_iteration fuel conds enable).
Proof.
  unfold continuous_search_iteration, continuous_search_try, check_targets_round.
  keeps_step.
  - keeps_step; [|keeps_step].
    keeps_step; [apply dedup_search_all|].
    keeps_step; [keeps_step|]. keeps_step; [keeps_step|].
    keeps_step.
    + keeps_step.
      * keeps_step. apply dedup_display_new_listings.
      * keeps_step; [apply dedup_show_monitor_targets|].
        keeps_step; [|apply dedup_check_monitor_targets].
        repeat keeps_step. apply dedup_check_expired_by_order.
    + repeat keeps_step; dedup_quiet_step.
  - repeat keeps_step; dedup_quiet_step.
Qed.

Lemma dedup_monitor_step `{E : Env} (s s' : XIVPFMonitor) : monitor_step s s' -> dedup s s'.
Proof.
  intros H. destruct H.
  - eapply dedup_continuous_search_iteration; eassumption.
  - eapply dedup_search_listings; eassumption.
  - eapply dedup_add_monitor_target; eassumption.
  - apply dedup_remove_monitor_target.
  - unfold clear_displayed_listings. dedup_quiet_step.
  - unfold stop_monitoring. dedup_quiet_step.
  - dedup_quiet_step.
Qed.

(** C6.  Over any run of poll iterations, searches and the other methods
    in which [clear_notified_listings] is not called, the notified record
    only grows, and every listing of a "found" notification issued during
    the run was absent from the record when the run began and is in it when
    the run ends: an id that is in the record is in no later "found"
    notification.  [clear_notified_listings] empties the record. *)
Theorem notified_dedup `{E : Env} (self self' : XIVPFMonitor) :
  monitor_steps self self' ->
  notified_listings self ⊆ notified_listings self' /\
  (exists new,
      notifier self' = notifier self ++ new /\
      forall ls filter_name sys l,
        NotifyFound ls filter_name sys ∈ new -> l ∈ ls ->
        (id l ∉ notified_listings self) /\ id l ∈ notified_listings self') /\
  notified_listings (clear_notified_listings self') = ∅.
Proof.
  intros Hsteps.
  assert (Hd : dedup self self').
  { induction Hsteps as [s|s1 s2 s3 Hstep _ IH]; [reflexivity|].
    etransitivity; [apply dedup_monitor_step, Hstep|exact IH]. }
  destruct Hd as [Hsub Hnew]. split; [exact Hsub|]. split; [exact Hnew|reflexivity].
Qed.

(** One poll iteration against the service with three pages: the four
    listings are reported as found and enter the record. *)
Lemma notified_dedup_witness :
  monitor_steps fresh after_one_iteration /\
  notified_listings after_one_iteration = {[1; 2; 3; 4]} /\
  notified_listings fresh ⊆ notified_listings after_one_iteration.
Proof.
  assert (Hsteps : monitor_steps fresh after_one_iteration).
  { eapply steps_cons; [|apply steps_refl].
    apply (step_iteration 5 [(no_filter, "all")] true true).
    refine (run_value fresh _ (Ok true) _). vm_compute. reflexivity. }
  split; [exact Hsteps|]. split; [vm_compute; reflexivity|].
  exact (proj1 (notified_dedup fresh after_one_iteration Hsteps)).
Defined.

(* ===================================================================== *)
(** * The per-target check *)
(* ===================================================================== *)

Lemma for_each_app {S A} (xs ys : list A) (body : A -> M S unit) s :
  for_each (xs ++ ys) body s
  = match for_each xs body s with
    | Some (Ok _, s1) => for_each ys body s1
    | other => other
    end.
Proof.
  revert s. induction xs as [|x xs IH]; intros s; simpl; [reflexivity|].
  unfold bind. destruct (body x s) as [[[[]|e] s1]|]; [apply IH|reflexivity|reflexivity].
Qed.

Lemma keeps_for_each_in {S A} (R : relation S) `{!PreOrder R} (xs : list A)
    (body : A -> M S unit) :
  (forall x, x ∈ xs -> keeps R (body x)) -> keeps R (for_each xs body).
Proof.
  induction xs as [|x xs IH]; intros Hb; simpl.
  - apply keeps_ret. apply _.
  - apply keeps_bind; [apply _|apply Hb; left|].
    intros _. apply IH. intros y Hy. apply Hb. right. exact Hy.
Qed.

Lemma get_listing_detail_returns `{E : Env} k api :
  exists r api', get_listing_detail k api = Some (r, api').
Proof.
  unfold get_listing_detail. destruct (negb (session api)); [eauto|].
  destruct (http_get_listing k (world api)) as [[|l|e] w]; eauto.
Qed.

(** The state one target's check leaves, by the reply to the refetch. *)
Lemma check_monitor_target_run `{E : Env} k t (s : XIVPFMonitor) :
  check_monitor_target (k, t) s
  = match get_listing_detail k (api_client s) with
    | None => None
    | Some (Ok l, a) =>
        let s1 := set_api_client a s in
        if last_update t <? updated_at l then
          Some (Ok tt, update_target k (with_times t (updated_at l) 0)
                         (emit (NotifyUpdated l) s1))
        else
          let elapsed := now s1 - last_update t in
          let s2 := update_target k (with_times t (last_update t) elapsed) s1 in
          if int_lt_float (expire_threshold s) (total_seconds elapsed) then
            Some (Ok tt, remove_monitor_target k
                           (emit (NotifyExpired l
                                    (ReasonNoUpdate
                                       (int_of_float (true_divide (expire_threshold s) 60))))
                              s2))
          else Some (Ok tt, s2)
    | Some (Raise e, a) =>
        let s1 := set_api_client a s in
        if decide (e = ValueError) then
          Some (Ok tt, remove_monitor_target k (emit (StatusShown (ListingEnded k)) s1))
        else Some (Ok tt, emit (ErrorLogged (InCheckMonitorTarget k) e) s1)
    end.
Proof.
  unfold check_monitor_target, try_except, bind, on_api, modify, get, ret.
  destruct (get_listing_detail k (api_client s)) as [[[l|e] a]|]; [| |reflexivity].
  - destruct (last_update t <? updated_at l); [reflexivity|].
    simpl. destruct (int_lt_float _ _); reflexivity.
  - destruct (decide (e = ValueError)); reflexivity.
Qed.

Lemma check_monitor_target_succeeds `{E : Env} entry (s : XIVPFMonitor) :
  exists s', check_monitor_target entry s = Some (Ok tt, s').
Proof.
  destruct entry as [k t]. rewrite check_monitor_target_run.
  destruct (get_listing_detail_returns k (api_client s)) as (r & a & ->).
  destruct r as [l|e]; simpl.
  - destruct (_ <? _); [eauto|]. destruct (int_lt_float _ _); eauto.
  - destruct (decide _); eauto.
Qed.

Lemma for_each_check_succeeds `{E : Env} entries (s : XIVPFMonitor) :
  exists s', for_each entries check_monitor_target s = Some (Ok tt, s').
Proof.
  revert s. induction entries as [|x xs IH]; intros s; simpl; [unfold ret; eauto|].
  unfold bind. destruct (check_monitor_target_succeeds x s) as (s1 & ->). apply IH.
Qed.

(** Checking one target leaves the entries of the others alone. *)
Lemma check_monitor_target_other `{E : Env} k k' t' :
  k' <> k ->
  keeps (same (fun s => dict_get k (monitor_targets s))) (check_monitor_target (k', t')).
Proof.
  intros Hne. unfold check_monitor_target.
  repeat keeps_step;
    try (unfold same; simpl; reflexivity);
    try (unfold same; simpl; apply dict_get_replace_other, Hne);
    try (unfold same; apply remove_monitor_target_get_other, Hne).
Qed.

Lemma check_monitor_target_threshold `{E : Env} entry :
  keeps (same expire_threshold) (check_monitor_target entry).
Proof.
  destruct entry as [k t]. unfold check_monitor_target.
  repeat keeps_step; try (unfold same; simpl; reflexivity);
    apply same_remove_monitor_target; reflexivity.
Qed.

Lemma NoDup_keys_split {V} (pre post : dict V) k v :
  NoDup (dict_keys (pre ++ (k, v) :: post)) ->
  (forall x, x ∈ pre -> x.1 <> k) /\ (forall x, x ∈ post -> x.1 <> k) /\
  dict_get k (pre ++ (k, v) :: post) = Some v.
Proof.
  unfold dict_keys. rewrite fmap_app, fmap_cons. simpl. intros Hnd.
  apply NoDup_app in Hnd as (_ & Hdisj & Hnd2). apply NoDup_cons in Hnd2 as [Hk _].
  assert (Hpre : forall x, x ∈ pre -> x.1 <> k).
  { intros x Hx Heq. apply (Hdisj k); [|left].
    rewrite <- Heq. apply list_elem_of_fmap_2, Hx. }
  split; [exact Hpre|]. split.
  - intros x Hx Heq. apply Hk. rewrite <- Heq. apply list_elem_of_fmap_2, Hx.
  - clear -Hpre. induction pre as [|[k0 v0] pre IH]; simpl.
    + rewrite Z.eqb_refl. reflexivity.
    + destruct (Z.eqb_spec k0 k) as [->|_].
      * exfalso. apply (Hpre (k, v0)); [left|reflexivity].
      * apply IH. intros x Hx. apply Hpre. right. exact Hx.
Qed.

(** C3.  [check_monitor_targets] checks every target of the registry (as it
    is when the loop starts, keys being distinct) and returns.  For the
    target [t] stored under [k]: when its turn comes the registry still
    holds [t] under [k]; the refetch of [k] then decides.  If it raises the
    not-found error, the target is removed.  If it raises anything else,
    the entry is left as it is.  If it returns a listing updated strictly
    after [last_update t], "updated" is notified and the entry has the id
    of [t], the new update time and staleness 0.  Otherwise the entry has
    the id and the update time of [t] and as staleness the time elapsed
    since [last_update t]; when that exceeds [expire_threshold] seconds,
    "expired" is notified and the target is removed.  What the check did to
    the entry of [k] is what the registry shows when the loop ends.  The
    threshold is below 2^34 seconds, some 544 years: up to there the
    comparison of the source, made on the float of the elapsed seconds, is
    the comparison of the exact values. *)
Theorem check_monitor_targets_lifecycle `{E : Env} (self : XIVPFMonitor) pre k t post :
  NoDup (dict_keys (monitor_targets self)) ->
  monitor_targets self = pre ++ (k, t) :: post ->
  0 <= expire_threshold self < 2 ^ 34 ->
  exists before reply api' after final,
    for_each pre check_monitor_target self = Some (Ok tt, before) /\
    get_listing_detail k (api_client before) = Some (reply, api') /\
    check_monitor_target (k, t) before = Some (Ok tt, after) /\
    for_each post check_monitor_target after = Some (Ok tt, final) /\
    check_monitor_targets self = Some (Ok tt, final) /\
    dict_get k (monitor_targets before) = Some t /\
    dict_get k (monitor_targets final) = dict_get k (monitor_targets after) /\
    match reply with
    | Raise e =>
        if decide (e = ValueError) then
          dict_get k (monitor_targets after) = None /\
          notifier after
          = notifier before ++ [StatusShown (ListingEnded k); StatusShown (StoppedMonitoring k)]
        else
          dict_get k (monitor_targets after) = Some t /\
          notifier after = notifier before ++ [ErrorLogged (InCheckMonitorTarget k) e]
    | Ok l =>
        if last_update t <? updated_at l then
          dict_get k (monitor_targets after)
          = Some (mkMonitorTarget (listing_id t) (updated_at l) 0) /\
          notifier after = notifier before ++ [NotifyUpdated l]
        else
          let elapsed := clock (world api') - last_update t in
          if expire_threshold self * 1000000 <? elapsed then
            dict_get k (monitor_targets after) = None /\
            notifier after
            = notifier before
                ++ [NotifyExpired l (ReasonNoUpdate (Z.quot (expire_threshold self) 60));
                    StatusShown (StoppedMonitoring k)]
          else
            dict_get k (monitor_targets after)
            = Some (mkMonitorTarget (listing_id t) (last_update t) elapsed) /\
            notifier after = notifier before
    end.
Proof.
  intros Hnd Hsplit Hrange. rewrite Hsplit in Hnd.
  destruct (NoDup_keys_split _ _ _ _ Hnd) as (Hpre & Hpost & Hget).
  destruct (for_each_check_succeeds pre self) as (before & Hbefore).
  destruct (get_listing_detail_returns k (api_client before)) as (reply & api' & Hreply).
  destruct (check_monitor_target_succeeds (k, t) before) as (after & Hafter).
  destruct (for_each_check_succeeds post after) as (final & Hfinal).
  exists before, reply, api', after, final.
  assert (Hkb : dict_get k (monitor_targets before) = Some t).
  { rewrite <- Hget, <- Hsplit.
    refine (keeps_for_each_in (same (fun s => dict_get k (monitor_targets s))) pre _ _
              self _ _ Hbefore).
    intros [k' t'] Hx. apply check_monitor_target_other. apply (Hpre _ Hx). }
  assert (Hthr : expire_threshold before = expire_threshold self).
  { refine (keeps_for_each (same expire_threshold) pre _ _ self _ _ Hbefore).
    intros x. apply check_monitor_target_threshold. }
  assert (Hcontains : dict_contains k (monitor_targets before) = true).
  { unfold dict_contains. rewrite Hkb. reflexivity. }
  assert (Hcmp : forall elapsed,
             int_lt_float (expire_threshold before) (total_seconds elapsed)
             = (expire_threshold self * 1000000 <? elapsed)).
  { intros elapsed. rewrite Hthr. unfold total_seconds. apply int_lt_true_divide; lia. }
  assert (Hmin : int_of_float (true_divide (expire_threshold before) 60)
                 = Z.quot (expire_threshold self) 60).
  { rewrite Hthr. apply int_of_true_divide; lia. }
  split; [exact Hbefore|]. split; [exact Hreply|]. split; [exact Hafter|].
  split; [exact Hfinal|]. split.
  { unfold check_monitor_targets, bind, get. rewrite Hsplit.
    rewrite for_each_app, Hbefore. cbn [for_each]. unfold bind at 1. rewrite Hafter.
    exact Hfinal. }
  split; [exact Hkb|]. split.
  { refine (keeps_for_each_in (same (fun s => dict_get k (monitor_targets s))) post _ _
              after _ _ Hfinal).
    intros [k' t'] Hx. apply check_monitor_target_other. apply (Hpost _ Hx). }
  rewrite check_monitor_target_run, Hreply in Hafter.
  destruct reply as [l|e]; cbv zeta in Hafter |- *.
  - destruct (last_update t <? updated_at l).
    + injection Hafter as <-. cbn [monitor_targets notifier update_target emit
                                   set_monitor_targets set_api_client].
      rewrite dict_get_replace_same, Hcontains. split; reflexivity.
    + unfold now in Hafter. cbn [api_client set_api_client] in Hafter.
      rewrite Hcmp, Hmin in Hafter.
      destruct (expire_threshold self * 1000000 <? clock (world api') - last_update t).
      * injection Hafter as <-. rewrite remove_monitor_target_get_same. split; [reflexivity|].
        rewrite remove_monitor_target_notifier. unfold removal_events.
        cbn [monitor_targets notifier update_target emit set_monitor_targets set_api_client].
        unfold dict_contains. rewrite dict_get_replace_same, Hcontains.
        cbn [is_not_none]. rewrite <- app_assoc. reflexivity.
      * injection Hafter as <-.
        cbn [monitor_targets notifier update_target emit set_monitor_targets set_api_client].
        rewrite dict_get_replace_same, Hcontains. split; reflexivity.
  - destruct (decide (e = ValueError)).
    + injection Hafter as <-. rewrite remove_monitor_target_get_same. split; [reflexivity|].
      rewrite remove_monitor_target_notifier. unfold removal_events.
      cbn [monitor_targets notifier emit set_api_client].
      rewrite Hcontains. rewrite <- app_assoc. reflexivity.
    + injection Hafter as <-. cbn [monitor_targets notifier emit set_api_client].
      split; [exact Hkb|reflexivity].
Qed.

(** The example of the specification: threshold 300 s, 301 s elapsed, no
    newer update time. *)
Lemma check_monitor_targets_lifecycle_witness :
  exists final,
    check_monitor_targets stale7 = Some (Ok tt, final) /\
    dict_get 7 (monitor_targets final) = None /\
    notifier final
    = [NotifyExpired listing7 (ReasonNoUpdate 5); StatusShown (StoppedMonitoring 7)].
Proof.
  destruct (check_monitor_targets_lifecycle (E := service_env knows7) stale7 [] 7 target7 [])
    as (before & reply & api' & after & final & Hb & Hr & _ & Hf & Hrun & _ & Hk & Hlife).
  - vm_compute. repeat constructor. intros H. inversion H.
  - reflexivity.
  - change (0 <= 300 < 2 ^ 34). lia.
  - injection Hb as <-. injection Hf as <-.
    assert (Hreply : reply = Ok listing7).
    { assert (Hv : value_of (get_listing_detail (E := service_env knows7) 7
                               (api_client stale7)) = Some (Ok listing7))
        by (vm_compute; reflexivity).
      rewrite Hr in Hv. injection Hv as ->. reflexivity. }
    assert (Hclock : clock (world api') = 301000000).
    { assert (Hv : clock (world (state_of (api_client stale7)
                                   (get_listing_detail (E := service_env knows7) 7
                                      (api_client stale7)))) = 301000000)
        by (vm_compute; reflexivity).
      rewrite Hr in Hv. exact Hv. }
    rewrite Hreply, Hclock in Hlife.
    exists after. split; [exact Hrun|]. exact Hlife.
Defined.

(* ===================================================================== *)
(** * Failure isolation *)
(* ===================================================================== *)

Lemma search_all_app `{E : Env} fuel pre rest acc (s : XIVPFMonitor) :
  search_all fuel (pre ++ rest) acc s
  = match search_all fuel pre acc s with
    | Some (Ok acc1, s1) => search_all fuel rest acc1 s1
    | other => other
    end.
Proof.
  revert acc s. induction pre as [|[c n] pre IH]; intros acc s; simpl; [reflexivity|].
  unfold bind. destruct (search_listings fuel c n true s) as [[[ls|e] s1]|];
    [apply IH|reflexivity|reflexivity].
Qed.

Lemma search_listings_no_raise `{E : Env} fuel c n notify (s : XIVPFMonitor) e s' :
  search_listings fuel c n notify s <> Some (Raise e, s').
Proof.
  unfold search_listings, try_except.
  destruct (search_listings_try fuel c n notify s) as [[[ls|e'] s1]|]; discriminate.
Qed.

Lemma search_all_no_raise `{E : Env} fuel conds acc (s : XIVPFMonitor) e s' :
  search_all fuel conds acc s <> Some (Raise e, s').
Proof.
  revert acc s. induction conds as [|[c n] rest IH]; intros acc s; simpl; [discriminate|].
  unfold bind. destruct (search_listings fuel c n true s) as [[[ls|e'] s1]|] eqn:Hs.
  - apply IH.
  - exfalso. exact (search_listings_no_raise _ _ _ _ _ _ _ Hs).
  - discriminate.
Qed.

(** C8.  A condition whose search raises (a transport error, a malformed
    reply, a failure while a detail is fetched) contributes the empty list
    and an error log entry, and the loop over the conditions goes on with
    the conditions after it, the results before it kept; the loop never
    raises.  A target whose refetch raises is removed (not found) or left
    alone with an error log entry (anything else), and the loop over the
    targets goes on with the targets after it; that loop always runs to
    its end. *)
Theorem failure_isolation `{E : Env} :
  (forall fuel pre c n post acc (self : XIVPFMonitor) acc1 s1 e s2,
      search_all fuel pre acc self = Some (Ok acc1, s1) ->
      search_listings_try fuel c n true s1 = Some (Raise e, s2) ->
      search_listings fuel c n true s1
        = Some (Ok [], emit (ErrorLogged InSearchListings e) s2) /\
      search_all fuel (pre ++ (c, n) :: post) acc self
        = search_all fuel post acc1 (emit (ErrorLogged InSearchListings e) s2))
  /\ (forall fuel conds acc (self : XIVPFMonitor) e s',
         search_all fuel conds acc self <> Some (Raise e, s'))
  /\ (forall pre k t post (self : XIVPFMonitor) s1 e a,
         for_each pre check_monitor_target self = Some (Ok tt, s1) ->
         get_listing_detail k (api_client s1) = Some (Raise e, a) ->
         for_each (pre ++ (k, t) :: post) check_monitor_target self
         = for_each post check_monitor_target
             (if decide (e = ValueError)
              then remove_monitor_target k
                     (emit (StatusShown (ListingEnded k)) (set_api_client a s1))
              else emit (ErrorLogged (InCheckMonitorTarget k) e) (set_api_client a s1)))
  /\ (forall targets (self : XIVPFMonitor),
         exists final, for_each targets check_monitor_target self = Some (Ok tt, final)).
Proof.
  split; [|split; [|split]].
  - intros fuel pre c n post acc self acc1 s1 e s2 Hpre Hfail.
    assert (Hs : search_listings fuel c n true s1
                 = Some (Ok [], emit (ErrorLogged InSearchListings e) s2)).
    { unfold search_listings, try_except. rewrite Hfail. reflexivity. }
    split; [exact Hs|].
    rewrite search_all_app, Hpre. cbn [search_all]. unfold bind at 1. rewrite Hs.
    rewrite app_nil_r. reflexivity.
  - intros. apply search_all_no_raise.
  - intros pre k t post self s1 e a Hpre Hfail.
    rewrite for_each_app, Hpre. cbn [for_each]. unfold bind at 1.
    rewrite check_monitor_target_run, Hfail. cbv zeta.
    destruct (decide (e = ValueError)); reflexivity.
  - intros. apply for_each_check_succeeds.
Qed.

(** A run of the target loop in which the first refetch fails in the
    transport: listing 8 stays tracked, and listing 7 is still checked (its
    staleness is now one second). *)
Lemma failure_isolation_witness :
  for_each [(8, target8); (7, target7)] check_monitor_target tracks8and7
  = for_each [(7, target7)] check_monitor_target
      (emit (ErrorLogged (InCheckMonitorTarget 8) ClientError)
         (set_api_client
            (@mkApi (service_env breaks8) true 1000000
               [DetailCall 8 (ReplyError ClientError)])
            tracks8and7))
  /\ exists final,
       check_monitor_targets tracks8and7 = Some (Ok tt, final) /\
       monitor_targets final = [(8, target8); (7, mkMonitorTarget 7 0 1000000)].
Proof.
  split.
  - destruct (failure_isolation (E := service_env breaks8)) as (_ & _ & Htargets & _).
    apply (Htargets [] 8 target8 [(7, target7)] tracks8and7 tracks8and7 ClientError);
      reflexivity.
  - exists (state_of tracks8and7 (check_monitor_targets tracks8and7)).
    split; [apply run_value; vm_compute; reflexivity|]. vm_compute. reflexivity.
Defined.

(** A search whose detail fetch fails in the transport contributes
    nothing, and the condition after it is still searched. *)
Lemma failure_isolation_search_example :
  exists s',
    search_all (E := service_env breaks8) 5
      [(wants_free_slot, "first"); (no_filter, "second")] [] tracks8and7
    = Some (Ok [listing8; listing7], s') /\
    filter (fun e => is_search_error e = true) (notifier s')
    = [ErrorLogged InSearchListings ClientError].
Proof.
  exists (state_of tracks8and7
            (search_all (E := service_env breaks8) 5
               [(wants_free_slot, "first"); (no_filter, "second")] [] tracks8and7)).
  split; [apply run_value; vm_compute; reflexivity|]. vm_compute. reflexivity.
Qed.

(* ===================================================================== *)
(** * The display without monitor targets *)
(* ===================================================================== *)

(** A search changes the client, the notifier and the notified record,
    and no other field. *)
Lemma same_search_listings `{E : Env} {B} (field : XIVPFMonitor -> B)
    fuel condition filter_name notify :
  (forall a s, field (set_api_client a s) = field s) ->
  (forall e s, field (emit e s) = field s) ->
  (forall n s, field (set_notified_listings n s) = field s) ->
  keeps (same field) (search_listings fuel condition filter_name notify).
Proof.
  intros Ha He Hn. unfold search_listings, search_listings_try.
  repeat keeps_step; try (unfold same; auto).
  unfold notify_new. destruct notify; [|reflexivity].
  destruct (new_listings_of _ _); [reflexivity|]. rewrite Hn. apply He.
Qed.

Lemma same_search_all `{E : Env} {B} (field : XIVPFMonitor -> B) fuel conds acc :
  (forall a s, field (set_api_client a s) = field s) ->
  (forall e s, field (emit e s) = field s) ->
  (forall n s, field (set_notified_listings n s) = field s) ->
  keeps (same field) (search_all fuel conds acc).
Proof.
  intros Ha He Hn. revert acc. induction conds as [|[c n] rest IH]; intros acc; simpl.
  - keeps_step.
  - keeps_step; [apply same_search_listings; assumption|apply IH].
Qed.

Lemma display_new_listings_cases `{E : Env} all (self : XIVPFMonitor) :
  display_new_listings all self
  = if decide (id_set all ⊆ last_displayed_ids self) then self
    else set_last_displayed_ids (id_set all) (emit (ListingsTableShown all 20) self).
Proof.
  unfold display_new_listings. destruct all as [|x rest].
  - rewrite decide_True; [reflexivity|]. unfold id_set. simpl. apply empty_subseteq.
  - set (current := id_set (x :: rest)).
    destruct (decide (current ⊆ last_displayed_ids self)) as [Hsub|Hsub].
    + rewrite bool_decide_eq_true_2; [reflexivity|].
      apply set_eq. intros y. rewrite elem_of_difference. split.
      * intros [Hy Hn]. exfalso. apply Hn, Hsub, Hy.
      * intros Hy. exfalso. exact (not_elem_of_empty y Hy).
    + rewrite bool_decide_eq_false_2; [reflexivity|].
      intros Hempty. apply Hsub. intros y Hy.
      destruct (decide (y ∈ last_displayed_ids self)) as [Hin|Hout]; [exact Hin|].
      exfalso. assert (Hd : y ∈ current ∖ last_displayed_ids self).
      { apply elem_of_difference. split; assumption. }
      rewrite Hempty in Hd. exact (not_elem_of_empty y Hd).
Qed.

(** C9 (amended).  In a cycle that starts without monitor targets, whose
    searches return and whose sort succeeds, the listings table is shown
    and the last-shown set becomes the set of current result ids exactly
    when some current result id is not in the last-shown set; when every
    current id is in it (the sets are equal, ids have only disappeared, or
    there is no result at all) nothing is shown and the last-shown set is
    left as it is. *)
Theorem display_on_new `{E : Env} fuel conds enable (self : XIVPFMonitor) merged s1 sorted :
  monitor_targets self = [] ->
  search_all fuel conds [] self = Some (Ok merged, s1) ->
  sort_listings merged = Ok sorted ->
  continuous_search_try fuel conds enable self
    = Some (Ok tt, sleep_interval
                     (emit (StatusShown (CheckDone (length sorted) 0))
                        (display_new_listings sorted s1))) /\
  last_displayed_ids s1 = last_displayed_ids self /\
  (id_set sorted ⊆ last_displayed_ids self ->
   display_new_listings sorted s1 = s1) /\
  (id_set sorted ⊈ last_displayed_ids self ->
   display_new_listings sorted s1
   = set_last_displayed_ids (id_set sorted) (emit (ListingsTableShown sorted 20) s1)).
Proof.
  intros Hnone Hsearch Hsort.
  assert (Ht : monitor_targets s1 = []).
  { rewrite <- Hnone. refine (same_search_all monitor_targets fuel conds [] _ _ _ _ _ _ Hsearch);
      reflexivity. }
  assert (Hd : last_displayed_ids s1 = last_displayed_ids self).
  { refine (same_search_all last_displayed_ids fuel conds [] _ _ _ _ _ _ Hsearch);
      reflexivity. }
  split; [|split; [exact Hd|split]].
  - unfold continuous_search_try. unfold bind at 1. rewrite Hsearch.
    unfold bind at 1. unfold lift_result. rewrite Hsort.
    unfold bind, get, modify. rewrite Ht. cbn [monitor_targets display_new_listings].
    assert (Ht' : monitor_targets (display_new_listings sorted s1) = []).
    { rewrite display_new_listings_cases. destruct (decide _); [exact Ht|exact Ht]. }
    rewrite Ht'. reflexivity.
  - intros Hsub. rewrite display_new_listings_cases, Hd. rewrite decide_True; auto.
  - intros Hsub. rewrite display_new_listings_cases, Hd. rewrite decide_False; auto.
Qed.

Lemma display_on_new_witness :
  exists s1,
    continuous_search_try (E := service_env one_listing) 5 [(no_filter, "all")] true
      (monitor_of one_listing 0 [] [] ∅)
    = Some (Ok tt, sleep_interval
                     (emit (StatusShown (CheckDone 1 0))
                        (display_new_listings [listing_of 1 10 0] s1))) /\
    display_new_listings [listing_of 1 10 0] s1
    = set_last_displayed_ids (id_set [listing_of 1 10 0])
        (emit (ListingsTableShown [listing_of 1 10 0] 20) s1).
Proof.
  assert (Hsearch :
            search_all (E := service_env one_listing) 5 [(no_filter, "all")] []
              (monitor_of one_listing 0 [] [] ∅)
            = Some (Ok [listing_of 1 10 0],
                    state_of (monitor_of one_listing 0 [] [] ∅)
                      (search_all (E := service_env one_listing) 5 [(no_filter, "all")] []
                         (monitor_of one_listing 0 [] [] ∅)))).
  { apply run_value. vm_compute. reflexivity. }
  eexists.
  destruct (display_on_new (E := service_env one_listing) 5 [(no_filter, "all")] true
              (monitor_of one_listing 0 [] [] ∅) _ _ [listing_of 1 10 0]
              eq_refl Hsearch eq_refl) as (Hrun & _ & _ & Hshow).
  split; [exact Hrun|]. apply Hshow. intros H. specialize (H 1).
  apply (not_elem_of_empty (C := gset Z) 1). apply H. decide_prop.
Defined.

(** C9 as stated fails when ids have only disappeared: the monitor has
    last shown listings 1 and 2, the cycle finds listing 1 alone, so the two
    sets differ; yet no table is shown and the last-shown set stays. *)
Lemma display_on_new_counterexample :
  id_set [listing_of 1 10 0] <> ({[1; 2]} : gset Z) /\
  exists go s',
    continuous_search_iteration (E := service_env one_listing) 5 [(no_filter, "all")] true
      shown12 = Some (Ok go, s') /\
    filter (fun e => is_table e = true) (notifier s') = [] /\
    last_displayed_ids s' = {[1; 2]}.
Proof.
  split; [decide_prop|]. exists true.
  exists (state_of shown12
            (continuous_search_iteration (E := service_env one_listing) 5
               [(no_filter, "all")] true shown12)).
  split; [apply run_value; vm_compute; reflexivity|].
  split; vm_compute; reflexivity.
Qed.

(* ===================================================================== *)
(** * The snapshot at the end of a cycle *)
(* ===================================================================== *)

Lemma show_monitor_target_succeeds `{E : Env} entry (s : XIVPFMonitor) :
  exists s', show_monitor_target entry s = Some (Ok tt, s').
Proof.
  destruct entry as [k t]. unfold show_monitor_target, try_except, bind, on_api, get, modify.
  destruct (get_listing_detail_returns k (api_client s)) as (r & a & ->).
  destruct r; eauto.
Qed.

Lemma show_monitor_targets_succeeds `{E : Env} (s : XIVPFMonitor) :
  exists s', show_monitor_targets s = Some (Ok tt, s').
Proof.
  unfold show_monitor_targets, bind, get. destruct (monitor_targets s) as [|x xs] eqn:Ht.
  - unfold ret. eauto.
  - unfold modify. generalize (emit (StatusShown (TargetsHeader (length (x :: xs)))) s).
    generalize (x :: xs). clear. intros entries.
    induction entries as [|y ys IH]; intros s; simpl; [unfold ret; eauto|].
    unfold bind. destruct (show_monitor_target_succeeds y s) as (s1 & ->). apply IH.
Qed.

(** Showing the targets changes the client and the notifier only. *)
Lemma same_show_monitor_targets `{E : Env} {B} (field : XIVPFMonitor -> B) :
  (forall a s, field (set_api_client a s) = field s) ->
  (forall e s, field (emit e s) = field s) ->
  keeps (same field) show_monitor_targets.
Proof.
  intros Ha He. unfold show_monitor_targets.
  assert (Hone : forall entry, keeps (same field) (show_monitor_target entry)).
  { intros [k t]. unfold show_monitor_target. repeat keeps_step; unfold same; auto. }
  repeat keeps_step; first [apply Hone | unfold same; auto].
Qed.

Lemma same_check_monitor_targets `{E : Env} {B} (field : XIVPFMonitor -> B) :
  (forall a s, field (set_api_client a s) = field s) ->
  (forall e s, field (emit e s) = field s) ->
  (forall d s, field (set_monitor_targets d s) = field s) ->
  keeps (same field) check_monitor_targets.
Proof.
  intros Ha He Hd. unfold check_monitor_targets.
  assert (Hone : forall entry, keeps (same field) (check_monitor_target entry)).
  { intros [k t]. unfold check_monitor_target.
    repeat keeps_step;
      try (unfold same, update_target; auto);
      apply same_remove_monitor_target; intros; rewrite He; apply Hd. }
  repeat keeps_step. apply Hone.
Qed.

Lemma display_new_listings_last_listings `{E : Env} all (s : XIVPFMonitor) :
  last_listings (display_new_listings all s) = last_listings s.
Proof. rewrite display_new_listings_cases. destruct (decide _); reflexivity. Qed.


(* ===================================================================== *)
(** * Further properties of the client *)
(* ===================================================================== *)

Lemma keep_str_some o s : keep_str o = Some s <-> o = Some s /\ s <> "".
Proof.
  unfold keep_str, truthy_str. destruct o as [t|]; [|split; [discriminate|intros [H _]; discriminate]].
  destruct (String.eqb_spec t ""); simpl; split.
  - discriminate.
  - intros [[= ->] Hne]. contradiction.
  - intros [= ->]. auto.
  - intros [H _]. exact H.
Qed.

Lemma keep_list_some {A} (o : option (list A)) l : keep_list o = Some l <-> o = Some l /\ l <> [].
Proof.
  unfold keep_list, truthy_list. destruct o as [[|x xs]|]; split;
    try discriminate; try (intros [H _]; discriminate).
  - intros [[= <-] Hne]. contradiction.
  - intros [= <-]. split; [reflexivity|discriminate].
  - intros [H _]. exact H.
Qed.

(** The query stage.  The request of [get_listings] carries the page as
    given and a page size of at most 100; a filter key is sent exactly when
    the condition gives the field a non-empty value, and then with that
    value; the detail-level fields of the condition are never sent: two
    conditions with the same query-level fields give the same request. *)
Theorem build_params_query_stage page per_page fc :
  param_page (build_params page per_page (Some fc)) = page /\
  param_per_page (build_params page per_page (Some fc)) = Z.min per_page 100 /\
  param_per_page (build_params page per_page (Some fc)) <= 100 /\
  (forall s, param_category (build_params page per_page (Some fc)) = Some s
             <-> fc_category fc = Some s /\ s <> "") /\
  (forall s, param_world (build_params page per_page (Some fc)) = Some s
             <-> fc_world fc = Some s /\ s <> "") /\
  (forall s, param_datacenter (build_params page per_page (Some fc)) = Some s
             <-> fc_datacenter fc = Some s /\ s <> "") /\
  (forall s, param_search (build_params page per_page (Some fc)) = Some s
             <-> fc_search fc = Some s /\ s <> "") /\
  (forall l, param_jobs (build_params page per_page (Some fc)) = Some l
             <-> fc_jobs fc = Some l /\ l <> []) /\
  (forall l, param_duty (build_params page per_page (Some fc)) = Some l
             <-> fc_duty fc = Some l /\ l <> []) /\
  (forall fc', same_query_fields fc fc' ->
               build_params page per_page (Some fc') = build_params page per_page (Some fc)).
Proof.
  cbn [build_params param_page param_per_page param_category param_world
       param_datacenter param_search param_jobs param_duty].
  split; [reflexivity|]. split; [reflexivity|]. split; [lia|].
  split; [intros s; apply keep_str_some|]. split; [intros s; apply keep_str_some|].
  split; [intros s; apply keep_str_some|]. split; [intros s; apply keep_str_some|].
  split; [intros l; apply keep_list_some|]. split; [intros l; apply keep_list_some|].
  intros fc' (H1 & H2 & H3 & H4 & H5 & H6). rewrite H1, H2, H3, H4, H5, H6. reflexivity.
Qed.

(** Without a session no request leaves the client: [get_listings],
    [get_listing_detail], [get_all_listings] and, for a condition with a
    detail-level filter, [check_advanced_filters] raise [RuntimeError] and
    leave the client as it was. *)
Theorem no_session_no_request `{E : Env} api :
  session api = false ->
  (forall page per_page fc,
      get_listings page per_page fc api = Some (Raise RuntimeError, api)) /\
  (forall k, get_listing_detail k api = Some (Raise RuntimeError, api)) /\
  (forall fuel fc max_pages,
      get_all_listings (S fuel) fc max_pages api = Some (Raise RuntimeError, api)) /\
  (forall listing fc,
      any_advanced_filter fc = true ->
      check_advanced_filters listing fc api = Some (Raise RuntimeError, api)).
Proof.
  intros Hs.
  assert (Hl : forall page per_page fc,
             get_listings page per_page fc api = Some (Raise RuntimeError, api)).
  { intros. unfold get_listings. rewrite Hs. reflexivity. }
  assert (Hd : forall k, get_listing_detail k api = Some (Raise RuntimeError, api)).
  { intros. unfold get_listing_detail. rewrite Hs. reflexivity. }
  split; [exact Hl|]. split; [exact Hd|]. split.
  - intros. unfold get_all_listings. cbn [get_all_listings_loop]. unfold bind.
    rewrite Hl. reflexivity.
  - intros listing fc Hany. unfold check_advanced_filters. rewrite Hany. simpl.
    unfold bind, try_except. rewrite Hd. reflexivity.
Qed.

Lemma no_session_no_request_witness :
  get_all_listings (E := service_env three_pages) 3 None None (closed_client three_pages)
  = Some (Raise RuntimeError, closed_client three_pages).
Proof.
  destruct (no_session_no_request (E := service_env three_pages) (closed_client three_pages))
    as (_ & _ & Hall & _); [reflexivity|].
  apply Hall.
Defined.

(** One iteration of the fetch loop adds at most one exchange. *)
Lemma get_listings_exchanges `{E : Env} page per_page fc api r api' :
  get_listings page per_page fc api = Some (r, api') ->
  exists new, exchanges api' = exchanges api ++ new /\ (length new <= 1)%nat.
Proof.
  unfold get_listings. destruct (negb (session api)).
  - intros [= <- <-]. exists []. rewrite app_nil_r. split; [reflexivity|simpl; lia].
  - destruct (http_get_listings _ _) as [r' w]. intros [= <- <-].
    eexists. split; [reflexivity|simpl; lia].
Qed.

Lemma get_all_listings_loop_cap `{E : Env} fc m :
  forall (k : nat) fuel page acc api,
    Z.to_nat (m - page) = k -> m <> 0 -> (k < fuel)%nat ->
    exists r api' new,
      get_all_listings_loop fuel fc (Some m) page acc api = Some (r, api') /\
      exchanges api' = exchanges api ++ new /\ (length new <= S k)%nat.
Proof.
  induction k as [|k IH]; intros fuel page acc api Hk Hm Hfuel;
    (destruct fuel as [|fuel]; [lia|]); cbn [get_all_listings_loop]; unfold bind.
  - destruct (get_listings page 100 fc api) as [[[resp|e] api1]|] eqn:Hget.
    + destruct (get_listings_exchanges _ _ _ _ _ _ Hget) as (new & Hnew & Hlen).
      assert (Hhit : max_pages_hit (Some m) page = true).
      { unfold max_pages_hit. destruct (Z.eqb_spec m 0); [contradiction|].
        simpl. apply Z.leb_le. lia. }
      rewrite Hhit. destruct (_ <=? page); unfold ret; eauto 6.
    + destruct (get_listings_exchanges _ _ _ _ _ _ Hget) as (new & Hnew & Hlen). eauto 6.
    + unfold get_listings in Hget. destruct (negb (session api)); [discriminate|].
      destruct (http_get_listings _ _); discriminate.
  - destruct (get_listings page 100 fc api) as [[[resp|e] api1]|] eqn:Hget.
    + destruct (get_listings_exchanges _ _ _ _ _ _ Hget) as (new & Hnew & Hlen).
      destruct (_ <=? page); [unfold ret; exists (Ok (acc ++ data resp)), api1, new;
                              repeat split; [exact Hnew|lia]|].
      destruct (max_pages_hit (Some m) page);
        [unfold ret; exists (Ok (acc ++ data resp)), api1, new;
         repeat split; [exact Hnew|lia]|].
      destruct (IH fuel (page + 1) (acc ++ data resp) api1) as (r & api' & new' & Hrun & Hex & Hl);
        [lia|exact Hm|lia|].
      exists r, api', (new ++ new'). split; [exact Hrun|]. split.
      * rewrite Hex, Hnew, app_assoc. reflexivity.
      * rewrite length_app. lia.
    + destruct (get_listings_exchanges _ _ _ _ _ _ Hget) as (new & Hnew & Hlen).
      exists (Raise e), api1, new. repeat split; [exact Hnew|lia].
    + unfold get_listings in Hget. destruct (negb (session api)); [discriminate|].
      destruct (http_get_listings _ _); discriminate.
Qed.

(** A cap bounds the requests whatever the service answers: with
    [max_pages = m >= 1] and fuel for [m] iterations, [get_all_listings]
    ends (with a list or with the exception of a failed fetch) after at
    most [m] requests. *)
Theorem get_all_listings_cap `{E : Env} fc m fuel api :
  1 <= m ->
  (Z.to_nat m <= fuel)%nat ->
  exists r api' new,
    get_all_listings fuel fc (Some m) api = Some (r, api') /\
    exchanges api' = exchanges api ++ new /\
    (length new <= Z.to_nat m)%nat.
Proof.
  intros Hm Hfuel.
  destruct (get_all_listings_loop_cap fc m (Z.to_nat (m - 1)) fuel 1 [] api eq_refl)
    as (r & api' & new & Hrun & Hex & Hlen); [lia|lia|].
  exists r, api', new. repeat split; [exact Hrun|exact Hex|lia].
Qed.

Lemma get_all_listings_cap_witness :
  exists r api' new,
    get_all_listings (E := endless_env) 2 None (Some 2) (@mkApi endless_env true tt [])
    = Some (r, api') /\
    exchanges api' = [] ++ new /\ (length new <= 2)%nat.
Proof.
  apply (get_all_listings_cap (E := endless_env) None 2 2 (@mkApi endless_env true tt []));
    [lia|simpl; lia].
Defined.

(** Without a cap the loop has no bound of its own: against a service
    that always reports more pages than the page asked for,
    [get_all_listings] does not return, however many iterations it is
    given (a cap of 0 is no cap). *)
Theorem get_all_listings_runaway `{E : Env} fc max_pages api :
  session api = true ->
  always_more_pages ->
  max_pages = None \/ max_pages = Some 0 ->
  forall fuel, get_all_listings fuel fc max_pages api = None.
Proof.
  intros Hs Hmore Hcap fuel. unfold get_all_listings.
  generalize 1 at 1. generalize (@nil Listing). revert api Hs.
  induction fuel as [|fuel IH]; intros api Hs acc page; [reflexivity|].
  cbn [get_all_listings_loop]. unfold bind.
  destruct (Hmore (build_params page 100 fc) (world api)) as (resp & Hr & Hlt).
  destruct (get_listings_ok page 100 fc api resp Hs Hr) as (w & ->).
  rewrite build_params_page in Hlt.
  destruct (Z.leb_spec (total_pages (pagination resp)) page); [lia|].
  assert (Hhit : max_pages_hit max_pages page = false)
    by (destruct Hcap as [-> | ->]; reflexivity).
  rewrite Hhit. apply IH. reflexivity.
Qed.

Lemma get_all_listings_runaway_witness :
  get_all_listings (E := endless_env) 1000 None None (@mkApi endless_env true tt []) = None.
Proof.
  apply (get_all_listings_runaway (E := endless_env)); [reflexivity| |left; reflexivity].
  intros p w. eexists. split; [reflexivity|]. simpl. lia.
Defined.

Lemma check_advanced_filters_exchanges `{E : Env} listing fc api b api' :
  check_advanced_filters listing fc api = Some (Ok b, api') ->
  if any_advanced_filter fc
  then exists r, exchanges api' = exchanges api ++ [DetailCall (id listing) r]
  else api' = api /\ b = true.
Proof.
  unfold check_advanced_filters. destruct (any_advanced_filter fc); simpl.
  - unfold bind, try_except, get_listing_detail, ret, raise.
    destruct (negb (session api)); simpl; [discriminate|].
    destruct (http_get_listing (id listing) (world api)) as [[|l|e] w]; simpl.
    + intros [= <- <-]. simpl. eauto.
    + intros [= <- <-]. simpl. eauto.
    + destruct (decide (e = ValueError)); simpl; [|discriminate].
      intros [= <- <-]. simpl. eauto.
  - intros [= <- <-]. auto.
Qed.

(** The detail filter over a page of listings.  When the loop of
    [search_listings] comes to its end, the listings kept are a
    subsequence of the listings given; with a detail-level filter in the
    condition it has asked for the detail of every listing, once each and
    in the order of the listings, and without one it has asked nothing and
    kept every listing. *)
Theorem apply_advanced_filters_requests `{E : Env} listings fc acc api out api' :
  apply_advanced_filters listings fc acc api = Some (Ok out, api') ->
  exists kept new,
    out = acc ++ kept /\
    kept `sublist_of` listings /\
    exchanges api' = exchanges api ++ new /\
    detail_call_id <$> new
    = (if any_advanced_filter fc then Some <$> (id <$> listings) else []) /\
    (any_advanced_filter fc = false -> kept = listings /\ api' = api).
Proof.
  revert acc api. induction listings as [|l rest IH]; intros acc api Hrun.
  - injection Hrun as <- <-. exists [], []. rewrite !app_nil_r.
    split; [reflexivity|]. split; [constructor|]. split; [reflexivity|].
    split; [destruct (any_advanced_filter fc); reflexivity|].
    intros _. split; reflexivity.
  - cbn [apply_advanced_filters] in Hrun. unfold bind at 1 in Hrun.
    destruct (check_advanced_filters l fc api) as [[[b|e] api1]|] eqn:Hcheck;
      [|discriminate|discriminate].
    apply check_advanced_filters_exchanges in Hcheck.
    destruct (IH _ _ Hrun) as (kept & new & Hout & Hsub & Hex & Hids & Hnone).
    destruct (any_advanced_filter fc) eqn:Hany.
    + destruct Hcheck as [r Hex1].
      exists (if b then l :: kept else kept), (DetailCall (id l) r :: new).
      split; [destruct b; [rewrite Hout, <- app_assoc|rewrite Hout]; reflexivity|].
      split; [destruct b; [apply sublist_skip|apply sublist_cons]; exact Hsub|].
      split; [rewrite Hex, Hex1, <- app_assoc; reflexivity|].
      split; [rewrite !fmap_cons, Hids; reflexivity|discriminate].
    + destruct Hcheck as [-> ->]. destruct (Hnone eq_refl) as [-> ->].
      exists (l :: rest), new.
      split; [rewrite Hout, <- app_assoc; reflexivity|].
      split; [reflexivity|]. split; [exact Hex|]. split; [exact Hids|].
      intros _. split; reflexivity.
Qed.

Lemma apply_advanced_filters_requests_witness :
  exists kept new,
    [listing7] = [] ++ kept /\
    kept `sublist_of` [listing7] /\
    exchanges (state_of (client_of knows7)
                 (apply_advanced_filters (E := service_env knows7) [listing7]
                    wants_free_slot [] (client_of knows7)))
    = exchanges (client_of knows7) ++ new /\
    detail_call_id <$> new = [Some 7].
Proof.
  destruct (apply_advanced_filters_requests (E := service_env knows7) [listing7]
              wants_free_slot [] (client_of knows7) [listing7]
              (state_of (client_of knows7)
                 (apply_advanced_filters (E := service_env knows7) [listing7]
                    wants_free_slot [] (client_of knows7))))
    as (kept & new & H1 & H2 & H3 & H4 & _).
  - apply run_value. vm_compute. reflexivity.
  - exists kept, new. repeat split; assumption.
Defined.

(* ===================================================================== *)
(** * Further properties of the registry *)
(* ===================================================================== *)

Lemma dict_keys_replace {V} k v (d : dict V) : dict_keys (dict_replace k v d) = dict_keys d.
Proof.
  unfold dict_keys. induction d as [|[k0 v0] d IH]; simpl; [reflexivity|].
  destruct (k0 =? k); simpl; [reflexivity|]. f_equal. exact IH.
Qed.

Lemma dict_keys_del {V} k (d : dict V) : dict_keys (dict_del k d) `sublist_of` dict_keys d.
Proof.
  unfold dict_keys. induction d as [|[k0 v0] d IH]; simpl; [constructor|].
  destruct (k0 =? k); [apply sublist_cons|apply sublist_skip]; exact IH.
Qed.

Lemma dict_get_setitem_same {V} k v (d : dict V) : dict_get k (dict_setitem k v d) = Some v.
Proof.
  unfold dict_setitem. destruct (dict_contains k d) eqn:Hc.
  - rewrite dict_get_replace_same, Hc. reflexivity.
  - unfold dict_contains in Hc. induction d as [|[k0 v0] d IH]; simpl in *.
    + rewrite Z.eqb_refl. reflexivity.
    + destruct (k0 =? k); [discriminate|]. apply IH, Hc.
Qed.

Lemma dict_get_setitem_other {V} k k' v (d : dict V) :
  k <> k' -> dict_get k' (dict_setitem k v d) = dict_get k' d.
Proof.
  intros Hne. unfold dict_setitem. destruct (dict_contains k d).
  - apply dict_get_replace_other, Hne.
  - induction d as [|[k0 v0] d IH]; simpl.
    + destruct (Z.eqb_spec k k'); [contradiction|reflexivity].
    + destruct (k0 =? k'); [reflexivity|exact IH].
Qed.

Lemma dict_keys_setitem {V} k v (d : dict V) :
  dict_keys (dict_setitem k v d)
  = if dict_contains k d then dict_keys d else dict_keys d ++ [k].
Proof.
  unfold dict_setitem. destruct (dict_contains k d).
  - apply dict_keys_replace.
  - unfold dict_keys. rewrite fmap_app. reflexivity.
Qed.

(** [add_monitor_target] always returns.  When the detail is fetched, the
    registry holds the id with the listing's update time and staleness 0,
    in the place the id had or, for a new id, at the end; every other entry
    is what it was.  When the fetch raises, the registry is left alone and
    the failure is logged and shown. *)
Theorem add_monitor_target_effect `{E : Env} k (self : XIVPFMonitor) :
  exists r a s',
    get_listing_detail k (api_client self) = Some (r, a) /\
    add_monitor_target k self = Some (Ok tt, s') /\
    api_client s' = a /\
    match r with
    | Ok l =>
        dict_get k (monitor_targets s') = Some (mkMonitorTarget k (updated_at l) 0) /\
        (forall k', k <> k' ->
                    dict_get k' (monitor_targets s') = dict_get k' (monitor_targets self)) /\
        dict_keys (monitor_targets s')
        = (if dict_contains k (monitor_targets self)
           then dict_keys (monitor_targets self)
           else dict_keys (monitor_targets self) ++ [k]) /\
        notifier s' = notifier self ++ [StatusShown (StartedMonitoring k (name l))]
    | Raise e =>
        monitor_targets s' = monitor_targets self /\
        notifier s'
        = notifier self ++ [ErrorLogged InAddMonitorTarget e; StatusShown (AddTargetFailed k)]
    end.
Proof.
  destruct (get_listing_detail_returns k (api_client self)) as (r & a & Hr).
  exists r, a. unfold add_monitor_target, try_except, bind, on_api, modify. rewrite Hr.
  destruct r as [l|e]; eexists; (split; [reflexivity|]); (split; [reflexivity|]);
    (split; [reflexivity|]); cbn [monitor_targets notifier emit set_monitor_targets
                                    set_api_client].
  - split; [apply dict_get_setitem_same|].
    split; [intros k' Hne; apply dict_get_setitem_other, Hne|].
    split; [apply dict_keys_setitem|reflexivity].
  - split; [reflexivity|]. rewrite <- app_assoc. reflexivity.
Qed.

(** [remove_monitor_target] deletes the entry of the id and no other, says
    so exactly when there was one, and is silent and without effect for an
    id that is not tracked; removing twice is removing once. *)
Theorem remove_monitor_target_effect `{E : Env} k (self : XIVPFMonitor) :
  dict_get k (monitor_targets (remove_monitor_target k self)) = None /\
  (forall k', k <> k' ->
              dict_get k' (monitor_targets (remove_monitor_target k self))
              = dict_get k' (monitor_targets self)) /\
  dict_keys (monitor_targets (remove_monitor_target k self))
    `sublist_of` dict_keys (monitor_targets self) /\
  notifier (remove_monitor_target k self)
  = notifier self ++ (if dict_contains k (monitor_targets self)
                      then [StatusShown (StoppedMonitoring k)] else []) /\
  (dict_contains k (monitor_targets self) = false -> remove_monitor_target k self = self) /\
  remove_monitor_target k (remove_monitor_target k self) = remove_monitor_target k self.
Proof.
  split; [apply remove_monitor_target_get_same|].
  split; [intros k' Hne; apply remove_monitor_target_get_other, Hne|].
  split.
  { unfold remove_monitor_target. destruct (dict_contains k (monitor_targets self));
      [apply dict_keys_del|reflexivity]. }
  split; [apply remove_monitor_target_notifier|].
  split.
  { intros Hc. unfold remove_monitor_target. rewrite Hc. reflexivity. }
  assert (Hgone : dict_contains k (monitor_targets (remove_monitor_target k self)) = false).
  { unfold dict_contains. rewrite remove_monitor_target_get_same. reflexivity. }
  unfold remove_monitor_target at 1. rewrite Hgone. reflexivity.
Qed.

Lemma keeps_weaken {S A} (R R' : relation S) (m : M S A) :
  (forall s s', R s s' -> R' s s') -> keeps R m -> keeps R' m.
Proof. intros HR Hm s r s' Hrun. apply HR. eapply Hm, Hrun. Qed.

#[export] Instance shrinks_preorder `{E : Env} : PreOrder shrinks.
Proof.
  split.
  - intros s. unfold shrinks. reflexivity.
  - intros s1 s2 s3 H1 H2. unfold shrinks in *. etransitivity; eassumption.
Qed.

Lemma same_targets_shrinks `{E : Env} (s s' : XIVPFMonitor) :
  same monitor_targets s s' -> shrinks s s'.
Proof. unfold same, shrinks. intros ->. reflexivity. Qed.

Lemma shrinks_remove_monitor_target `{E : Env} k (s : XIVPFMonitor) :
  shrinks s (remove_monitor_target k s).
Proof.
  unfold shrinks, remove_monitor_target.
  destruct (dict_contains k (monitor_targets s)); [apply dict_keys_del|reflexivity].
Qed.

Lemma shrinks_expire_targets `{E : Env} previous expired (s : XIVPFMonitor) :
  shrinks s (expire_targets previous expired s).
Proof.
  revert s. induction previous as [|l rest IH]; intros s; simpl; [reflexivity|].
  destruct (bool_decide (id l ∈ expired)); [|apply IH].
  etransitivity; [|apply IH]. apply (shrinks_remove_monitor_target (id l) (emit _ s)).
Qed.

Lemma shrinks_check_expired_by_order `{E : Env} listings (s : XIVPFMonitor) :
  shrinks s (check_expired_by_order listings s).
Proof.
  unfold check_expired_by_order. destruct (_ || _); [reflexivity|].
  destruct (last_listings s); [unfold shrinks; reflexivity|].
  cbv zeta. unfold shrinks. cbn [monitor_targets set_last_listings].
  apply (shrinks_expire_targets _ _ s).
Qed.

Lemma shrinks_check_monitor_targets `{E : Env} : keeps shrinks check_monitor_targets.
Proof.
  unfold check_monitor_targets.
  assert (Hone : forall entry, keeps shrinks (check_monitor_target entry)).
  { intros [k t]. unfold check_monitor_target.
    repeat keeps_step;
      first [ apply shrinks_remove_monitor_target
            | unfold shrinks, update_target; simpl; rewrite ?dict_keys_replace; reflexivity ]. }
  repeat keeps_step. apply Hone.
Qed.

Lemma shrinks_continuous_search_iteration `{E : Env} fuel conds enable :
  keeps shrinks (continuous_search_iteration fuel conds enable).
Proof.
  unfold continuous_search_iteration, continuous_search_try, check_targets_round.
  assert (Hquiet : forall f : XIVPFMonitor -> XIVPFMonitor,
             (forall s, monitor_targets (f s) = monitor_targets s) ->
             keeps shrinks (modify f)).
  { intros f Hf. apply keeps_modify. intros s. apply same_targets_shrinks, Hf. }
  keeps_step.
  - keeps_step; [|keeps_step].
    keeps_step.
    { apply (keeps_weaken (same monitor_targets)); [apply same_targets_shrinks|].
      apply same_search_all; reflexivity. }
    keeps_step; [keeps_step|]. keeps_step; [keeps_step|].
    keeps_step.
    + keeps_step.
      * apply Hquiet. intros s. rewrite display_new_listings_cases.
        destruct (decide _); reflexivity.
      * keeps_step.
        { apply (keeps_weaken (same monitor_targets)); [apply same_targets_shrinks|].
          apply same_show_monitor_targets; reflexivity. }
        keeps_step; [|apply shrinks_check_monitor_targets].
        repeat keeps_step. apply shrinks_check_expired_by_order.
    + keeps_step; [keeps_step|]. keeps_step; apply Hquiet; reflexivity.
  - keeps_step; [keeps_step|]. keeps_step; [|keeps_step].
    repeat (keeps_step; [apply Hquiet; reflexivity|]). keeps_step.
Qed.

(** A poll iteration never adds a target: however it ends, the ids in the
    registry afterwards are ids that were in it before, in the same
    order, and distinct if they were. *)
Theorem iteration_never_adds `{E : Env} fuel conds enable (self : XIVPFMonitor) r s' :
  continuous_search_iteration fuel conds enable self = Some (r, s') ->
  dict_keys (monitor_targets s') `sublist_of` dict_keys (monitor_targets self) /\
  (NoDup (dict_keys (monitor_targets self)) -> NoDup (dict_keys (monitor_targets s'))).
Proof.
  intros Hrun.
  assert (Hs : shrinks self s')
    by (eapply shrinks_continuous_search_iteration, Hrun).
  split; [exact Hs|]. intros Hnd. eapply sublist_NoDup; eassumption.
Qed.

Lemma iteration_never_adds_witness :
  dict_keys (monitor_targets after_one_iteration) `sublist_of` dict_keys (monitor_targets fresh).
Proof.
  refine (proj1 (iteration_never_adds (E := service_env three_pages) 5 [(no_filter, "all")]
                   true fresh (Ok true) after_one_iteration _)).
  refine (run_value fresh _ (Ok true) _). vm_compute. reflexivity.
Defined.

#[export] Instance keeps_keys_distinct_preorder `{E : Env} : PreOrder keeps_keys_distinct.
Proof.
  split.
  - intros s H. exact H.
  - intros s1 s2 s3 H1 H2 H. apply H2, H1, H.
Qed.

Lemma shrinks_keys_distinct `{E : Env} (s s' : XIVPFMonitor) :
  shrinks s s' -> keeps_keys_distinct s s'.
Proof. intros Hs Hnd. eapply sublist_NoDup; eassumption. Qed.

Lemma keys_distinct_add_monitor_target `{E : Env} k :
  keeps keeps_keys_distinct (add_monitor_target k).
Proof.
  assert (Hquiet : forall f : XIVPFMonitor -> XIVPFMonitor,
             (forall s, monitor_targets (f s) = monitor_targets s) ->
             keeps keeps_keys_distinct (modify f)).
  { intros f Hf. apply keeps_modify. intros s. unfold keeps_keys_distinct. rewrite Hf. auto. }
  unfold add_monitor_target. keeps_step.
  - keeps_step.
    + keeps_step. unfold keeps_keys_distinct. auto.
    + keeps_step; [|apply Hquiet; reflexivity]. keeps_step.
      unfold keeps_keys_distinct. simpl. rewrite dict_keys_setitem.
      destruct (dict_contains k (monitor_targets s)) eqn:Hc; [auto|].
      intros Hnd. apply NoDup_app. split; [exact Hnd|]. split.
      * intros x Hx Hk. apply list_elem_of_singleton in Hk. subst x.
        apply dict_contains_keys in Hx. congruence.
      * apply NoDup_singleton.
  - keeps_step; apply Hquiet; reflexivity.
Qed.

(** The keys of the registry stay distinct: from a registry with distinct
    ids (the empty one of a new monitor is one) no run of poll iterations,
    searches, additions, removals and the other methods reaches a registry
    that holds an id twice. *)
Theorem registry_keys_distinct `{E : Env} (self self' : XIVPFMonitor) :
  monitor_steps self self' ->
  NoDup (dict_keys (monitor_targets self)) ->
  NoDup (dict_keys (monitor_targets self')).
Proof.
  intros Hsteps. change (keeps_keys_distinct self self').
  induction Hsteps as [s|s1 s2 s3 Hstep _ IH]; [reflexivity|].
  etransitivity; [|exact IH]. clear IH. destruct Hstep.
  - apply shrinks_keys_distinct. eapply shrinks_continuous_search_iteration; eassumption.
  - apply shrinks_keys_distinct, same_targets_shrinks.
    eapply (same_search_listings monitor_targets); try eassumption; reflexivity.
  - eapply keys_distinct_add_monitor_target; eassumption.
  - apply shrinks_keys_distinct, shrinks_remove_monitor_target.
  - intros H. exact H.
  - intros H. exact H.
  - intros H. exact H.
Qed.

Lemma registry_keys_distinct_witness :
  NoDup (dict_keys (monitor_targets (remove_monitor_target 8 tracks8and7))).
Proof.
  apply (registry_keys_distinct (E := service_env breaks8) tracks8and7).
  - eapply steps_cons; [apply (step_remove 8)|apply steps_refl].
  - decide_prop.
Defined.

(** The order check reaches only ids of the previous snapshot: a target
    whose id does not occur in the snapshot keeps its entry whatever the
    current list is; an entry that is there after the check was there
    before, unchanged; and without a previous snapshot the check removes
    nothing and notifies nothing. *)
Theorem check_expired_by_order_scope `{E : Env} listings (self : XIVPFMonitor) :
  (forall k, k ∉ id <$> last_listings self ->
             dict_get k (monitor_targets (check_expired_by_order listings self))
             = dict_get k (monitor_targets self)) /\
  (forall k t, dict_get k (monitor_targets (check_expired_by_order listings self)) = Some t ->
               dict_get k (monitor_targets self) = Some t) /\
  (last_listings self = [] ->
   monitor_targets (check_expired_by_order listings self) = monitor_targets self /\
   notifier (check_expired_by_order listings self) = notifier self).
Proof.
  unfold check_expired_by_order. destruct (_ || _).
  { repeat split; auto. }
  destruct (last_listings self) as [|x rest] eqn:Hl.
  { repeat split; auto. }
  cbv zeta. cbn [monitor_targets notifier set_last_listings].
  match goal with
  | |- context [expire_targets ?p ?e self] =>
      destruct (expire_targets_spec p e self) as (_ & _ & Hg)
  end.
  split; [|split; [|discriminate]].
  - intros k Hk. rewrite Hg. rewrite bool_decide_eq_false_2; [reflexivity|]. tauto.
  - intros k t. rewrite Hg. destruct (bool_decide _); [discriminate|auto].
Qed.

Lemma show_monitor_target_run `{E : Env} k t (s : XIVPFMonitor) :
  exists a m,
    show_monitor_target (k, t) s
    = Some (Ok tt, emit (StatusShown m) (set_api_client a s)).
Proof.
  unfold show_monitor_target, try_except, bind, on_api, get, modify.
  destruct (get_listing_detail_returns k (api_client s)) as (r & a & ->).
  destruct r; eauto.
Qed.

Lemma for_each_show_monitor_target `{E : Env} entries (s : XIVPFMonitor) :
  exists s' new,
    for_each entries show_monitor_target s = Some (Ok tt, s') /\
    monitor_targets s' = monitor_targets s /\
    notified_listings s' = notified_listings s /\
    last_listings s' = last_listings s /\
    last_displayed_ids s' = last_displayed_ids s /\
    notifier s' = notifier s ++ new /\
    length new = length entries /\
    Forall (fun e => exists m, e = StatusShown m) new.
Proof.
  revert s. induction entries as [|[k t] rest IH]; intros s.
  - exists s, []. rewrite app_nil_r. repeat split; constructor.
  - cbn [for_each]. unfold bind at 1.
    destruct (show_monitor_target_run k t s) as (a & m & ->).
    destruct (IH (emit (StatusShown m) (set_api_client a s)))
      as (s' & new & Hrun & Ht & Hn & Hl & Hd & He & Hlen & Hall).
    exists s', (StatusShown m :: new).
    split; [exact Hrun|]. split; [rewrite Ht; reflexivity|].
    split; [rewrite Hn; reflexivity|]. split; [rewrite Hl; reflexivity|].
    split; [rewrite Hd; reflexivity|].
    split; [rewrite He; simpl; rewrite <- app_assoc; reflexivity|].
    split; [simpl; rewrite Hlen; reflexivity|]. constructor; eauto.
Qed.

(** [show_monitor_targets] is display only.  It always runs to its end,
    also when a lookup fails; it leaves the registry, the notified record,
    the snapshot and the last-shown set alone (no staleness advances); and
    it shows nothing for an empty registry, a header and one line per
    target otherwise. *)
Theorem show_monitor_targets_effect `{E : Env} (self : XIVPFMonitor) :
  exists s' new,
    show_monitor_targets self = Some (Ok tt, s') /\
    monitor_targets s' = monitor_targets self /\
    notified_listings s' = notified_listings self /\
    last_listings s' = last_listings self /\
    last_displayed_ids s' = last_displayed_ids self /\
    notifier s' = notifier self ++ new /\
    length new = match monitor_targets self with
                 | [] => 0%nat
                 | _ :: _ => S (length (monitor_targets self))
                 end /\
    Forall (fun e => exists m, e = StatusShown m) new.
Proof.
  unfold show_monitor_targets, bind, get. destruct (monitor_targets self) as [|x xs] eqn:Ht.
  - exists self, []. rewrite app_nil_r. unfold ret. repeat split; [auto|constructor].
  - unfold modify.
    destruct (for_each_show_monitor_target (x :: xs)
                (emit (StatusShown (TargetsHeader (length (x :: xs)))) self))
      as (s' & new & Hrun & Ht' & Hn & Hl & Hd & He & Hlen & Hall).
    exists s', (StatusShown (TargetsHeader (length (x :: xs))) :: new).
    split; [exact Hrun|]. split; [rewrite Ht'; exact Ht|].
    split; [exact Hn|]. split; [exact Hl|]. split; [exact Hd|].
    split; [rewrite He; simpl; rewrite <- app_assoc; reflexivity|].
    split; [simpl; rewrite Hlen; reflexivity|]. constructor; eauto.
Qed.

Lemma check_monitor_target_exchange `{E : Env} k t (s : XIVPFMonitor) :
  session (api_client s) = true ->
  exists s' r,
    check_monitor_target (k, t) s = Some (Ok tt, s') /\
    session (api_client s') = true /\
    exchanges (api_client s') = exchanges (api_client s) ++ [DetailCall k r].
Proof.
  intros Hs. rewrite check_monitor_target_run.
  unfold get_listing_detail. rewrite Hs. simpl.
  destruct (http_get_listing k (world (api_client s))) as [reply w].
  assert (Hrem : forall j (x : XIVPFMonitor),
             api_client (remove_monitor_target j x) = api_client x).
  { intros j x. unfold remove_monitor_target. destruct (dict_contains _ _); reflexivity. }
  destruct reply as [|l|e]; simpl.
  - eexists _, _. split; [reflexivity|]. rewrite Hrem. simpl. auto.
  - destruct (_ <? _); [eexists _, _; split; [reflexivity|simpl; auto]|].
    destruct (int_lt_float _ _); eexists _, _; (split; [reflexivity|]);
      rewrite ?Hrem; simpl; auto.
  - destruct (decide (e = ValueError)); eexists _, _; (split; [reflexivity|]);
      rewrite ?Hrem; simpl; auto.
Qed.

(** With the session open, [check_monitor_targets] asks for the detail of
    every target of the registry, once each and in registry order, and
    asks for nothing else. *)
Theorem check_monitor_targets_requests `{E : Env} (self : XIVPFMonitor) :
  session (api_client self) = true ->
  exists s' new,
    check_monitor_targets self = Some (Ok tt, s') /\
    exchanges (api_client s') = exchanges (api_client self) ++ new /\
    detail_call_id <$> new = Some <$> dict_keys (monitor_targets self).
Proof.
  intros Hs. unfold check_monitor_targets, bind, get.
  generalize (monitor_targets self) as entries. revert self Hs.
  intros s Hs entries. revert s Hs.
  induction entries as [|[k t] rest IH]; intros s Hs.
  - exists s, []. rewrite app_nil_r. repeat split.
  - cbn [for_each]. unfold bind at 1.
    destruct (check_monitor_target_exchange k t s Hs) as (s1 & r & -> & Hs1 & Hex1).
    destruct (IH s1 Hs1) as (s' & new & Hrun & Hex & Hids).
    exists s', (DetailCall k r :: new). split; [exact Hrun|]. split.
    + rewrite Hex, Hex1, <- app_assoc. reflexivity.
    + unfold dict_keys in *. rewrite !fmap_cons, Hids. reflexivity.
Qed.

Lemma check_monitor_targets_requests_witness :
  exists s' new,
    check_monitor_targets tracks8and7 = Some (Ok tt, s') /\
    exchanges (api_client s') = exchanges (api_client tracks8and7) ++ new /\
    detail_call_id <$> new = [Some 8; Some 7].
Proof.
  apply (check_monitor_targets_requests (E := service_env breaks8) tracks8and7). reflexivity.
Defined.

(* ===================================================================== *)
(** * The effect of a search *)
(* ===================================================================== *)

Lemma search_listings_cases `{E : Env} fuel fc n notify (self : XIVPFMonitor) r s' :
  search_listings fuel fc n notify self = Some (r, s') ->
  (exists filtered a,
      r = Ok filtered /\
      s' = notify_new notify n (new_listings_of (notified_listings self) filtered)
             (set_api_client a self))
  \/ (exists e a,
      r = Ok [] /\ s' = emit (ErrorLogged InSearchListings e) (set_api_client a self)).
Proof.
  unfold search_listings, try_except, search_listings_try, bind, on_api, get, modify, ret.
  destruct (get_all_listings fuel (Some fc) None (api_client self)) as [[[l|e] a1]|];
    [| |discriminate].
  - cbn [api_client set_api_client].
    destruct (apply_advanced_filters l fc [] a1) as [[[f|e] a2]|]; [| |discriminate].
    + intros [= <- <-]. left. exists f, a2. split; reflexivity.
    + intros [= <- <-]. right. exists e, a2. split; reflexivity.
  - intros [= <- <-]. right. exists e, a1. split; reflexivity.
Qed.

(** What [search_listings] does to the monitor, by the outcome of its two
    calls on the client.  It never raises and never touches the registry,
    the snapshot or the last-shown set.  When the fetch of the pages or the
    detail filter raises, it logs that one error, returns the empty list
    and leaves the notified record alone.  When both return, it returns
    the filtered listings; asked to notify, and with [new], the filtered
    listings whose id is not in the notified record, not empty, it sends
    one found-notification holding exactly [new], in order, flagged for
    the desktop exactly when the registry is empty, and adds the ids of
    [new] to the record; otherwise the notifier hears nothing and the
    record stays as it is. *)
Theorem search_listings_effect `{E : Env} fuel fc n notify (self : XIVPFMonitor) r s' :
  search_listings fuel fc n notify self = Some (r, s') ->
  monitor_targets s' = monitor_targets self /\
  last_listings s' = last_listings self /\
  last_displayed_ids s' = last_displayed_ids self /\
  exists fetched a1,
    get_all_listings fuel (Some fc) None (api_client self) = Some (fetched, a1) /\
    match fetched with
    | Raise e =>
        r = Ok [] /\ api_client s' = a1 /\
        notifier s' = notifier self ++ [ErrorLogged InSearchListings e] /\
        notified_listings s' = notified_listings self
    | Ok listings =>
        exists filtered a2,
          apply_advanced_filters listings fc [] a1 = Some (filtered, a2) /\
          api_client s' = a2 /\
          match filtered with
          | Raise e =>
              r = Ok [] /\
              notifier s' = notifier self ++ [ErrorLogged InSearchListings e] /\
              notified_listings s' = notified_listings self
          | Ok found =>
              r = Ok found /\
              match notify, not_yet_notified (notified_listings self) found with
              | true, (_ :: _) as new =>
                  notifier s'
                  = notifier self
                    ++ [NotifyFound new n (bool_decide (monitor_targets self = []))] /\
                  notified_listings s'
                  = notified_listings self ∪ list_to_set (id <$> new)
              | _, _ =>
                  notifier s' = notifier self /\
                  notified_listings s' = notified_listings self
              end
          end
    end.
Proof.
  intros Hrun.
  assert (Hframe : monitor_targets s' = monitor_targets self /\
                   last_listings s' = last_listings self /\
                   last_displayed_ids s' = last_displayed_ids self).
  { apply search_listings_cases in Hrun as [(f & a & _ & ->)|(e & a & _ & ->)].
    - unfold notify_new. destruct notify; [|repeat split].
      destruct (new_listings_of _ f); repeat split.
    - repeat split. }
  destruct Hframe as (Ht & Hl & Hd). repeat (split; [assumption|]).
  revert Hrun.
  unfold search_listings, try_except, search_listings_try, bind, on_api, get, modify, ret.
  destruct (get_all_listings fuel (Some fc) None (api_client self)) as [[[l|e] a1]|];
    [| |discriminate].
  - cbn [api_client set_api_client].
    destruct (apply_advanced_filters l fc [] a1) as [[[f|e] a2]|] eqn:Hfilter;
      [| |discriminate].
    + intros [= <- <-]. exists (Ok l), a1. split; [reflexivity|].
      exists (Ok f), a2. split; [exact Hfilter|].
      unfold notify_new, new_listings_of, not_yet_notified.
      cbn [notified_listings set_api_client].
      destruct notify.
      * destruct (filter _ f) as [|x xs] eqn:Hnew.
        -- repeat split.
        -- split; [reflexivity|]. split; [reflexivity|].
           cbn [notifier notified_listings monitor_targets set_notified_listings emit
                  set_api_client].
           split; [|reflexivity]. destruct (monitor_targets self); reflexivity.
      * split; [reflexivity|]. split; [reflexivity|]. split; reflexivity.
    + intros [= <- <-]. exists (Ok l), a1. split; [reflexivity|].
      exists (Raise e), a2. split; [exact Hfilter|]. repeat split.
  - intros [= <- <-]. exists (Raise e), a1. repeat split.
Qed.

Lemma search_listings_effect_witness :
  monitor_targets after_search = monitor_targets fresh /\
  last_listings after_search = last_listings fresh /\
  last_displayed_ids after_search = last_displayed_ids fresh /\
  exists fetched a1,
    get_all_listings 5 (Some no_filter) None (api_client fresh) = Some (fetched, a1) /\
    match fetched with
    | Raise e =>
        Ok (concat (service_pages three_pages)) = Ok [] /\ api_client after_search = a1 /\
        notifier after_search = notifier fresh ++ [ErrorLogged InSearchListings e] /\
        notified_listings after_search = notified_listings fresh
    | Ok listings =>
        exists filtered a2,
          apply_advanced_filters listings no_filter [] a1 = Some (filtered, a2) /\
          api_client after_search = a2 /\
          match filtered with
          | Raise e =>
              Ok (concat (service_pages three_pages)) = Ok [] /\
              notifier after_search = notifier fresh ++ [ErrorLogged InSearchListings e] /\
              notified_listings after_search = notified_listings fresh
          | Ok found =>
              Ok (concat (service_pages three_pages)) = Ok found /\
              match true, not_yet_notified (notified_listings fresh) found with
              | true, (_ :: _) as new =>
                  notifier after_search
                  = notifier fresh
                    ++ [NotifyFound new "all" (bool_decide (monitor_targets fresh = []))] /\
                  notified_listings after_search
                  = notified_listings fresh ∪ list_to_set (id <$> new)
              | _, _ =>
                  notifier after_search = notifier fresh /\
                  notified_listings after_search = notified_listings fresh
              end
          end
    end.
Proof.
  refine (search_listings_effect (E := service_env three_pages) 5 no_filter "all" true fresh
            (Ok (concat (service_pages three_pages))) after_search _).
  refine (run_value fresh _ _ _). vm_compute. reflexivity.
Defined.

(** The search of the witness did notify: the four listings of the three
    pages, for the desktop too. *)
Lemma search_listings_effect_example :
  notifier after_search
  = [NotifyFound [listing_of 1 10 0; listing_of 2 20 0; listing_of 3 30 0; listing_of 4 40 0]
       "all" true] /\
  bool_decide (notified_listings after_search = {[1; 2; 3; 4]}) = true.
Proof. split; vm_compute; reflexivity. Qed.

(* ===================================================================== *)
(** * What reaches the desktop *)
(* ===================================================================== *)

#[export] Instance found_by_registry_preorder `{E : Env} : PreOrder found_by_registry.
Proof.
  split.
  - intros s. split; [reflexivity|]. exists []. rewrite app_nil_r. split; [reflexivity|].
    intros e H. apply elem_of_nil in H. contradiction.
  - intros s1 s2 s3 (Ht1 & new1 & Hn1 & Hf1) (Ht2 & new2 & Hn2 & Hf2).
    split; [congruence|].
    exists (new1 ++ new2). split; [rewrite Hn2, Hn1, app_assoc; reflexivity|].
    intros e Hin Hsys. apply elem_of_app in Hin as [Hin|Hin].
    + apply Hf1; assumption.
    + rewrite <- Ht1. apply Hf2; assumption.
Qed.

#[export] Instance no_found_preorder `{E : Env} : PreOrder no_found.
Proof.
  split.
  - intros s. exists []. rewrite app_nil_r. split; [reflexivity|].
    intros e H. apply elem_of_nil in H. contradiction.
  - intros s1 s2 s3 (new1 & Hn1 & Hf1) (new2 & Hn2 & Hf2).
    exists (new1 ++ new2). split; [rewrite Hn2, Hn1, app_assoc; reflexivity|].
    intros e Hin. apply elem_of_app in Hin as [Hin|Hin]; auto.
Qed.

Lemma no_found_quiet `{E : Env} (s s' : XIVPFMonitor) new :
  notifier s' = notifier s ++ new ->
  forallb (fun e => negb (is_found e)) new = true ->
  no_found s s'.
Proof.
  intros He Hq. exists new. split; [exact He|].
  intros e Hin. rewrite forallb_forall in Hq. apply list_elem_of_In in Hin.
  specialize (Hq _ Hin). destruct (is_found e); [discriminate|reflexivity].
Qed.

Ltac no_found_step :=
  match goal with
  | |- no_found ?s _ =>
      first
        [ apply (no_found_quiet s _ []); [simpl; rewrite app_nil_r; reflexivity|reflexivity]
        | eapply no_found_quiet; [simpl; reflexivity|reflexivity] ]
  end.

Lemma no_found_remove_monitor_target `{E : Env} k (s : XIVPFMonitor) :
  no_found s (remove_monitor_target k s).
Proof.
  unfold remove_monitor_target.
  destruct (dict_contains k (monitor_targets s)); no_found_step.
Qed.

Lemma no_found_expire_targets `{E : Env} previous expired (s : XIVPFMonitor) :
  no_found s (expire_targets previous expired s).
Proof.
  revert s. induction previous as [|l rest IH]; intros s; simpl; [reflexivity|].
  destruct (bool_decide (id l ∈ expired)); [|apply IH].
  etransitivity; [|apply IH].
  etransitivity; [|apply no_found_remove_monitor_target]. no_found_step.
Qed.

Lemma no_found_check_expired_by_order `{E : Env} listings (s : XIVPFMonitor) :
  no_found s (check_expired_by_order listings s).
Proof.
  unfold check_expired_by_order.
  destruct (_ || _); [reflexivity|].
  destruct (last_listings s).
  - no_found_step.
  - cbv zeta. etransitivity; [apply no_found_expire_targets|].
    apply (no_found_quiet _ _ []); [|reflexivity].
    cbn [notifier set_last_listings]. rewrite app_nil_r. reflexivity.
Qed.

Lemma no_found_display_new_listings `{E : Env} all (s : XIVPFMonitor) :
  no_found s (display_new_listings all s).
Proof.
  unfold display_new_listings. destruct all; [reflexivity|].
  destruct (bool_decide _); [reflexivity|]. no_found_step.
Qed.

Lemma no_found_show_monitor_targets `{E : Env} : keeps no_found show_monitor_targets.
Proof.
  unfold show_monitor_targets, show_monitor_target.
  repeat keeps_step; no_found_step.
Qed.

Lemma no_found_check_monitor_targets `{E : Env} : keeps no_found check_monitor_targets.
Proof.
  unfold check_monitor_targets, check_monitor_target.
  repeat keeps_step; first [no_found_step | apply no_found_remove_monitor_target].
Qed.

Lemma found_by_registry_silent `{E : Env} (s s' : XIVPFMonitor) :
  monitor_targets s' = monitor_targets s -> notifier s' = notifier s ->
  found_by_registry s s'.
Proof.
  intros Ht Hn. split; [exact Ht|]. exists []. rewrite app_nil_r. split; [exact Hn|].
  intros e H. apply elem_of_nil in H. contradiction.
Qed.

Lemma found_by_registry_search_listings `{E : Env} fuel fc n notify :
  keeps found_by_registry (search_listings fuel fc n notify).
Proof.
  intros s r s' Hrun. apply search_listings_cases in Hrun
    as [(filtered & a & -> & ->)|(e & a & -> & ->)].
  - unfold notify_new.
    destruct notify; [|apply found_by_registry_silent; reflexivity].
    destruct (new_listings_of _ filtered) as [|x xs];
      [apply found_by_registry_silent; reflexivity|].
    split; [reflexivity|]. eexists. split; [reflexivity|].
    intros ev Hin Hsys. apply list_elem_of_singleton in Hin. subst ev.
    split; [reflexivity|]. cbn in Hsys.
    destruct (monitor_targets s); [reflexivity|discriminate].
  - split; [reflexivity|]. eexists. split; [reflexivity|].
    intros ev Hin Hsys. apply list_elem_of_singleton in Hin. subst ev. discriminate.
Qed.

Lemma found_by_registry_search_all `{E : Env} fuel conds acc :
  keeps found_by_registry (search_all fuel conds acc).
Proof.
  revert acc. induction conds as [|[c n] rest IH]; intros acc; simpl.
  - keeps_step.
  - keeps_step; [apply found_by_registry_search_listings|apply IH].
Qed.

Lemma keeps_bind_then {S A B} (R Q : relation S) `{!Reflexive Q}
    (m : M S A) (k : A -> M S B) :
  keeps R m -> (forall a, keeps Q (k a)) -> keeps (then_rel R Q) (bind m k).
Proof.
  intros Hm Hk s r s'. unfold bind.
  destruct (m s) as [[[a|e] s1]|] eqn:Hms; [| |discriminate].
  - intros Hks. exists s1. split; [eapply Hm, Hms|eapply Hk, Hks].
  - intros [= <- <-]. exists s1. split; [eapply Hm, Hms|reflexivity].
Qed.

Lemma keeps_bind_ret {S A B} (R : relation S) (m : M S A) (b : B) :
  keeps R m -> keeps R (bind m (fun _ => ret b)).
Proof.
  intros Hm s r s'. unfold bind, ret.
  destruct (m s) as [[[a|e] s1]|] eqn:Hms; [| |discriminate];
    intros [= <- <-]; eapply Hm, Hms.
Qed.

Lemma keeps_try_then {S A} (R Q : relation S) `{!Transitive Q}
    (m : M S A) (h : exn -> M S A) :
  keeps (then_rel R Q) m -> (forall e, keeps Q (h e)) ->
  keeps (then_rel R Q) (try_except m h).
Proof.
  intros Hm Hh s r s'. unfold try_except.
  destruct (m s) as [[[a|e] s1]|] eqn:Hms; [| |discriminate].
  - intros [= <- <-]. eapply Hm, Hms.
  - intros Hhs. destruct (Hm _ _ _ Hms) as (s0 & HR & HQ).
    exists s0. split; [exact HR|]. etransitivity; [exact HQ|eapply Hh, Hhs].
Qed.

Lemma iteration_search_then_quiet `{E : Env} fuel conds enable :
  keeps (then_rel found_by_registry no_found)
    (continuous_search_iteration fuel conds enable).
Proof.
  unfold continuous_search_iteration, continuous_search_try, check_targets_round.
  apply keeps_try_then; [apply _| |].
  - apply keeps_bind_ret. apply keeps_bind_then; [apply _|apply found_by_registry_search_all|].
    intros merged.
    keeps_step; [keeps_step|]. keeps_step; [keeps_step|].
    keeps_step.
    + keeps_step.
      * keeps_step. apply no_found_display_new_listings.
      * keeps_step; [apply no_found_show_monitor_targets|].
        keeps_step; [|apply no_found_check_monitor_targets].
        repeat keeps_step. apply no_found_check_expired_by_order.
    + repeat keeps_step; no_found_step.
  - intros e. repeat keeps_step; no_found_step.
Qed.

(** What a poll iteration sends to the desktop.  A desktop notification
    needs the notifier's own switch; apart from that, the only calls of an
    iteration that ask for one are expiry notifications and
    found-notifications, and a found-notification asks for one only when
    the iteration began with an empty registry: while a target is tracked,
    new listings are announced on the console only. *)
Theorem tracking_mutes_found `{E : Env} fuel conds enable (self : XIVPFMonitor) r s' :
  continuous_search_iteration fuel conds enable self = Some (r, s') ->
  exists new,
    notifier s' = notifier self ++ new /\
    forall enabled e,
      e ∈ new -> system_notification enabled e = true ->
      enabled = true /\
      ((exists k reason, e = NotifyExpired k reason)
       \/ (is_found e = true /\ monitor_targets self = [])).
Proof.
  intros Hrun. apply iteration_search_then_quiet in Hrun
    as (s1 & (_ & new1 & Hn1 & Hf1) & (new2 & Hn2 & Hf2)).
  exists (new1 ++ new2). split; [rewrite Hn2, Hn1, app_assoc; reflexivity|].
  intros enabled e Hin Hsys.
  assert (Hen : enabled = true /\ system_notification true e = true).
  { destruct e as [ls fname allow| | | | |]; cbn in Hsys |- *; try discriminate.
    - destruct ls; [discriminate|]. destruct enabled; [auto|discriminate].
    - destruct enabled; [auto|discriminate]. }
  destruct Hen as [-> Hsys']. split; [reflexivity|].
  apply elem_of_app in Hin as [Hin|Hin].
  - right. apply Hf1; assumption.
  - left. specialize (Hf2 _ Hin).
    destruct e as [ls fname allow|k reason| | | |]; cbn in Hsys', Hf2; try discriminate.
    eauto.
Qed.

Lemma tracking_mutes_found_witness :
  exists new,
    notifier after_tracking_iteration = notifier tracks8and7 ++ new /\
    forall enabled e,
      e ∈ new -> system_notification enabled e = true ->
      enabled = true /\
      ((exists k reason, e = NotifyExpired k reason)
       \/ (is_found e = true /\ monitor_targets tracks8and7 = [])).
Proof.
  refine (tracking_mutes_found (E := service_env breaks8) 5 [(no_filter, "all")] true
            tracks8and7 (Ok true) after_tracking_iteration _).
  refine (run_value tracks8and7 _ _ _). vm_compute. reflexivity.
Defined.

(* ===================================================================== *)
(** * How a poll iteration ends *)
(* ===================================================================== *)

Lemma same_expire_targets `{E : Env} {B} (field : XIVPFMonitor -> B) previous expired :
  (forall e s, field (emit e s) = field s) ->
  (forall d s, field (set_monitor_targets d s) = field s) ->
  forall s, field (expire_targets previous expired s) = field s.
Proof.
  intros He Hd. induction previous as [|l rest IH]; intros s; simpl; [reflexivity|].
  destruct (bool_decide _); [|apply IH]. rewrite IH.
  rewrite (same_remove_monitor_target field (id l)); [apply He|].
  intros. rewrite He. apply Hd.
Qed.

Lemma same_check_expired_by_order `{E : Env} {B} (field : XIVPFMonitor -> B) listings :
  (forall e s, field (emit e s) = field s) ->
  (forall d s, field (set_monitor_targets d s) = field s) ->
  (forall l s, field (set_last_listings l s) = field s) ->
  forall s, field (check_expired_by_order listings s) = field s.
Proof.
  intros He Hd Hl s. unfold check_expired_by_order.
  destruct (_ || _); [reflexivity|]. cbv zeta. rewrite Hl.
  destruct (last_listings s); [reflexivity|]. apply same_expire_targets; assumption.
Qed.

(** A poll iteration changes a field of the monitor only through the
    assignments of the fields it writes. *)
Lemma same_continuous_search_iteration `{E : Env} {B} (field : XIVPFMonitor -> B)
    fuel conds enable :
  (forall a s, field (set_api_client a s) = field s) ->
  (forall e s, field (emit e s) = field s) ->
  (forall n s, field (set_notified_listings n s) = field s) ->
  (forall d s, field (set_monitor_targets d s) = field s) ->
  (forall l s, field (set_last_listings l s) = field s) ->
  (forall i s, field (set_last_displayed_ids i s) = field s) ->
  keeps (same field) (continuous_search_iteration fuel conds enable).
Proof.
  intros Ha He Hn Hd Hl Hi.
  unfold continuous_search_iteration, continuous_search_try, check_targets_round.
  assert (Hsleep : forall s, same field s (sleep_interval s)).
  { intros s. unfold same, sleep_interval. apply Ha. }
  keeps_step.
  - keeps_step; [|keeps_step].
    keeps_step; [apply same_search_all; assumption|].
    keeps_step; [keeps_step|]. keeps_step; [keeps_step|].
    keeps_step.
    + keeps_step.
      * keeps_step. unfold same. rewrite display_new_listings_cases.
        destruct (decide _); [reflexivity|]. rewrite Hi. apply He.
      * keeps_step; [apply same_show_monitor_targets; assumption|].
        keeps_step; [|apply same_check_monitor_targets; assumption].
        repeat keeps_step. unfold same. apply same_check_expired_by_order; assumption.
    + keeps_step; [keeps_step|]. keeps_step; [keeps_step; apply He|].
      keeps_step. apply Hsleep.
  - keeps_step; [keeps_step|]. keeps_step; [|keeps_step].
    keeps_step; [keeps_step; apply He|]. keeps_step; [keeps_step; apply He|].
    keeps_step; [keeps_step; apply Hsleep|]. keeps_step.
Qed.

(** A cycle whose searches return and whose sort succeeds runs to its
    end. *)
Lemma continuous_search_try_sorted `{E : Env} fuel conds enable (self : XIVPFMonitor)
    merged s1 sorted :
  search_all fuel conds [] self = Some (Ok merged, s1) ->
  sort_listings merged = Ok sorted ->
  exists final,
    continuous_search_try fuel conds enable self = Some (Ok tt, final) /\
    last_listings final
    = if enable && (2 <=? Z.of_nat (length sorted))
         && negb (bool_decide (monitor_targets self = []))
      then sorted
      else last_listings self.
Proof.
  intros Hsearch Hsort.
  assert (Ht : monitor_targets s1 = monitor_targets self).
  { refine (same_search_all monitor_targets fuel conds [] _ _ _ _ _ _ Hsearch); reflexivity. }
  assert (Hl : last_listings s1 = last_listings self).
  { refine (same_search_all last_listings fuel conds [] _ _ _ _ _ _ Hsearch); reflexivity. }
  unfold continuous_search_try. unfold bind at 1. rewrite Hsearch.
  unfold bind at 1. unfold lift_result. rewrite Hsort.
  unfold bind at 1. unfold get at 1. rewrite Ht.
  destruct (monitor_targets self) as [|x xs] eqn:Hself.
  - unfold bind, modify, get. eexists. split; [reflexivity|].
    rewrite andb_false_r. cbn [last_listings sleep_interval set_api_client emit].
    rewrite display_new_listings_last_listings. exact Hl.
  - rewrite (bool_decide_eq_false_2 (x :: xs = [])) by discriminate.
    rewrite andb_true_r. unfold check_targets_round.
    destruct (show_monitor_targets_succeeds s1) as (s2 & Hshow).
    assert (Ht2 : monitor_targets s2 = x :: xs).
    { rewrite <- Ht. refine (same_show_monitor_targets monitor_targets _ _ _ _ _ Hshow);
        reflexivity. }
    assert (Hl2 : last_listings s2 = last_listings self).
    { rewrite <- Hl. refine (same_show_monitor_targets last_listings _ _ _ _ _ Hshow);
        reflexivity. }
    set (s3 := match enable, sorted with
               | true, _ :: _ => check_expired_by_order sorted s2
               | _, _ => s2
               end).
    assert (Hl3 : last_listings s3
                  = if enable && (2 <=? Z.of_nat (length sorted)) then sorted
                    else last_listings self).
    { unfold s3. destruct enable; [|exact Hl2]. destruct sorted as [|y ys]; [exact Hl2|].
      rewrite check_expired_by_order_last_listings, Ht2.
      rewrite (bool_decide_eq_false_2 (x :: xs = [])) by discriminate.
      rewrite orb_false_r, Hl2. cbn [andb].
      destruct (Z.ltb_spec (Z.of_nat (length (y :: ys))) 2),
        (Z.leb_spec 2 (Z.of_nat (length (y :: ys)))); try reflexivity; lia. }
    destruct (for_each_check_succeeds (monitor_targets s3) s3) as (s4 & Hcheck).
    assert (Hl4 : last_listings s4 = last_listings s3).
    { refine (same_check_monitor_targets last_listings _ _ _ s3 (Ok tt) s4 _);
        try reflexivity.
      unfold check_monitor_targets, bind, get. exact Hcheck. }
    eexists. split.
    + unfold bind at 1. unfold bind at 1. unfold bind at 1. rewrite Hshow.
      assert (Hmid : (match enable, sorted with
                      | true, _ :: _ => modify (check_expired_by_order sorted)
                      | _, _ => ret tt
                      end) s2 = Some (Ok tt, s3)).
      { unfold s3. destruct enable; [|reflexivity]. destruct sorted; reflexivity. }
      unfold bind at 1. rewrite Hmid.
      unfold check_monitor_targets. unfold bind at 1. unfold get at 1. rewrite Hcheck.
      unfold bind, get, modify. reflexivity.
    + cbn [last_listings sleep_interval set_api_client emit]. rewrite Hl4. exact Hl3.
Qed.

(** A cycle whose sort raises stops there. *)
Lemma continuous_search_try_unsorted `{E : Env} fuel conds enable (self : XIVPFMonitor)
    merged s1 e :
  search_all fuel conds [] self = Some (Ok merged, s1) ->
  sort_listings merged = Raise e ->
  continuous_search_try fuel conds enable self = Some (Raise e, s1).
Proof.
  intros Hsearch Hsort. unfold continuous_search_try. unfold bind at 1. rewrite Hsearch.
  unfold bind at 1. unfold lift_result. rewrite Hsort. reflexivity.
Qed.

Lemma continuous_search_handler `{E : Env} fuel conds enable (self : XIVPFMonitor) e s1 :
  continuous_search_try fuel conds enable self = Some (Raise e, s1) ->
  continuous_search_iteration fuel conds enable self
  = if running s1
    then Some (Ok true, sleep_interval
                          (emit (StatusShown (ErrorStatus e))
                             (emit (ErrorLogged InContinuousSearch e) s1)))
    else Some (Ok false, s1).
Proof.
  intros Htry. unfold continuous_search_iteration, try_except. unfold bind at 1.
  rewrite Htry. unfold bind, get, modify, ret. destruct (running s1); reflexivity.
Qed.

Lemma continuous_search_iteration_value `{E : Env} fuel conds enable
    (self : XIVPFMonitor) r s' :
  continuous_search_iteration fuel conds enable self = Some (r, s') ->
  running s' = running self /\
  exists go, r = Ok go /\ (go = false -> running self = false).
Proof.
  intros Hrun.
  assert (Hr : running s' = running self).
  { refine (same_continuous_search_iteration running fuel conds enable
              _ _ _ _ _ _ _ _ _ Hrun); reflexivity. }
  split; [exact Hr|].
  revert Hrun. unfold continuous_search_iteration, try_except. unfold bind at 1.
  destruct (continuous_search_try fuel conds enable self) as [[[u|e] s1]|];
    [| |discriminate].
  - unfold ret. intros [= <- <-]. exists true. split; [reflexivity|discriminate].
  - unfold bind, get, modify, ret. destruct (running s1) eqn:Hrun1.
    + intros [= <- <-]. exists true. split; [reflexivity|discriminate].
    + intros [= <- <-]. exists false. split; [reflexivity|]. intros _.
      rewrite <- Hr. exact Hrun1.
Qed.

(** How a poll iteration ends.  It never raises: its value says whether
    the loop goes on, and the loop is left only after a failure that finds
    the monitor stopped.  It changes neither the running flag nor the
    interval nor the threshold.  And it does end whenever its searches
    return, whatever the sort and the checks of the targets do. *)
Theorem continuous_search_iteration_outcome `{E : Env} fuel conds enable
    (self : XIVPFMonitor) :
  (forall r s',
      continuous_search_iteration fuel conds enable self = Some (r, s') ->
      running s' = running self /\
      check_interval s' = check_interval self /\
      expire_threshold s' = expire_threshold self /\
      exists go, r = Ok go /\ (go = false -> running self = false)) /\
  (forall merged s1,
      search_all fuel conds [] self = Some (Ok merged, s1) ->
      exists go s', continuous_search_iteration fuel conds enable self = Some (Ok go, s')).
Proof.
  split.
  - intros r s' Hrun.
    destruct (continuous_search_iteration_value fuel conds enable self r s' Hrun)
      as [Hr Hgo].
    split; [exact Hr|]. split.
    { refine (same_continuous_search_iteration check_interval fuel conds enable
                _ _ _ _ _ _ _ _ _ Hrun); reflexivity. }
    split; [|exact Hgo].
    refine (same_continuous_search_iteration expire_threshold fuel conds enable
              _ _ _ _ _ _ _ _ _ Hrun); reflexivity.
  - intros merged s1 Hsearch. destruct (sort_listings merged) as [sorted|e] eqn:Hsort.
    + destruct (continuous_search_try_sorted fuel conds enable self merged s1 sorted
                  Hsearch Hsort) as (final & Htry & _).
      exists true, final. unfold continuous_search_iteration, try_except.
      unfold bind at 1. rewrite Htry. reflexivity.
    + rewrite (continuous_search_handler fuel conds enable self e s1)
        by (eapply continuous_search_try_unsorted; eassumption).
      destruct (running s1); eauto.
Qed.

(** The snapshot at the end of a cycle.  A cycle whose searches return
    and whose sort succeeds runs to its end, so that the iteration goes on
    to the next one, and the stored snapshot is then the sorted merged
    list when the expire check is enabled, the list has at least 2 entries
    and the cycle began with a monitored target; in every other case it is
    the snapshot the cycle began with, however old that is. *)
Theorem snapshot_after_cycle `{E : Env} fuel conds enable (self : XIVPFMonitor)
    merged s1 sorted :
  search_all fuel conds [] self = Some (Ok merged, s1) ->
  sort_listings merged = Ok sorted ->
  exists final,
    continuous_search_try fuel conds enable self = Some (Ok tt, final) /\
    continuous_search_iteration fuel conds enable self = Some (Ok true, final) /\
    last_listings final
    = if enable && (2 <=? Z.of_nat (length sorted))
         && negb (bool_decide (monitor_targets self = []))
      then sorted
      else last_listings self.
Proof.
  intros Hsearch Hsort.
  destruct (continuous_search_try_sorted fuel conds enable self merged s1 sorted
              Hsearch Hsort) as (final & Htry & Hlast).
  exists final. split; [exact Htry|]. split; [|exact Hlast].
  unfold continuous_search_iteration, try_except. unfold bind at 1.
  rewrite Htry. reflexivity.
Qed.

Lemma snapshot_after_cycle_witness :
  exists final,
    continuous_search_try 5 [(no_filter, "all")] true tracks3_one_listing
    = Some (Ok tt, final) /\
    continuous_search_iteration 5 [(no_filter, "all")] true tracks3_one_listing
    = Some (Ok true, final) /\
    last_listings final = snapshot3.
Proof.
  refine (snapshot_after_cycle (E := service_env one_listing) 5 [(no_filter, "all")] true
            tracks3_one_listing [listing_of 1 10 0]
            (state_of tracks3_one_listing
               (search_all 5 [(no_filter, "all")] [] tracks3_one_listing))
            [listing_of 1 10 0] _ eq_refl).
  refine (run_value _ _ _ _). vm_compute. reflexivity.
Defined.

(** A listing without a duty type next to one with a duty type, both
    updated in the same minute, cannot be ordered: the sort of the two
    raises [TypeError] in either order.  A cycle whose merged list is
    such a pair is abandoned at the sort: nothing is displayed, no target
    is shown or checked and no expiry is detected; the running loop logs
    the error, shows it and sleeps. *)
Theorem mixed_duty_types_abandon_cycle `{E : Env} fuel conds enable (self : XIVPFMonitor)
    a b s1 :
  minute_of (updated_at a) = minute_of (updated_at b) ->
  is_Some (duty_type a) <-> ~ is_Some (duty_type b) ->
  search_all fuel conds [] self = Some (Ok [a; b], s1) ->
  sort_listings [a; b] = Raise TypeError /\
  sort_listings [b; a] = Raise TypeError /\
  continuous_search_iteration fuel conds enable self
  = if running self
    then Some (Ok true, sleep_interval
                          (emit (StatusShown (ErrorStatus TypeError))
                             (emit (ErrorLogged InContinuousSearch TypeError) s1)))
    else Some (Ok false, s1).
Proof.
  intros Hmin Hduty Hsearch.
  assert (Hab : sort_listings [a; b] = Raise TypeError /\
                sort_listings [b; a] = Raise TypeError).
  { unfold sort_listings. cbn [reverse rev_append sort_ascending insert_sorted].
    unfold reverse. cbn [rev_append sort_ascending insert_sorted].
    unfold key_lt, key_of. rewrite Hmin, Z.eqb_refl. cbn [negb].
    destruct (duty_type a) as [da|], (duty_type b) as [db|]; try (split; reflexivity).
    - exfalso. apply Hduty; eauto.
    - exfalso. destruct Hduty as [_ H]. destruct H as [x Hx]; [|discriminate].
      intros [x Hx]. discriminate. }
  destruct Hab as [Hs1 Hs2]. split; [exact Hs1|]. split; [exact Hs2|].
  assert (Hr : running s1 = running self).
  { refine (same_search_all running fuel conds [] _ _ _ _ _ _ Hsearch); reflexivity. }
  rewrite (continuous_search_handler fuel conds enable self TypeError s1)
    by (eapply continuous_search_try_unsorted; eassumption).
  rewrite Hr. reflexivity.
Qed.

Lemma mixed_duty_types_abandon_cycle_witness :
  sort_listings [left20; with_duty_type] = Raise TypeError /\
  sort_listings [with_duty_type; left20] = Raise TypeError /\
  continuous_search_iteration 5 [(no_filter, "all")] true going_mixed
  = if running going_mixed
    then Some (Ok true, sleep_interval
                          (emit (StatusShown (ErrorStatus TypeError))
                             (emit (ErrorLogged InContinuousSearch TypeError)
                                searched_mixed)))
    else Some (Ok false, searched_mixed).
Proof.
  refine (mixed_duty_types_abandon_cycle (E := service_env mixed_duty_types) 5
            [(no_filter, "all")] true going_mixed left20 with_duty_type searched_mixed
            eq_refl _ _).
  - split.
    + intros [x Hx]. discriminate.
    + intros H. exfalso. apply H. eexists. reflexivity.
  - refine (run_value going_mixed _ _ _). vm_compute. reflexivity.
Defined.

Lemma continuous_search_loop_goes_on `{E : Env} rounds fuel conds enable
    (self : XIVPFMonitor) :
  running self = true -> continuous_search_loop rounds fuel conds enable self = None.
Proof.
  revert self. induction rounds as [|rounds IH]; intros self Hrun; [reflexivity|].
  cbn [continuous_search_loop]. unfold bind at 1. unfold get at 1. rewrite Hrun.
  unfold bind.
  destruct (continuous_search_iteration fuel conds enable self) as [[r s1]|] eqn:Hit;
    [|reflexivity].
  destruct (continuous_search_iteration_value fuel conds enable self r s1 Hit)
    as (Hr & go & -> & Hgo).
  destruct go.
  - apply IH. rewrite Hr. exact Hrun.
  - specialize (Hgo eq_refl). congruence.
Qed.

(** [continuous_search] does not return on its own.  It sets the running
    flag and nothing in an iteration clears it, so with no other task to
    call [stop_monitoring] the loop is still going after any number of
    iterations, whatever the service answers and whatever fails; the loop
    test lets a stopped monitor out at once, with no further request. *)
Theorem continuous_search_runs_until_stopped `{E : Env} rounds fuel conds enable
    (self : XIVPFMonitor) :
  continuous_search rounds fuel conds enable self = None /\
  continuous_search_loop (S rounds) fuel conds enable (stop_monitoring self)
  = Some (Ok tt, stop_monitoring self).
Proof.
  split; [|reflexivity].
  unfold continuous_search. unfold bind at 1. unfold modify at 1.
  unfold bind at 1. unfold modify at 1. unfold bind at 1. unfold modify at 1.
  unfold bind at 1. rewrite continuous_search_loop_goes_on; reflexivity.
Qed.

(* ===================================================================== *)
(** * The records of what was shown and notified *)
(* ===================================================================== *)

(** After the display branch has run on a list, every id of the list is
    in the last-shown set, so running it again on the same list shows
    nothing; after [clear_displayed_listings] the branch shows any
    non-empty list again. *)
Theorem display_new_listings_settles `{E : Env} all (self : XIVPFMonitor) :
  id_set all ⊆ last_displayed_ids (display_new_listings all self) /\
  display_new_listings all (display_new_listings all self) = display_new_listings all self /\
  (all <> [] ->
   display_new_listings all (clear_displayed_listings self)
   = set_last_displayed_ids (id_set all)
       (emit (ListingsTableShown all 20) (clear_displayed_listings self))).
Proof.
  assert (Hin : id_set all ⊆ last_displayed_ids (display_new_listings all self)).
  { rewrite display_new_listings_cases.
    destruct (decide (id_set all ⊆ last_displayed_ids self)) as [Hsub|Hsub];
      [exact Hsub|reflexivity]. }
  split; [exact Hin|]. split.
  - rewrite (display_new_listings_cases all (display_new_listings all self)).
    rewrite decide_True by exact Hin. reflexivity.
  - intros Hne. rewrite display_new_listings_cases.
    rewrite decide_False; [reflexivity|].
    destruct all as [|x rest]; [contradiction|].
    intros Hsub. apply (not_elem_of_empty (C := gset Z) (id x)). apply Hsub.
    unfold id_set. apply elem_of_list_to_set. apply list_elem_of_fmap_2. left.
Qed.

Lemma new_listings_of_empty l : new_listings_of ∅ l = l.
Proof.
  unfold new_listings_of. induction l as [|x rest IH]; [reflexivity|].
  rewrite filter_cons_True by apply not_elem_of_empty. rewrite IH. reflexivity.
Qed.

(** After [clear_notified_listings], a notifying search that returns
    listings reports every one of them again, and the notified record is
    then exactly their ids. *)
Theorem clear_notified_listings_renotifies `{E : Env} fuel fc n (self : XIVPFMonitor)
    found s' :
  search_listings fuel fc n true (clear_notified_listings self) = Some (Ok found, s') ->
  found <> [] ->
  notifier s'
  = notifier self ++ [StatusShown NotifiedCleared;
                      NotifyFound found n (bool_decide (monitor_targets self = []))] /\
  notified_listings s' = id_set found.
Proof.
  intros Hrun Hne. apply search_listings_cases in Hrun
    as [(filtered & a & Hr & ->)|(e & a & Hr & _)];
    injection Hr as Hr; subst found; [|contradiction].
  cbn [notified_listings clear_notified_listings emit set_notified_listings set_api_client].
  rewrite new_listings_of_empty. unfold notify_new.
  destruct filtered as [|x rest]; [contradiction|].
  cbn [notifier notified_listings monitor_targets clear_notified_listings emit
         set_notified_listings set_api_client].
  split.
  - rewrite <- app_assoc. destruct (monitor_targets self); reflexivity.
  - apply union_empty_l_L.
Qed.

Lemma clear_notified_listings_renotifies_witness :
  notifier (state_of after_search
              (search_listings 5 no_filter "all" true (clear_notified_listings after_search)))
  = notifier after_search
    ++ [StatusShown NotifiedCleared;
        NotifyFound (concat (service_pages three_pages)) "all"
          (bool_decide (monitor_targets after_search = []))] /\
  notified_listings
    (state_of after_search
       (search_listings 5 no_filter "all" true (clear_notified_listings after_search)))
  = id_set (concat (service_pages three_pages)).
Proof.
  refine (clear_notified_listings_renotifies (E := service_env three_pages) 5 no_filter "all"
            after_search (concat (service_pages three_pages)) _ _ _).
  - refine (run_value after_search _ _ _). vm_compute. reflexivity.
  - discriminate.
Defined.

(* ===================================================================== *)
(** * Restoring the configured targets *)
(* ===================================================================== *)

Lemma add_monitor_target_exchange `{E : Env} k (s : XIVPFMonitor) :
  session (api_client s) = true ->
  exists s' reply,
    add_monitor_target k s = Some (Ok tt, s') /\
    session (api_client s') = true /\
    exchanges (api_client s') = exchanges (api_client s) ++ [DetailCall k reply] /\
    monitor_targets s'
    = match reply with
      | ReplyListing l =>
          dict_setitem k (mkMonitorTarget k (updated_at l) 0) (monitor_targets s)
      | _ => monitor_targets s
      end.
Proof.
  intros Hs. unfold add_monitor_target, try_except, bind, on_api, modify.
  unfold get_listing_detail. rewrite Hs. cbn [negb].
  destruct (http_get_listing k (world (api_client s))) as [reply w].
  destruct reply as [|l|e]; eexists _, _; (split; [reflexivity|]);
    cbn [api_client session exchanges monitor_targets emit set_monitor_targets
           set_api_client]; repeat split.
Qed.

Lemma detail_success_dec k (new : list exchange) :
  (exists l, DetailCall k (ReplyListing l) ∈ new)
  \/ (forall l, DetailCall k (ReplyListing l) ∉ new).
Proof.
  induction new as [|x rest [(l & Hl)|Hnone]].
  - right. intros l. apply not_elem_of_nil.
  - left. exists l. right. exact Hl.
  - destruct x as [p r|i [|l0|e]];
      try (right; intros l Hin; apply elem_of_cons in Hin as [Heq|Hin];
           [discriminate|exact (Hnone l Hin)]).
    destruct (decide (i = k)) as [->|Hne].
    + left. exists l0. left.
    + right. intros l Hin. apply elem_of_cons in Hin as [Heq|Hin];
        [congruence|exact (Hnone l Hin)].
Qed.

(** Restoring the configured targets at start-up, with the session open.
    It always runs to its end and asks for the detail of every configured
    id, once each and in the configuration's order.  An id none of whose
    lookups returns a listing has the entry it had, or none; an id with a
    lookup that returns a listing is tracked afterwards, with the update
    time of a listing returned for it and staleness 0.  The registry keeps
    its ids in place and new ids are appended in the configuration's
    order; distinct ids stay distinct. *)
Theorem restore_targets_effect `{E : Env} configured (self : XIVPFMonitor) :
  session (api_client self) = true ->
  exists s' new added,
    restore_targets configured self = Some (Ok tt, s') /\
    exchanges (api_client s') = exchanges (api_client self) ++ new /\
    detail_call_id <$> new = Some <$> configured /\
    dict_keys (monitor_targets s') = dict_keys (monitor_targets self) ++ added /\
    added `sublist_of` configured /\
    (NoDup (dict_keys (monitor_targets self)) -> NoDup (dict_keys (monitor_targets s'))) /\
    (forall k, (forall l, DetailCall k (ReplyListing l) ∉ new) ->
               dict_get k (monitor_targets s') = dict_get k (monitor_targets self)) /\
    (forall k l, DetailCall k (ReplyListing l) ∈ new ->
                 exists l', DetailCall k (ReplyListing l') ∈ new /\
                            dict_get k (monitor_targets s')
                            = Some (mkMonitorTarget k (updated_at l') 0)).
Proof.
  unfold restore_targets. revert self.
  induction configured as [|k rest IH]; intros self Hs.
  - exists self, [], []. rewrite !app_nil_r.
    repeat split; auto; try constructor.
    intros k l Hin. apply elem_of_nil in Hin. contradiction.
  - cbn [for_each]. unfold bind at 1.
    destruct (add_monitor_target_exchange k self Hs) as (s1 & reply & Hadd & Hs1 & Hex1 & Ht1).
    rewrite Hadd.
    destruct (IH s1 Hs1) as (s' & new & added & Hrun & Hex & Hids & Hk & Hsub & Hnd & Hold & Hnew).
    assert (Hnd1 : NoDup (dict_keys (monitor_targets self)) ->
                   NoDup (dict_keys (monitor_targets s1))).
    { exact (keys_distinct_add_monitor_target k self (Ok tt) s1 Hadd). }
    assert (Hkeys1 : exists a1, dict_keys (monitor_targets s1)
                                = dict_keys (monitor_targets self) ++ a1 /\
                                a1 ++ added `sublist_of` k :: rest).
    { rewrite Ht1. destruct reply as [|l|e];
        try (exists []; rewrite app_nil_r; split; [reflexivity|apply sublist_cons, Hsub]).
      rewrite dict_keys_setitem. destruct (dict_contains k (monitor_targets self)).
      - exists []. rewrite app_nil_r. split; [reflexivity|apply sublist_cons, Hsub].
      - exists [k]. split; [reflexivity|apply sublist_skip, Hsub]. }
    destruct Hkeys1 as (a1 & Hk1 & Hsub1).
    assert (Hother : forall j, (forall l, reply = ReplyListing l -> k <> j) ->
                               dict_get j (monitor_targets s1)
                               = dict_get j (monitor_targets self)).
    { intros j Hj. rewrite Ht1. destruct reply as [|l|e]; try reflexivity.
      apply dict_get_setitem_other. apply (Hj l). reflexivity. }
    exists s', (DetailCall k reply :: new), (a1 ++ added).
    split; [exact Hrun|]. split; [rewrite Hex, Hex1, <- app_assoc; reflexivity|].
    split; [rewrite !fmap_cons, Hids; reflexivity|].
    split; [rewrite Hk, Hk1, <- app_assoc; reflexivity|].
    split; [exact Hsub1|]. split; [auto|]. split.
    + intros j Hnone. rewrite Hold.
      * apply Hother. intros l -> ->. apply (Hnone l). left.
      * intros l Hin. apply (Hnone l). right. exact Hin.
    + intros j l Hin. destruct (detail_success_dec j new) as [(l0 & Hl0)|Hnone].
      * destruct (Hnew j l0 Hl0) as (l' & Hl' & Hget). exists l'.
        split; [right; exact Hl'|exact Hget].
      * apply elem_of_cons in Hin as [Heq|Hin]; [|exfalso; exact (Hnone l Hin)].
        injection Heq as Hjk Hrep. subst j reply. exists l. split; [left|].
        rewrite (Hold k Hnone), Ht1. apply dict_get_setitem_same.
Qed.

Lemma restore_targets_effect_witness :
  exists s' new added,
    restore_targets [8; 7] (monitor_of breaks8 0 [] [] ∅) = Some (Ok tt, s') /\
    exchanges (api_client s') = exchanges (api_client (monitor_of breaks8 0 [] [] ∅)) ++ new /\
    detail_call_id <$> new = Some <$> [8; 7] /\
    dict_keys (monitor_targets s')
    = dict_keys (monitor_targets (monitor_of breaks8 0 [] [] ∅)) ++ added /\
    added `sublist_of` [8; 7] /\
    (NoDup (dict_keys (monitor_targets (monitor_of breaks8 0 [] [] ∅))) ->
     NoDup (dict_keys (monitor_targets s'))) /\
    (forall k, (forall l, DetailCall k (ReplyListing l) ∉ new) ->
               dict_get k (monitor_targets s')
               = dict_get k (monitor_targets (monitor_of breaks8 0 [] [] ∅))) /\
    (forall k l, DetailCall k (ReplyListing l) ∈ new ->
                 exists l', DetailCall k (ReplyListing l') ∈ new /\
                            dict_get k (monitor_targets s')
                            = Some (mkMonitorTarget k (updated_at l') 0)).
Proof.
  apply (restore_targets_effect (E := service_env breaks8) [8; 7]
           (monitor_of breaks8 0 [] [] ∅)).
  reflexivity.
Defined.

(** The run of the witness: the lookup of listing 8 fails and that of
    listing 7 returns, so that listing 7 alone is tracked. *)
Lemma restore_targets_example :
  monitor_targets (state_of (monitor_of breaks8 0 [] [] ∅)
                     (restore_targets [8; 7] (monitor_of breaks8 0 [] [] ∅)))
  = [(7, mkMonitorTarget 7 0 0)].
Proof. vm_compute. reflexivity. Qed.

(* ===================================================================== *)
(** * time_utils.py *)
(* ===================================================================== *)

(** The unit [get_time_ago_str] picks and the number it shows, for a
    time at most 2^34 seconds (some 544 years) away, where the float of
    the elapsed seconds has the whole seconds [secs] of the exact
    difference as its integer part: seconds below one minute (also for a
    time in the future, shown as a number that is not positive), then whole
    minutes from 1 to 59, whole hours from 1 to 23, and whole days, each
    rounded down.  A missing time is rendered as unknown. *)
Theorem get_time_ago_str_units now dt :
  Z.abs (now - dt) < 2 ^ 34 * 1000000 ->
  get_time_ago_str now None = UnknownTime /\
  let secs := Z.quot (now - dt) 1000000 in
  match get_time_ago_str now (Some dt) with
  | UnknownTime => False
  | SecondsAgo n => n = secs /\ secs < 60
  | MinutesAgo n => 1 <= n < 60 /\ 60 * n <= secs < 60 * (n + 1)
  | HoursAgo n => 1 <= n < 24 /\ 3600 * n <= secs < 3600 * (n + 1)
  | DaysAgo n => 1 <= n /\ 86400 * n <= secs < 86400 * (n + 1)
  end.
Proof.
  intros Hrange. split; [reflexivity|]. intros secs.
  unfold get_time_ago_str, total_seconds.
  rewrite int_of_true_divide by lia. fold secs. cbv zeta.
  destruct (Z.ltb_spec secs 60); [split; [reflexivity|assumption]|].
  destruct (Z.ltb_spec secs 3600).
  { pose proof (Z.div_mod secs 60 ltac:(lia)).
    pose proof (Z.mod_pos_bound secs 60 ltac:(lia)). lia. }
  destruct (Z.ltb_spec secs 86400).
  { pose proof (Z.div_mod secs 3600 ltac:(lia)).
    pose proof (Z.mod_pos_bound secs 3600 ltac:(lia)). lia. }
  pose proof (Z.div_mod secs 86400 ltac:(lia)).
  pose proof (Z.mod_pos_bound secs 86400 ltac:(lia)). lia.
Qed.

Lemma get_time_ago_str_units_witness :
  get_time_ago_str 5400000000 None = UnknownTime /\
  let secs := Z.quot (5400000000 - 0) 1000000 in
  match get_time_ago_str 5400000000 (Some 0) with
  | UnknownTime => False
  | SecondsAgo n => n = secs /\ secs < 60
  | MinutesAgo n => 1 <= n < 60 /\ 60 * n <= secs < 60 * (n + 1)
  | HoursAgo n => 1 <= n < 24 /\ 3600 * n <= secs < 3600 * (n + 1)
  | DaysAgo n => 1 <= n /\ 86400 * n <= secs < 86400 * (n + 1)
  end.
Proof. apply (get_time_ago_str_units 5400000000 0). vm_compute. reflexivity. Defined.

(** A time that [is_recent_update] accepts for a threshold of up to 60
    minutes is shown by [get_time_ago_str] in seconds, or in minutes with
    a number below the threshold: the mark for a recent update in the
    listings table, set with a threshold of 2, only stands next to seconds
    or to 1 minute. *)
Theorem is_recent_update_display now dt threshold_minutes :
  0 <= threshold_minutes <= 60 ->
  is_recent_update now (Some dt) threshold_minutes = true ->
  match get_time_ago_str now (Some dt) with
  | SecondsAgo n => True
  | MinutesAgo n => 1 <= n < threshold_minutes
  | _ => False
  end.
Proof.
  intros Hm Hrecent. unfold is_recent_update in Hrecent.
  pose proof (float_lt_int_trunc _ _ Hrecent) as Hi.
  unfold get_time_ago_str. cbv zeta.
  set (i := int_of_float (total_seconds (now - dt))) in *.
  destruct (Z.ltb_spec i 60); [exact I|].
  specialize (Hi ltac:(lia)).
  destruct (Z.ltb_spec i 3600).
  - split; [apply Z.div_le_lower_bound; lia|apply Z.div_lt_upper_bound; lia].
  - destruct (Z.ltb_spec i 86400); lia.
Qed.

Lemma is_recent_update_display_witness :
  match get_time_ago_str 90000000 (Some 0) with
  | SecondsAgo n => True
  | MinutesAgo n => 1 <= n < 2
  | _ => False
  end.
Proof.
  apply (is_recent_update_display 90000000 0 2); [lia|vm_compute; reflexivity].
Defined.

(* ===================================================================== *)
(** * The exclusion rule *)
(* ===================================================================== *)

(** A listing with a filled slot whose job text names an excluded job is
    rejected by the detail stage, whatever its other slots and fields and
    whatever else the condition asks for. *)
Theorem excluded_job_rejects `{E : Env} listing fc api detailed w excluded sl slot ex :
  session api = true ->
  http_get_listing (id listing) (world api) = (ReplyListing detailed, w) ->
  exclude_jobs fc = Some excluded -> ex ∈ excluded ->
  slots detailed = Some sl -> slot ∈ sl -> filled slot = true ->
  ex ∈ get_job_ids_from_codes (get_job_codes_from_string (job slot)) ->
  exists api', check_advanced_filters listing fc api = Some (Ok false, api').
Proof.
  intros Hs Hreply Hex Hin Hsl Hslot Hfilled Hjob.
  assert (Hany : any_advanced_filter fc = true).
  { unfold any_advanced_filter. rewrite Hex. destruct excluded; [|reflexivity].
    apply elem_of_nil in Hin. contradiction. }
  assert (Hne : nonempty (job slot) = true).
  { destruct (nonempty (job slot)) eqn:Hn; [reflexivity|].
    unfold get_job_codes_from_string in Hjob. rewrite Hn in Hjob.
    apply elem_of_nil in Hjob. contradiction. }
  assert (Hrej : excluded_job_present fc detailed = true).
  { unfold excluded_job_present. rewrite Hex, Hsl.
    destruct excluded as [|e0 es]; [apply elem_of_nil in Hin; contradiction|].
    destruct sl as [|s0 ss]; [apply elem_of_nil in Hslot; contradiction|].
    apply existsb_exists. exists slot. split; [apply list_elem_of_In, Hslot|].
    unfold slot_has_excluded_job. rewrite Hfilled, Hne. cbn [andb].
    apply existsb_exists. exists ex. split; [apply list_elem_of_In, Hin|].
    apply bool_decide_eq_true_2, Hjob. }
  unfold check_advanced_filters. rewrite Hany. cbn [negb].
  unfold bind, try_except, get_listing_detail. rewrite Hs. cbn [negb].
  unfold bind, ret. rewrite Hreply. cbn.
  unfold check_detail. rewrite Hrej. eauto.
Qed.

Lemma excluded_job_rejects_witness :
  exists api',
    check_advanced_filters (E := service_env knows_warriors) warrior_party no_tanks
      (@mkApi (service_env knows_warriors) true 0 []) = Some (Ok false, api').
Proof.
  refine (excluded_job_rejects (E := service_env knows_warriors) warrior_party no_tanks
            (@mkApi (service_env knows_warriors) true 0 []) warrior_party 0 [19; 21]
            [mkSlotInfo false None "PLD"; mkSlotInfo true (Some "tank") "war"]
            (mkSlotInfo true (Some "tank") "war") 21
            eq_refl eq_refl eq_refl _ eq_refl _ eq_refl _).
  - apply list_elem_of_In. right. left. reflexivity.
  - apply list_elem_of_In. right. left. reflexivity.
  - decide_prop.
Defined.

(* ===================================================================== *)
(** * config.py *)
(* ===================================================================== *)

Lemma list_remove_first_sublist x l : list_remove_first x l `sublist_of` l.
Proof.
  induction l as [|y rest IH]; simpl; [constructor|].
  destruct (y =? x); [apply sublist_cons; reflexivity|apply sublist_skip, IH].
Qed.

Lemma list_remove_first_gone x l : NoDup l -> x ∉ list_remove_first x l.
Proof.
  induction l as [|y rest IH]; simpl; intros Hnd; [apply not_elem_of_nil|].
  apply NoDup_cons in Hnd as [Hy Hnd].
  destruct (Z.eqb_spec y x) as [->|Hne]; [exact Hy|].
  apply not_elem_of_cons. split; [congruence|apply IH, Hnd].
Qed.

Lemma list_remove_first_app x l : x ∉ l -> list_remove_first x (l ++ [x]) = l.
Proof.
  induction l as [|y rest IH]; simpl; intros Hx.
  - rewrite Z.eqb_refl. reflexivity.
  - apply not_elem_of_cons in Hx as [Hne Hx].
    destruct (Z.eqb_spec y x); [congruence|]. rewrite IH by exact Hx. reflexivity.
Qed.

(** The configured target ids stay distinct.  On a list without
    repetition, adding an id leaves the list without repetition and
    holding the id, removing an id leaves it without repetition and
    without the id, and removing an id just added to a list that did not
    hold it gives the list back. *)
Theorem config_monitor_targets_distinct listing_id targets :
  NoDup targets ->
  NoDup (config_add_monitor_target listing_id targets) /\
  listing_id ∈ config_add_monitor_target listing_id targets /\
  NoDup (config_remove_monitor_target listing_id targets) /\
  (listing_id ∉ config_remove_monitor_target listing_id targets) /\
  (listing_id ∉ targets ->
   config_remove_monitor_target listing_id (config_add_monitor_target listing_id targets)
   = targets).
Proof.
  intros Hnd. unfold config_add_monitor_target, config_remove_monitor_target.
  destruct (bool_decide_reflect (listing_id ∈ targets)) as [Hin|Hout].
  - split; [exact Hnd|]. split; [exact Hin|].
    split; [eapply sublist_NoDup; [exact Hnd|apply list_remove_first_sublist]|].
    split; [apply list_remove_first_gone, Hnd|]. intros Hc. contradiction.
  - assert (Hlast : listing_id ∈ targets ++ [listing_id]).
    { apply elem_of_app. right. apply list_elem_of_singleton. reflexivity. }
    split.
    { apply NoDup_app. split; [exact Hnd|]. split; [|apply NoDup_singleton].
      intros x Hx Hs. apply list_elem_of_singleton in Hs. subst x. contradiction. }
    split; [exact Hlast|]. split; [exact Hnd|]. split; [exact Hout|].
    intros _. rewrite bool_decide_eq_true_2 by exact Hlast.
    apply list_remove_first_app, Hout.
Qed.

Lemma config_monitor_targets_distinct_witness :
  NoDup (config_add_monitor_target 7 [3; 8]) /\
  7 ∈ config_add_monitor_target 7 [3; 8] /\
  NoDup (config_remove_monitor_target 7 [3; 8]) /\
  (7 ∉ config_remove_monitor_target 7 [3; 8]) /\
  (7 ∉ [3; 8] ->
   config_remove_monitor_target 7 (config_add_monitor_target 7 [3; 8]) = [3; 8]).
Proof. apply (config_monitor_targets_distinct 7 [3; 8]). decide_prop. Defined.

Lemma toggle_filter_first name pre f post :
  cfg_name f = name ->
  (forall g, g ∈ pre -> cfg_name g <> name) ->
  toggle_filter name (pre ++ f :: post)
  = pre ++ mkFilterConfig (cfg_name f) (cfg_condition f) (negb (cfg_enabled f)) :: post.
Proof.
  intros Hf Hpre. induction pre as [|g pre IH]; cbn [app toggle_filter].
  - rewrite Hf, String.eqb_refl. reflexivity.
  - destruct (String.eqb_spec (cfg_name g) name) as [Hg|_].
    + exfalso. apply (Hpre g); [left|exact Hg].
    + rewrite IH; [reflexivity|]. intros h Hh. apply Hpre. right. exact Hh.
Qed.

Lemma toggle_filter_absent name filters :
  (forall g, g ∈ filters -> cfg_name g <> name) -> toggle_filter name filters = filters.
Proof.
  intros Hnone. induction filters as [|g rest IH]; [reflexivity|]. cbn [toggle_filter].
  destruct (String.eqb_spec (cfg_name g) name) as [Hg|_].
  - exfalso. apply (Hnone g); [left|exact Hg].
  - rewrite IH; [reflexivity|]. intros h Hh. apply Hnone. right. exact Hh.
Qed.

(** Filters are handled by name, and names may repeat, since
    [add_filter] appends an enabled filter without looking.
    [toggle_filter] inverts the switch of the first filter of the name and
    leaves every other filter, also later ones of the same name, as it
    is; without a filter of the name it changes nothing; toggling twice
    gives the list back.  [remove_filter] drops every filter of the name
    and keeps the others in order; [get_enabled_filters] keeps the enabled
    ones in order.  So after a filter is added under a name that is in
    use, one toggle of the name reaches the older filter and a filter of
    that name is still enabled. *)
Theorem filters_by_name name filters :
  (forall pre f post,
      filters = pre ++ f :: post -> cfg_name f = name ->
      (forall g, g ∈ pre -> cfg_name g <> name) ->
      toggle_filter name filters
      = pre ++ mkFilterConfig (cfg_name f) (cfg_condition f) (negb (cfg_enabled f)) :: post) /\
  ((forall g, g ∈ filters -> cfg_name g <> name) -> toggle_filter name filters = filters) /\
  toggle_filter name (toggle_filter name filters) = filters /\
  (forall condition,
      add_filter name condition filters = filters ++ [mkFilterConfig name condition true]) /\
  remove_filter name filters `sublist_of` filters /\
  (forall f, f ∈ remove_filter name filters <-> f ∈ filters /\ cfg_name f <> name) /\
  get_enabled_filters filters `sublist_of` filters /\
  (forall f, f ∈ get_enabled_filters filters <-> f ∈ filters /\ cfg_enabled f = true) /\
  (forall condition,
      name ∈ cfg_name <$> filters ->
      name ∈ cfg_name
             <$> get_enabled_filters (toggle_filter name (add_filter name condition filters))).
Proof.
  split.
  { intros pre f post -> Hf Hpre. apply toggle_filter_first; assumption. }
  split; [apply toggle_filter_absent|].
  split.
  { induction filters as [|f rest IH]; [reflexivity|]. cbn [toggle_filter].
    destruct (String.eqb (cfg_name f) name) eqn:Hn; cbn [toggle_filter cfg_name].
    - rewrite Hn. cbn [cfg_condition cfg_enabled]. rewrite negb_involutive.
      destruct f; reflexivity.
    - rewrite Hn, IH. reflexivity. }
  split; [reflexivity|].
  split; [apply sublist_filter|].
  split.
  { intros f. unfold remove_filter. rewrite list_elem_of_filter. tauto. }
  split; [apply sublist_filter|].
  split.
  { intros f. unfold get_enabled_filters. rewrite list_elem_of_filter. tauto. }
  intros condition Hin. unfold add_filter, get_enabled_filters.
  induction filters as [|f rest IH]; [apply elem_of_nil in Hin; contradiction|].
  cbn [app toggle_filter]. destruct (String.eqb_spec (cfg_name f) name) as [Hn|Hn].
  - apply list_elem_of_fmap. exists (mkFilterConfig name condition true).
    split; [reflexivity|]. apply list_elem_of_filter. split; [reflexivity|].
    right. apply elem_of_app. right. apply list_elem_of_singleton. reflexivity.
  - rewrite fmap_cons in Hin. apply elem_of_cons in Hin as [Heq|Hin]; [congruence|].
    specialize (IH Hin). apply list_elem_of_fmap in IH as (g & Hg & Hgin).
    apply list_elem_of_fmap. exists g. split; [exact Hg|].
    apply list_elem_of_filter in Hgin as [Hen Hgin].
    apply list_elem_of_filter. split; [exact Hen|]. right. exact Hgin.
Qed.
